(** * A virtual file system stored in one host file

    Shallow embedding of [virtualStorage.c] (the block storage engine) and
    [virtualFileSystem.c] (the file-system layer), with the properties of
    the design document stated over it.

    Platform assumptions (LP64, little-endian, as on x86-64 Linux):
    [unsigned short] is 16 bits, [int] 32 bits, [size_t] unsigned 64 bits,
    [off_t] and [ssize_t] signed 64 bits, [char] is signed.  Conversions
    between the integer types are written out with the functions of
    section "Machine integers". *)

From Stdlib Require Import ZArith Lia Strings.Byte Strings.String.
From stdpp Require Import base tactics option list.

Local Open Scope Z_scope.

(** ** Machine integers *)

Definition to_size_t (z : Z) : Z := z mod 2 ^ 64.
Definition to_off_t (z : Z) : Z := (z + 2 ^ 63) mod 2 ^ 64 - 2 ^ 63.
Definition to_int (z : Z) : Z := (z + 2 ^ 31) mod 2 ^ 32 - 2 ^ 31.
Definition to_char (z : Z) : Z := (z + 128) mod 256 - 128.

Definition INT_MAX : Z := 2 ^ 31 - 1.

(** ** Bytes and little-endian encoding *)

Definition Z_of_byte (b : byte) : Z := Z.of_N (Byte.to_N b).

Definition byte_of_Z (z : Z) : byte :=
  match Byte.of_N (Z.to_N (z mod 256)) with
  | Some b => b
  | None => x00
  end.

(** The [n] low-order bytes of [z], least significant first: what
    [write(fd, &v, n)] sends for an integer variable [v]. *)
Fixpoint le_encode (n : nat) (z : Z) : list byte :=
  match n with
  | O => []
  | S k => byte_of_Z z :: le_encode k (z / 256)
  end.

(** The unsigned value of a little-endian byte string. *)
Fixpoint le_decode (bs : list byte) : Z :=
  match bs with
  | [] => 0
  | b :: r => Z_of_byte b + 256 * le_decode r
  end.

(** A C string held in a buffer: the bytes before the first NUL. *)
Fixpoint cstr (bs : list byte) : list byte :=
  match bs with
  | [] => []
  | b :: r => if Byte.eqb b x00 then [] else b :: cstr r
  end.

Fixpoint list_byte_eqb (a b : list byte) : bool :=
  match a, b with
  | [], [] => true
  | x :: a', y :: b' => Byte.eqb x y && list_byte_eqb a' b'
  | _, _ => false
  end.

(** [strcmp(a, b) == 0] *)
Definition strcmp0 (a b : list byte) : bool := list_byte_eqb (cstr a) (cstr b).

(** ** Computations over a state

    A computation either finishes with a value and a new state, or hits
    undefined behaviour / host I/O outside the storage file ([Fault]), or
    exhausts the iteration budget of one of its loops ([Timeout]). *)

Inductive outcome (S A : Type) : Type :=
| Done (a : A) (s : S)
| Fault
| Timeout.
Arguments Done {S A} a s.
Arguments Fault {S A}.
Arguments Timeout {S A}.

Definition M (S A : Type) : Type := S → outcome S A.

Definition ret {S A} (a : A) : M S A := λ s, Done a s.

Definition bind {S A B} (m : M S A) (k : A → M S B) : M S B :=
  λ s, match m s with
       | Done a s' => k a s'
       | Fault => Fault
       | Timeout => Timeout
       end.

Definition gets {S A} (f : S → A) : M S A := λ s, Done (f s) s.
Definition modify {S} (f : S → S) : M S unit := λ s, Done tt (f s).
Definition fault {S A} : M S A := λ _, Fault.

Declare Scope comp_scope.
Delimit Scope comp_scope with comp.
Notation "'let*' x := m 'in' k" := (bind m (λ x, k))
  (at level 10, x name, m at level 100, k at level 200) : comp_scope.
Notation "m ;; k" := (bind m (λ _, k))
  (at level 100, k at level 200, right associativity) : comp_scope.
Local Open Scope comp_scope.

(** A [while] loop with loop-carried variables of type [A]: the body
    either continues with new values ([inl]) or leaves the loop with a
    result ([inr]); [fuel] bounds the number of iterations. *)
Fixpoint iter {S A B} (fuel : nat) (body : A → M S (A + B)) (a : A) : M S B :=
  match fuel with
  | O => λ _, Timeout
  | Datatypes.S k =>
      λ s, match body a s with
           | Done (inl a') s' => iter k body a' s'
           | Done (inr b) s' => Done b s'
           | Fault => Fault
           | Timeout => Timeout
           end
  end.

Definition continue {S A B} (a : A) : M S (A + B) := ret (inl a).
Definition break {S A B} (b : B) : M S (A + B) := ret (inr b).

(** * virtualStorage.c *)

Module Storage.

Definition DEFAULT_BLOCK_SIZE : Z := 10.
Definition DEFAULT_BLOCK_COUNT : Z := 128.
Definition FIRST_BLOCK_POSITION : Z := 4.
Definition INVALID_REGION : Z := 65535.

Definition BLOCK_NOT_IN_USE_INDICATOR : byte := x00.
Definition BLOCK_IN_USE_INDICATOR : byte := x01.
Definition INVALID_BLOCK : Z := INVALID_REGION.
Definition BLOCK_HEADER_SIZE : Z := 1 + 2 * 2.

(** [in_use] is the byte that the [bool] field holds:
    [read_block_header] reads it from the file with
    [read(storage_file_, &current_block_.in_use, sizeof(char))]. *)
Record block_info := {
  in_use : Z;
  previous_block : Z;
  next_block : Z
}.

(** [!b] for a [bool] object that holds the byte [b].  For 0 and 1
    this is the negation of C.  No other byte is a value of [bool], and
    the C standard leaves the test undefined; the code of the default
    build (gcc without optimisation) computes [b ^ 1] and branches on
    it, so that every byte other than 1 counts as false. *)
Definition bool_not (b : Z) : bool := negb (b =? 1).

(** The globals of the module, together with the part of the host that
    it talks to: the file [./virtualStorage] ([None] while it does not
    exist) and the file offset of the descriptor [storage_file_]. *)
Record storage := {
  host_file : option (list byte);
  host_offset : Z;
  storage_file_ : Z;
  active_block_size_ : Z;
  active_block_count_ : Z;
  current_block_index_ : Z;
  current_block_position_ : Z;
  current_region_position_ : Z;
  current_block_ : block_info
}.

Definition set_host (f : option (list byte)) (o : Z) (s : storage) : storage :=
  match s with
  | Build_storage file off fd size count index pos rpos cur =>
      {| host_file := f;
         host_offset := o;
         storage_file_ := fd;
         active_block_size_ := size;
         active_block_count_ := count;
         current_block_index_ := index;
         current_block_position_ := pos;
         current_region_position_ := rpos;
         current_block_ := cur |}
  end.

Definition set_storage_file_ (d : Z) (s : storage) : storage :=
  match s with
  | Build_storage file off fd size count index pos rpos cur =>
      {| host_file := file;
         host_offset := off;
         storage_file_ := d;
         active_block_size_ := size;
         active_block_count_ := count;
         current_block_index_ := index;
         current_block_position_ := pos;
         current_region_position_ := rpos;
         current_block_ := cur |}
  end.

Definition set_active (block_size block_count : Z) (s : storage) : storage :=
  match s with
  | Build_storage file off fd size count index pos rpos cur =>
      {| host_file := file;
         host_offset := off;
         storage_file_ := fd;
         active_block_size_ := block_size;
         active_block_count_ := block_count;
         current_block_index_ := index;
         current_block_position_ := pos;
         current_region_position_ := rpos;
         current_block_ := cur |}
  end.

Definition set_current_block_index_ (i : Z) (s : storage) : storage :=
  match s with
  | Build_storage file off fd size count index pos rpos cur =>
      {| host_file := file;
         host_offset := off;
         storage_file_ := fd;
         active_block_size_ := size;
         active_block_count_ := count;
         current_block_index_ := i;
         current_block_position_ := pos;
         current_region_position_ := rpos;
         current_block_ := cur |}
  end.

Definition set_current_block_position_ (p : Z) (s : storage) : storage :=
  match s with
  | Build_storage file off fd size count index pos rpos cur =>
      {| host_file := file;
         host_offset := off;
         storage_file_ := fd;
         active_block_size_ := size;
         active_block_count_ := count;
         current_block_index_ := index;
         current_block_position_ := p;
         current_region_position_ := rpos;
         current_block_ := cur |}
  end.

Definition set_current_region_position_ (p : Z) (s : storage) : storage :=
  match s with
  | Build_storage file off fd size count index pos rpos cur =>
      {| host_file := file;
         host_offset := off;
         storage_file_ := fd;
         active_block_size_ := size;
         active_block_count_ := count;
         current_block_index_ := index;
         current_block_position_ := pos;
         current_region_position_ := p;
         current_block_ := cur |}
  end.

Definition set_current_block_ (b : block_info) (s : storage) : storage :=
  match s with
  | Build_storage file off fd size count index pos rpos cur =>
      {| host_file := file;
         host_offset := off;
         storage_file_ := fd;
         active_block_size_ := size;
         active_block_count_ := count;
         current_block_index_ := index;
         current_block_position_ := pos;
         current_region_position_ := rpos;
         current_block_ := b |}
  end.

(** The state of a process that has not touched the module yet. *)
Definition initial (f : option (list byte)) : storage :=
  {| host_file := f; host_offset := 0;
     storage_file_ := -1;
     active_block_size_ := 0;
     active_block_count_ := 0;
     current_block_index_ := 0;
     current_block_position_ := 0;
     current_region_position_ := 0;
     current_block_ :=
       {| in_use := 0; previous_block := 0; next_block := 0 |} |}.

(** ** The host calls on [storage_file_]

    The module does not check what [read], [write] and [lseek] return
    ("as long as the storage file is structured correctly, these functions
    should always succeed").  A transfer that stays inside the file is
    modelled exactly; one that would cross the end of the file, or that
    is given a negative count, is outside the model ([Fault]). *)

(** The [n] bytes at offset [off] of [f], when [f] has them. *)
Definition slice (f : list byte) (off n : Z) : option (list byte) :=
  let data := take (Z.to_nat n) (drop (Z.to_nat off) f) in
  if (0 <=? n) && (0 <=? off) && (length data =? Z.to_nat n)%nat
  then Some data
  else None.

Definition host_read (n : Z) : M storage (list byte) := λ s,
  match host_file s with
  | Some f =>
      match slice f (host_offset s) n with
      | Some data => Done data (set_host (Some f) (host_offset s + n) s)
      | None => Fault
      end
  | None => Fault
  end.

Definition host_write (data : list byte) : M storage unit := λ s,
  match host_file s with
  | Some f =>
      match slice f (host_offset s) (Z.of_nat (length data)) with
      | Some _ =>
          Done tt (set_host
                     (Some (list_inserts (Z.to_nat (host_offset s)) data f))
                     (host_offset s + Z.of_nat (length data)) s)
      | None => Fault
      end
  | None => Fault
  end.

(** [lseek] to a negative offset fails and leaves the offset where it
    was; the module ignores the failure. *)
Definition host_lseek (target : Z) : M storage unit := λ s,
  if target <? 0 then Done tt s
  else Done tt (set_host (host_file s) target s).

Definition host_lseek_cur (delta : Z) : M storage unit := λ s,
  host_lseek (host_offset s + delta) s.

(** The [count] bytes at [buffer + from] of a caller's buffer; reading
    past the end of the buffer is undefined. *)
Definition buffer_slice {S} (buffer : list byte) (from count : Z)
  : M S (list byte) :=
  match slice buffer from count with
  | Some data => ret data
  | None => fault
  end.

(** ** The module's functions *)

Definition storage_initialized : M storage bool :=
  gets (λ s, negb (storage_file_ s =? -1)).

Definition block_bytes (indicator : byte) (block_size : Z) : list byte :=
  [indicator] ++ le_encode 2 INVALID_BLOCK ++ le_encode 2 INVALID_BLOCK
  ++ replicate (Z.to_nat block_size) x00.

(** The bytes [create_storage_file] writes: the header, the reserved
    first block, and [block_count - 1] empty blocks. *)
Definition create_storage_file (block_size block_count : Z) : M storage unit :=
  λ s,
  match host_file s with
  | Some _ => Done tt s
  | None =>
      Done tt
        (set_host
           (Some (le_encode 2 block_size ++ le_encode 2 block_count
                  ++ block_bytes BLOCK_IN_USE_INDICATOR block_size
                  ++ mjoin (replicate (Z.to_nat (block_count - 1))
                              (block_bytes BLOCK_NOT_IN_USE_INDICATOR
                                 block_size))))
           (host_offset s) s)
  end.

(** [open(STORAGE_PATH, O_RDWR | O_BINARY)]: descriptor 3 with offset 0
    when the file exists, -1 otherwise. *)
Definition host_open : M storage Z := λ s,
  match host_file s with
  | Some f => Done 3 (set_host (Some f) 0 s)
  | None => Done (-1) s
  end.

Definition read_active_header : M storage unit :=
  let* size := host_read 2 in
  let* count := host_read 2 in
  modify (set_active (le_decode size) (le_decode count)).

Definition storage_initialize : M storage Z :=
  let* init := storage_initialized in
  if init then ret (-1) else
  let* fd := host_open in
  modify (set_storage_file_ fd);;
  if fd =? -1 then
    create_storage_file DEFAULT_BLOCK_SIZE DEFAULT_BLOCK_COUNT;;
    let* fd := host_open in
    modify (set_storage_file_ fd);;
    if fd =? -1 then ret (-1)
    else read_active_header;; ret 0
  else read_active_header;; ret 0.

Definition read_block_header : M storage unit :=
  let* b := host_read 1 in
  let* p := host_read 2 in
  let* n := host_read 2 in
  modify (set_current_block_
            {| in_use := le_decode b;
               previous_block := le_decode p;
               next_block := le_decode n |});;
  modify (set_current_block_position_ 0).

Definition block_offset (block_size block : Z) : Z :=
  FIRST_BLOCK_POSITION + (block_size + BLOCK_HEADER_SIZE) * block.

Definition jump_to_block (block : Z) : M storage unit :=
  let* count := gets active_block_count_ in
  if count <=? block then ret tt else
  let* size := gets active_block_size_ in
  (* the offset is computed in [int] *)
  if INT_MAX <? block_offset size block then fault else
  host_lseek (block_offset size block);;
  read_block_header;;
  modify (set_current_block_index_ block).

(** The scan of [allocate_block]; [n] is the number of blocks still to
    inspect, [active_block_count_ - inspected_block_index]. *)
Fixpoint allocate_block_scan (n : nat) (previous_block inspected : Z)
  : M storage Z :=
  match n with
  | O => ret INVALID_BLOCK
  | Datatypes.S n' =>
      jump_to_block inspected;;
      let* cur := gets current_block_ in
      if bool_not (in_use cur) then
        host_lseek_cur (- BLOCK_HEADER_SIZE);;
        host_write [BLOCK_IN_USE_INDICATOR];;
        host_write (le_encode 2 previous_block);;
        host_write (le_encode 2 INVALID_BLOCK);;
        ret inspected
      else allocate_block_scan n' previous_block (inspected + 1)
  end.

Definition allocate_block (previous_block : Z) : M storage Z :=
  let* count := gets active_block_count_ in
  allocate_block_scan (Z.to_nat count) previous_block 0.

Definition storage_allocate_region : M storage Z :=
  let* init := storage_initialized in
  if negb init then ret INVALID_REGION
  else allocate_block INVALID_BLOCK.

Definition storage_free_region (fuel : nat) (region : Z) : M storage Z :=
  let* init := storage_initialized in
  if negb init then ret (-1) else
  iter fuel (λ next,
    if next =? INVALID_BLOCK then break tt else
    jump_to_block next;;
    let* cur := gets current_block_ in
    host_lseek_cur (- BLOCK_HEADER_SIZE);;
    host_write [BLOCK_NOT_IN_USE_INDICATOR];;
    host_write (le_encode 2 INVALID_BLOCK);;
    host_write (le_encode 2 INVALID_BLOCK);;
    continue (next_block cur)) region;;
  ret 0.

Definition storage_jump_to_region (region : Z) : M storage Z :=
  let* init := storage_initialized in
  if negb init then ret (-1) else
  jump_to_block region;;
  modify (set_current_region_position_ 0);;
  ret 0.

(** One pass of the [while] loop of [storage_read_in_region]:
    [read_bytes] and the bytes stored in [buffer] so far are carried
    along.  Leaving with [true] is the [return read_bytes] inside the
    loop, leaving with [false] is the end of the loop. *)
Definition read_in_region_pass (n_bytes : Z) (carried : Z * list byte)
  : M storage (Z * list byte + bool * Z * list byte) :=
  let '(read_bytes, got) := carried in
  let* pos := gets current_block_position_ in
  let* size := gets active_block_size_ in
  if size <=? to_size_t (pos + n_bytes - read_bytes) then
    let bytes_to_read := to_int (to_size_t (size - pos)) in
    let* chunk := host_read bytes_to_read in
    let read_bytes := to_size_t (read_bytes + bytes_to_read) in
    let* cur := gets current_block_ in
    if next_block cur =? INVALID_BLOCK then
      break (true, read_bytes, got ++ chunk)
    else
      jump_to_block (next_block cur);;
      continue (read_bytes, got ++ chunk)
  else break (false, read_bytes, got).

(** What follows the loop. *)
Definition read_in_region_rest (n_bytes : Z) (left : bool * Z * list byte)
  : M storage (Z * list byte) :=
  match left with
  | (true, read_bytes, got) => ret (read_bytes, got)
  | (false, read_bytes, got) =>
      let* chunk := host_read (to_size_t (n_bytes - read_bytes)) in
      let* pos := gets current_block_position_ in
      modify (set_current_block_position_
                (to_size_t (pos + (n_bytes - read_bytes))));;
      let* rpos := gets current_region_position_ in
      modify (set_current_region_position_ (to_size_t (rpos + n_bytes)));;
      ret (n_bytes, got ++ chunk)
  end.

(** Returns the count the C function returns and the bytes it stored
    at the start of [buffer]. *)
Definition storage_read_in_region (fuel : nat) (n_bytes : Z)
  : M storage (Z * list byte) :=
  let* init := storage_initialized in
  if negb init then ret (0, []) else
  let* left := iter fuel (read_in_region_pass n_bytes) (0, []) in
  read_in_region_rest n_bytes left.

(** One pass of the [while] loop of [storage_write_in_region], with
    [written_bytes] carried along; [true] is the [return written_bytes]
    inside the loop. *)
Definition write_in_region_pass (buffer : list byte) (n_bytes : Z)
  (written_bytes : Z) : M storage (Z + bool * Z) :=
  let* pos := gets current_block_position_ in
  let* size := gets active_block_size_ in
  if size <=? to_size_t (pos + n_bytes - written_bytes) then
    let bytes_to_write := to_int (to_size_t (size - pos)) in
    let* chunk := buffer_slice buffer written_bytes bytes_to_write in
    host_write chunk;;
    let written_bytes := to_size_t (written_bytes + bytes_to_write) in
    let* cur := gets current_block_ in
    if negb (next_block cur =? INVALID_BLOCK) then
      jump_to_block (next_block cur);;
      continue written_bytes
    else
      let* current_block := gets current_block_index_ in
      let* new_block := allocate_block current_block in
      if new_block =? INVALID_BLOCK then
        break (true, written_bytes)
      else
        jump_to_block current_block;;
        host_lseek_cur (to_off_t (to_size_t (- BLOCK_HEADER_SIZE + 1 + 2)));;
        host_write (le_encode 2 new_block);;
        jump_to_block new_block;;
        continue written_bytes
  else break (false, written_bytes).

(** What follows the loop. *)
Definition write_in_region_rest (buffer : list byte) (n_bytes : Z)
  (left : bool * Z) : M storage Z :=
  match left with
  | (true, written_bytes) => ret written_bytes
  | (false, written_bytes) =>
      let* chunk :=
        buffer_slice buffer written_bytes (to_size_t (n_bytes - written_bytes)) in
      host_write chunk;;
      let* pos := gets current_block_position_ in
      modify (set_current_block_position_
                (to_size_t (pos + (n_bytes - written_bytes))));;
      let* rpos := gets current_region_position_ in
      modify (set_current_region_position_ (to_size_t (rpos + n_bytes)));;
      ret n_bytes
  end.

Definition storage_write_in_region (fuel : nat) (buffer : list byte)
  (n_bytes : Z) : M storage Z :=
  let* init := storage_initialized in
  if negb init then ret 0 else
  let* left := iter fuel (write_in_region_pass buffer n_bytes) 0 in
  write_in_region_rest buffer n_bytes left.

(** [offset] is an [off_t].  The comparison that guards the backward
    loop is made in [size_t], as in the source. *)
Definition storage_seek_in_region (fuel : nat) (offset : Z) : M storage Z :=
  let* init := storage_initialized in
  if negb init then gets current_region_position_ else
  (if 0 <? offset then
     let* sought_bytes := iter fuel (λ sought_bytes,
       let* pos := gets current_block_position_ in
       let* size := gets active_block_size_ in
       if size <=? to_size_t (pos + offset - sought_bytes) then
         let* cur := gets current_block_ in
         jump_to_block (next_block cur);;
         continue (to_off_t (to_size_t (sought_bytes + (size - pos))))
       else break sought_bytes) 0 in
     host_lseek_cur (to_off_t (offset - sought_bytes));;
     let* pos := gets current_block_position_ in
     modify (set_current_block_position_
               (to_size_t (pos + (offset - sought_bytes))))
   else if offset <? 0 then
     let* sought_bytes := iter fuel (λ sought_bytes,
       let* pos := gets current_block_position_ in
       let* size := gets active_block_size_ in
       if to_size_t (pos + offset - sought_bytes) <? 0 then
         let* cur := gets current_block_ in
         jump_to_block (previous_block cur);;
         host_lseek_cur (size - 1);;
         modify (set_current_block_position_ (size - 1));;
         continue (to_off_t (to_size_t (sought_bytes - (pos + 1))))
       else break sought_bytes) 0 in
     host_lseek_cur (to_off_t (offset - sought_bytes));;
     let* pos := gets current_block_position_ in
     modify (set_current_block_position_
               (to_size_t (pos + (offset - sought_bytes))))
   else ret tt);;
  let* rpos := gets current_region_position_ in
  modify (set_current_region_position_ (to_size_t (rpos + offset)));;
  gets current_region_position_.

End Storage.

(** * virtualFileSystem.c *)

Module FileSystem.
Import Storage.

Definition MAX_DESCRIPTORS : Z := 256.

(** The flag and [whence] values of [<fcntl.h>] and [<unistd.h>] on Linux. *)
Definition O_CREAT : Z := 64.
Definition O_EXCL : Z := 128.
Definition O_TRUNC : Z := 512.
Definition O_APPEND : Z := 1024.
Definition SEEK_SET : Z := 0.
Definition SEEK_CUR : Z := 1.
Definition SEEK_END : Z := 2.

(** The field [length] of the source is [file_length] here. *)
Record virtual_file := {
  content_region : Z;
  metadata_region : Z;
  file_length : Z;
  reader_position : Z
}.

(** [remainder_path] is [None] for the source's [NULL]. *)
Record directory_navigation_result := {
  remainder_path : option (list byte);
  directory_region : Z
}.

Definition NULL_ENTRY : Z := 0.
Definition UNUSED_ENTRY : Z := 1.
Definition FILE_ENTRY : Z := 2.
Definition DIRECTORY_ENTRY : Z := 3.

Definition root_directory_region_ : Z := 0.

(** The globals of the module; [engine] holds those of virtualStorage.c.
    A slot of [descriptors_] is [None] where the array holds [NULL]. *)
Record fs := {
  engine : storage;
  descriptors_ : list (option virtual_file);
  last_used_descriptor_ : Z
}.

Definition set_engine (e : storage) (s : fs) : fs :=
  match s with
  | Build_fs _ ds last =>
      {| engine := e; descriptors_ := ds; last_used_descriptor_ := last |}
  end.
Definition set_descriptors_ (ds : list (option virtual_file)) (s : fs) : fs :=
  match s with
  | Build_fs e _ last =>
      {| engine := e; descriptors_ := ds; last_used_descriptor_ := last |}
  end.
Definition set_last_used_descriptor_ (d : Z) (s : fs) : fs :=
  match s with
  | Build_fs e ds _ =>
      {| engine := e; descriptors_ := ds; last_used_descriptor_ := d |}
  end.

Definition set_content_region (r : Z) (f : virtual_file) : virtual_file :=
  match f with
  | Build_virtual_file _ metadata len pos =>
      {| content_region := r; metadata_region := metadata;
         file_length := len; reader_position := pos |}
  end.
Definition set_file_length (l : Z) (f : virtual_file) : virtual_file :=
  match f with
  | Build_virtual_file content metadata _ pos =>
      {| content_region := content; metadata_region := metadata;
         file_length := l; reader_position := pos |}
  end.
Definition set_reader_position (p : Z) (f : virtual_file) : virtual_file :=
  match f with
  | Build_virtual_file content metadata len _ =>
      {| content_region := content; metadata_region := metadata;
         file_length := len; reader_position := p |}
  end.

(** The state of a process before its first call, on a host where
    [./virtualStorage] holds [f] (or does not exist). *)
Definition initial (f : option (list byte)) : fs :=
  {| engine := Storage.initial f;
     descriptors_ := replicate (Z.to_nat MAX_DESCRIPTORS) None;
     last_used_descriptor_ := -1 |}.

(** A call into virtualStorage.c: only [engine] changes. *)
Definition lift {A} (m : M storage A) : M fs A := λ s,
  match m (engine s) with
  | Done a e => Done a (set_engine e s)
  | Fault => Fault
  | Timeout => Timeout
  end.

(** ** Reading variables from the current region *)

(** [storage_read_in_region(&v, width)] for an integer variable [v] of at
    least [width] bytes whose other bytes are zero.  [old] is the value
    of [v] before the call, [None] if [v] is uninitialised: bytes the
    engine does not deliver keep what they held.  The result is [None]
    when a byte of [v] is still unset after the call. *)
Definition read_scalar (fuel : nat) (width : nat) (old : option Z)
  : M storage (option Z) :=
  let* r := storage_read_in_region fuel (Z.of_nat width) in
  let got := r.2 in
  if (length got =? width)%nat then ret (Some (le_decode got))
  else if (width <? length got)%nat then fault
  else ret (match old with
            | Some v =>
                Some (le_decode (got ++ drop (length got) (le_encode width v)))
            | None => None
            end).

(** The value of a variable where the program uses it.  A variable
    with an unset byte may be carried along; what the program does
    once it uses it depends on what the memory held ([Fault]). *)
Definition defined {S} (v : option Z) : M S Z :=
  match v with
  | Some z => ret z
  | None => fault
  end.

(** The name stored in a metadata region, as the source reads it:
    [char len; read(&len, 1); name = malloc(len + 1); read(name, len);
    name[len] = 0].  A length byte above 127 is a negative [char].  The
    result is the bytes the engine stored at the start of [name] and the
    number of bytes before [name[len]] that it left unset. *)
Definition read_name (fuel : nat) : M storage (list byte * nat) :=
  let* len := read_scalar fuel 1 None in
  let* len := defined len in
  if 128 <=? len then fault else
  let* r := storage_read_in_region fuel len in
  if (Z.to_nat len <? length r.2)%nat then fault
  else ret (r.2, (Z.to_nat len - length r.2)%nat).

(** [strcmp(name, target) == 0] for a buffer [name] that holds the
    bytes [known], then [unset] bytes that were never written, then a
    NUL.  The comparison goes from left to right and stops at the first
    difference or at the end of a string; it has a definite result
    ([Some]) unless it reaches an unset byte. *)
Definition ends (target : list byte) : bool :=
  match cstr target with
  | [] => true
  | _ => false
  end.

Fixpoint strcmp_unset (known : list byte) (unset : nat) (target : list byte)
  : option bool :=
  match known with
  | [] =>
      match unset with
      | O => Some (ends target)
      | Datatypes.S _ => None
      end
  | b :: known' =>
      if Byte.eqb b x00 then Some (ends target)
      else match target with
           | c :: target' =>
               if Byte.eqb b c then strcmp_unset known' unset target'
               else Some false
           | [] => Some false
           end
  end.

Definition same_name {S} (name : list byte * nat) (target : list byte)
  : M S bool :=
  match strcmp_unset name.1 name.2 target with
  | Some same => ret same
  | None => fault
  end.

(** ** Path navigation *)

(** The inner loop of [navigate_to_virtual_directory]: look for the
    directory [directory_name] among the entries of the current region. *)
Definition enter_directory (fuel : nat) (directory_region : Z)
  (directory_name : list byte) : M storage (option Z) :=
  iter fuel (λ _ : unit,
    let* entry_type := read_scalar fuel 1 (Some 0) in
    let* entry_type := defined entry_type in
    if entry_type =? NULL_ENTRY then break None
    else if negb (entry_type =? DIRECTORY_ENTRY) then
      storage_seek_in_region fuel (2 * 2);;
      continue tt
    else
      let* metadata_region := read_scalar fuel 2 None in
      let* content_region := read_scalar fuel 2 None in
      let* next_entry_position := storage_seek_in_region fuel 0 in
      let* metadata_region := defined metadata_region in
      storage_jump_to_region metadata_region;;
      let* entry_name := read_name fuel in
      let* same := same_name entry_name directory_name in
      if same then
        let* content_region := defined content_region in
        storage_jump_to_region content_region;;
        break (Some content_region)
      else
        storage_jump_to_region directory_region;;
        storage_seek_in_region fuel (to_off_t next_entry_position);;
        continue tt) tt.

(** The [for] loop over the characters of the path; [name] holds the
    characters after the last slash seen, [path] the ones still to
    visit. *)
Fixpoint navigate_from (fuel : nat) (path name : list byte)
  (directory_region : Z) : M storage directory_navigation_result :=
  match path with
  | [] => ret {| remainder_path := Some name;
                 directory_region := directory_region |}
  | c :: rest =>
      if Byte.eqb c "/"%byte then
        let* found := enter_directory fuel directory_region name in
        match found with
        | None => ret {| remainder_path := None;
                         directory_region := INVALID_REGION |}
        | Some content_region => navigate_from fuel rest [] content_region
        end
      else navigate_from fuel rest (name ++ [c]) directory_region
  end.

Definition ensure_initialized : M storage unit :=
  let* init := storage_initialized in
  if negb init then storage_initialize;; ret tt else ret tt.

Definition navigate_to_virtual_directory (fuel : nat) (path : list byte)
  : M storage directory_navigation_result :=
  ensure_initialized;;
  storage_jump_to_region root_directory_region_;;
  navigate_from fuel (cstr path) [] root_directory_region_.

Definition invalid_file : virtual_file :=
  {| content_region := INVALID_REGION; metadata_region := INVALID_REGION;
     file_length := 0; reader_position := 0 |}.

(** [free(NULL)] aside, the name is only used after a successful
    navigation. *)
Definition remainder_of (r : directory_navigation_result) : list byte :=
  match remainder_path r with Some n => n | None => [] end.

Definition find_virtual_file (fuel : nat) (file_path : list byte)
  : M storage virtual_file :=
  let* navigation_result := navigate_to_virtual_directory fuel file_path in
  if directory_region navigation_result =? INVALID_REGION then ret invalid_file
  else
  iter fuel (λ _ : unit,
    let* entry_type := read_scalar fuel 1 (Some 0) in
    let* entry_type := defined entry_type in
    if entry_type =? NULL_ENTRY then break invalid_file
    else if negb (entry_type =? FILE_ENTRY) then
      storage_seek_in_region fuel (2 * 2);;
      continue tt
    else
      let* metadata_region := read_scalar fuel 2 None in
      let* content_region := read_scalar fuel 2 None in
      let* next_entry_position := storage_seek_in_region fuel 0 in
      let* metadata_region := defined metadata_region in
      storage_jump_to_region metadata_region;;
      let* file_length := read_scalar fuel 8 None in
      let* file_name := read_name fuel in
      let* same := same_name file_name (remainder_of navigation_result) in
      if same then
        let* content_region := defined content_region in
        let* file_length := defined file_length in
        break {| content_region := content_region;
                 metadata_region := metadata_region;
                 file_length := file_length; reader_position := 0 |}
      else
        storage_jump_to_region (directory_region navigation_result);;
        storage_seek_in_region fuel (to_off_t next_entry_position);;
        continue tt) tt.

(** The loop shared by [create_virtual_file] and [mkdir_virtual]: stop
    after reading the type of the first free entry. *)
Definition find_available_entry (fuel : nat) : M storage unit :=
  iter fuel (λ _ : unit,
    let* entry_type := read_scalar fuel 1 None in
    let* entry_type := defined entry_type in
    if (to_char entry_type =? NULL_ENTRY) || (to_char entry_type =? UNUSED_ENTRY)
    then break tt
    else storage_seek_in_region fuel (2 + 2);; continue tt) tt.

(** [char remainder_path_length = strlen(remainder_path)], and the
    count it converts to when passed as [size_t]. *)
Definition remainder_path_length (name : list byte) : Z :=
  to_char (Z.of_nat (length name)).

Definition create_virtual_file (fuel : nat) (file_path : list byte)
  : M storage virtual_file :=
  let* navigation_result := navigate_to_virtual_directory fuel file_path in
  if directory_region navigation_result =? INVALID_REGION then ret invalid_file
  else
  let* content_region := storage_allocate_region in
  if content_region =? INVALID_REGION then ret invalid_file else
  let* metadata_region := storage_allocate_region in
  if metadata_region =? INVALID_REGION then
    storage_free_region fuel content_region;;
    ret invalid_file
  else
  storage_jump_to_region (directory_region navigation_result);;
  find_available_entry fuel;;
  storage_seek_in_region fuel (to_off_t (to_size_t (- 1)));;
  storage_write_in_region fuel (le_encode 4 FILE_ENTRY) 1;;
  storage_write_in_region fuel (le_encode 2 metadata_region) 2;;
  storage_write_in_region fuel (le_encode 2 content_region) 2;;
  storage_jump_to_region metadata_region;;
  let name := remainder_of navigation_result in
  storage_write_in_region fuel (le_encode 8 0) 8;;
  storage_write_in_region fuel (le_encode 1 (remainder_path_length name)) 1;;
  storage_write_in_region fuel (name ++ [x00])
    (to_size_t (remainder_path_length name));;
  ret {| content_region := content_region; metadata_region := metadata_region;
         file_length := 0; reader_position := 0 |}.

(** The body of [mkdir_virtual] after [invalidate_last_descriptor]. *)
Definition mkdir_storage (fuel : nat) (directory_path : list byte)
  : M storage Z :=
  let* navigation_result := navigate_to_virtual_directory fuel directory_path in
  if directory_region navigation_result =? INVALID_REGION then ret (-1) else
  let* content_region := storage_allocate_region in
  if content_region =? INVALID_REGION then ret (-1) else
  let* metadata_region := storage_allocate_region in
  if metadata_region =? INVALID_REGION then
    storage_free_region fuel content_region;;
    ret (-1)
  else
  storage_jump_to_region (directory_region navigation_result);;
  find_available_entry fuel;;
  storage_seek_in_region fuel (to_off_t (to_size_t (- 1)));;
  storage_write_in_region fuel (le_encode 4 DIRECTORY_ENTRY) 1;;
  storage_write_in_region fuel (le_encode 2 metadata_region) 2;;
  storage_write_in_region fuel (le_encode 2 content_region) 2;;
  storage_jump_to_region metadata_region;;
  let name := remainder_of navigation_result in
  storage_write_in_region fuel (le_encode 1 (remainder_path_length name)) 1;;
  storage_write_in_region fuel (name ++ [x00])
    (to_size_t (remainder_path_length name));;
  ret 0.

(** The check of [rmdir_virtual] that the directory in the current
    region has no live entry. *)
Definition directory_is_empty (fuel : nat) : M storage bool :=
  iter fuel (λ _ : unit,
    let* entry_type := read_scalar fuel 1 (Some 0) in
    let* entry_type := defined entry_type in
    if entry_type =? NULL_ENTRY then break true
    else if entry_type =? UNUSED_ENTRY then
      storage_seek_in_region fuel (2 * 2);;
      continue tt
    else break false) tt.

(** The body of [rmdir_virtual] after [invalidate_last_descriptor]. *)
Definition rmdir_storage (fuel : nat) (directory_path : list byte)
  : M storage Z :=
  let* navigation_result := navigate_to_virtual_directory fuel directory_path in
  if directory_region navigation_result =? INVALID_REGION then ret (-1) else
  iter fuel (λ _ : unit,
    let* entry_position := storage_seek_in_region fuel 0 in
    let* entry_type := read_scalar fuel 1 (Some 0) in
    let* entry_type := defined entry_type in
    if entry_type =? NULL_ENTRY then break (-1)
    else if negb (entry_type =? DIRECTORY_ENTRY) then
      storage_seek_in_region fuel (2 * 2);;
      continue tt
    else
      let* metadata_region := read_scalar fuel 2 None in
      let* content_region := read_scalar fuel 2 None in
      let* next_entry_position := storage_seek_in_region fuel 0 in
      let* metadata_region := defined metadata_region in
      storage_jump_to_region metadata_region;;
      let* directory_name := read_name fuel in
      let* same := same_name directory_name (remainder_of navigation_result) in
      if same then
        let* content_region := defined content_region in
        storage_jump_to_region content_region;;
        let* empty := directory_is_empty fuel in
        if negb empty then break (-1) else
        storage_jump_to_region root_directory_region_;;
        storage_seek_in_region fuel (to_off_t entry_position);;
        storage_write_in_region fuel (le_encode 4 UNUSED_ENTRY) 1;;
        storage_free_region fuel content_region;;
        storage_free_region fuel metadata_region;;
        break 0
      else
        storage_jump_to_region (directory_region navigation_result);;
        storage_seek_in_region fuel (to_off_t next_entry_position);;
        continue tt) tt.

(** The body of [unlink_virtual] after [invalidate_last_descriptor]. *)
Definition unlink_storage (fuel : nat) (file_path : list byte)
  : M storage Z :=
  let* navigation_result := navigate_to_virtual_directory fuel file_path in
  if directory_region navigation_result =? INVALID_REGION then ret (-1) else
  iter fuel (λ _ : unit,
    let* entry_position := storage_seek_in_region fuel 0 in
    let* entry_type := read_scalar fuel 1 (Some 0) in
    let* entry_type := defined entry_type in
    if entry_type =? NULL_ENTRY then break (-1)
    else if negb (entry_type =? FILE_ENTRY) then
      storage_seek_in_region fuel (2 * 2);;
      continue tt
    else
      let* metadata_region := read_scalar fuel 2 None in
      let* content_region := read_scalar fuel 2 None in
      let* next_entry_position := storage_seek_in_region fuel 0 in
      let* metadata_region := defined metadata_region in
      storage_jump_to_region metadata_region;;
      let* file_length := read_scalar fuel 8 None in
      let* file_name := read_name fuel in
      let* same := same_name file_name (remainder_of navigation_result) in
      if same then
        storage_jump_to_region (directory_region navigation_result);;
        storage_seek_in_region fuel (to_off_t entry_position);;
        storage_write_in_region fuel (le_encode 4 UNUSED_ENTRY) 1;;
        let* content_region := defined content_region in
        storage_free_region fuel content_region;;
        storage_free_region fuel metadata_region;;
        break 0
      else
        storage_jump_to_region (directory_region navigation_result);;
        storage_seek_in_region fuel (to_off_t next_entry_position);;
        continue tt) tt.

(** ** The descriptor table *)

(** [descriptors_[fd]] after the range check every public function
    makes: [None] when the check fails or the slot holds [NULL]. *)
Definition descriptor (fd : Z) (ds : list (option virtual_file))
  : option virtual_file :=
  if (fd <? 0) || (MAX_DESCRIPTORS <=? fd) then None
  else match ds !! Z.to_nat fd with
       | Some slot => slot
       | None => None
       end.

(** The scan of [open_virtual] for the first [NULL] slot; [n] slots
    remain from index [i] on.  The result is -1 when there is none. *)
Definition is_null (slot : option (option virtual_file)) : bool :=
  match slot with
  | Some None => true
  | _ => false
  end.

Fixpoint first_available (n : nat) (i : Z) (ds : list (option virtual_file))
  : Z :=
  match n with
  | O => -1
  | Datatypes.S n' =>
      if is_null (ds !! Z.to_nat i) then i
      else first_available n' (i + 1) ds
  end.

(** [descriptors_[fd]->...]: dereferencing [NULL] is undefined. *)
Definition deref (fd : Z) : M fs virtual_file := λ s,
  match descriptor fd (descriptors_ s) with
  | Some f => Done f s
  | None => Fault
  end.

Definition store (fd : Z) (f : option virtual_file) : M fs unit :=
  modify (λ s, set_descriptors_ (<[Z.to_nat fd := f]> (descriptors_ s)) s).

Definition invalidate_last_descriptor : M fs unit :=
  modify (set_last_used_descriptor_ (-1)).

Definition update_virtual_file_metadata (fuel : nat)
  (metadata_region file_size : Z) : M fs unit :=
  lift (storage_jump_to_region metadata_region);;
  lift (storage_write_in_region fuel (le_encode 8 file_size) 8);;
  invalidate_last_descriptor.

Definition jump_to_file_if_needed (fuel : nat) (file_descriptor : Z)
  : M fs unit :=
  let* last := gets last_used_descriptor_ in
  if last =? file_descriptor then ret tt else
  let* f := deref file_descriptor in
  lift (storage_jump_to_region (content_region f));;
  lift (storage_seek_in_region fuel (to_off_t (reader_position f)));;
  modify (set_last_used_descriptor_ file_descriptor).

(** ** The public operations *)

Definition open_virtual (fuel : nat) (path : list byte) (flags : Z)
  : M fs Z :=
  lift ensure_initialized;;
  let* ds := gets descriptors_ in
  let first_available_descriptor :=
    first_available (Z.to_nat MAX_DESCRIPTORS) 0 ds in
  if first_available_descriptor =? -1 then ret (-1) else
  invalidate_last_descriptor;;
  let* file := lift (find_virtual_file fuel path) in
  let* opened :=
    (if content_region file =? INVALID_REGION then
       if Z.land flags O_CREAT =? 0 then ret None
       else
         let* file := lift (create_virtual_file fuel path) in
         if content_region file =? INVALID_REGION then ret None
         else ret (Some file)
     else if negb (Z.land flags O_EXCL =? 0) then ret None
     else ret (Some file)) in
  match opened with
  | None => ret (-1)
  | Some file =>
      store first_available_descriptor (Some file);;
      (* from here on the source changes its local [file] only *)
      let* file :=
        (if negb (Z.land flags O_TRUNC =? 0) then
           lift (storage_free_region fuel (content_region file));;
           let* region := lift storage_allocate_region in
           ret (set_file_length 0 (set_content_region region file))
         else ret file) in
      let file :=
        if negb (Z.land flags O_APPEND =? 0)
        then set_reader_position (file_length file) file
        else file in
      ret first_available_descriptor
  end.

Definition close_virtual (file_descriptor : Z) : M fs unit :=
  let* ds := gets descriptors_ in
  match descriptor file_descriptor ds with
  | None => ret tt
  | Some _ => store file_descriptor None
  end.

Definition mkdir_virtual (fuel : nat) (directory_path : list byte) : M fs Z :=
  invalidate_last_descriptor;;
  lift (mkdir_storage fuel directory_path).

Definition rmdir_virtual (fuel : nat) (directory_path : list byte) : M fs Z :=
  invalidate_last_descriptor;;
  lift (rmdir_storage fuel directory_path).

Definition unlink_virtual (fuel : nat) (file_path : list byte) : M fs Z :=
  invalidate_last_descriptor;;
  lift (unlink_storage fuel file_path).

(** Returns the value of the C function and the bytes stored at the
    start of [buffer], a buffer of [n_bytes] bytes. *)
Definition read_virtual (fuel : nat) (file_descriptor : Z) (n_bytes : Z)
  : M fs (Z * list byte) :=
  let* ds := gets descriptors_ in
  match descriptor file_descriptor ds with
  | None => ret (0, [])
  | Some _ =>
      jump_to_file_if_needed fuel file_descriptor;;
      let* f := deref file_descriptor in
      let bytes_to_read :=
        if file_length f <? to_size_t (reader_position f + n_bytes)
        then to_size_t (file_length f - reader_position f)
        else n_bytes in
      let* r := lift (storage_read_in_region fuel bytes_to_read) in
      if (Z.to_nat n_bytes <? length r.2)%nat then fault else
      store file_descriptor
        (Some (set_reader_position
                 (to_size_t (reader_position f + bytes_to_read)) f));;
      ret (to_off_t bytes_to_read, r.2)
  end.

Definition write_virtual (fuel : nat) (file_descriptor : Z)
  (buffer : list byte) (n_bytes : Z) : M fs Z :=
  let* ds := gets descriptors_ in
  match descriptor file_descriptor ds with
  | None => ret 0
  | Some _ =>
      jump_to_file_if_needed fuel file_descriptor;;
      lift (storage_write_in_region fuel buffer n_bytes);;
      let* f := deref file_descriptor in
      let f := set_reader_position (to_size_t (reader_position f + n_bytes)) f in
      store file_descriptor (Some f);;
      (if file_length f <=? reader_position f then
         let f := set_file_length (to_size_t (reader_position f + 1)) f in
         store file_descriptor (Some f);;
         update_virtual_file_metadata fuel (metadata_region f) (file_length f)
       else ret tt);;
      ret (to_off_t n_bytes)
  end.

Definition seek_virtual (file_descriptor : Z) (offset : Z) (whence : Z)
  : M fs Z :=
  let* ds := gets descriptors_ in
  match descriptor file_descriptor ds with
  | None => ret (-1)
  | Some f =>
      let moved :=
        if whence =? SEEK_SET then Some offset
        else if whence =? SEEK_CUR
        then Some (to_off_t (to_size_t (reader_position f + offset)))
        else if whence =? SEEK_END
        then Some (to_off_t (to_size_t (file_length f + offset)))
        else None in
      match moved with
      | None => ret (to_off_t (reader_position f))
      | Some new_position =>
          let new_position :=
            if new_position <? 0 then 0
            else if file_length f <? to_size_t new_position
            then to_off_t (file_length f)
            else new_position in
          store file_descriptor
            (Some (set_reader_position (to_size_t new_position) f));;
          let* f := deref file_descriptor in
          ret (to_off_t (reader_position f))
      end
  end.

End FileSystem.

Import Storage FileSystem.

(** * Vocabulary of the properties *)

(** The base of a seek: 0 for [SEEK_SET], the cursor for [SEEK_CUR],
    the length for [SEEK_END]. *)
Definition seek_base (whence : Z) (f : virtual_file) : Z :=
  if whence =? SEEK_SET then 0
  else if whence =? SEEK_CUR then reader_position f
  else file_length f.






(** ** Runs on concrete inputs *)

Definition value_of {S A} (o : outcome S A) : option A :=
  match o with
  | Done a _ => Some a
  | _ => None
  end.

(** The state a computation leaves ([s] itself if it does not finish). *)
Definition after {S A} (m : M S A) (s : S) : S :=
  match m s with
  | Done _ s' => s'
  | _ => s
  end.

Definition path_of (s : string) : list byte := list_byte_of_string s.

(** A process on a host without [./virtualStorage]. *)
Definition fresh : fs := FileSystem.initial None.

(** The lookup [open_virtual] makes for its path. *)
Definition lookup_file (fuel : nat) (path : list byte) : M storage virtual_file :=
  ensure_initialized;; find_virtual_file fuel path.

(** The first [n] bytes of a region. *)
Definition peek (fuel : nat) (region n : Z) : M fs (list byte) :=
  lift (storage_jump_to_region region;;
        let* r := storage_read_in_region fuel n in
        ret r.2).

(** The header of a block, as [jump_to_block] loads it. *)
Definition header_of (block : Z) : M fs block_info :=
  lift (jump_to_block block;; gets current_block_).

(** [f] exists, holds "hello", and no descriptor is open. *)
Definition with_hello : fs :=
  after (let* fd := open_virtual 200 (path_of "f") O_CREAT in
         write_virtual 200 fd (path_of "hello") 5;;
         close_virtual fd) fresh.

(** [f] exists with its content in region 4, and the blocks 1 to 3,
    once those of a file [g], are free again. *)
Definition with_hole : fs :=
  after (let* g := open_virtual 200 (path_of "g") O_CREAT in
         let* f := open_virtual 200 (path_of "f") O_CREAT in
         write_virtual 200 f (path_of "hello") 5;;
         close_virtual g;;
         close_virtual f;;
         unlink_virtual 200 (path_of "g")) fresh.

(** An empty file [f] is open as descriptor 0 on a fresh storage. *)
Definition with_empty_file : fs :=
  after (open_virtual 200 (path_of "f") O_CREAT) fresh.


(** The directory [A] holds the empty directory [B]. *)
Definition with_nested_directory : fs :=
  after (mkdir_virtual 200 (path_of "A");;
         mkdir_virtual 200 (path_of "A/B")) fresh.

(** ** The claims that fail, as propositions *)

(** C6 as claimed: without [O_CREAT], [O_EXCL] is ignored, so opening an
    existing file succeeds when a slot is free. *)
Definition exclusive_ignored_without_create : Prop :=
  ∀ fuel path flags s file e,
    Z.land flags O_EXCL ≠ 0 →
    Z.land flags O_CREAT = 0 →
    first_available (Z.to_nat MAX_DESCRIPTORS) 0 (descriptors_ s) ≠ -1 →
    lookup_file fuel path (engine s) = Done file e →
    content_region file ≠ INVALID_REGION →
    ∃ fd s', open_virtual fuel path flags s = Done fd s' ∧ 0 ≤ fd.

(** C7 as claimed: every seek on an open descriptor, with [whence]
    among [SEEK_SET], [SEEK_CUR] and [SEEK_END], returns [base + offset]
    clamped to [0, length].  The cursor and the length are [size_t]
    values, the offset is an [off_t]. *)
Definition seek_clamps_every_sum : Prop :=
  ∀ fd offset whence s f,
    descriptor fd (descriptors_ s) = Some f →
    whence = SEEK_SET ∨ whence = SEEK_CUR ∨ whence = SEEK_END →
    0 ≤ reader_position f ≤ file_length f →
    file_length f < 2 ^ 64 →
    - 2 ^ 63 ≤ offset < 2 ^ 63 →
    value_of (seek_virtual fd offset whence s)
    = Some (Z.max 0 (Z.min (file_length f) (seek_base whence f + offset))).


(** ** The backing file as bytes *)

(** The [n] bytes of [f] from offset [off] on, and [f] with [data]
    written over the bytes at [off]. *)
Definition bytes_at (f : list byte) (off n : Z) : list byte :=
  take (Z.to_nat n) (drop (Z.to_nat off) f).

Definition patch (f : list byte) (off : Z) (data : list byte) : list byte :=
  list_inserts (Z.to_nat off) data f.

(** The header of block [block] of [f], decoded as [read_block_header]
    decodes it. *)
Definition header_at (f : list byte) (size block : Z) : block_info :=
  {| in_use := le_decode (bytes_at f (block_offset size block) 1);
     previous_block := le_decode (bytes_at f (block_offset size block + 1) 2);
     next_block := le_decode (bytes_at f (block_offset size block + 3) 2) |}.

(** A backing file [f] that has the [count] blocks of [size] bytes its
    header announces, with offsets that fit an [int]. *)
Record geometry (size count : Z) (f : list byte) : Prop := {
  geometry_size : 0 ≤ size < 65536;
  geometry_count : 0 ≤ count < 65536;
  geometry_length : Z.of_nat (length f) = block_offset size count;
  geometry_int : block_offset size count ≤ INT_MAX
}.

(** The engine right after [jump_to_block block] on the file [f]. *)
Definition jumped (s : storage) (f : list byte) (block : Z) : storage :=
  {| host_file := Some f;
     host_offset := block_offset (active_block_size_ s) block + BLOCK_HEADER_SIZE;
     storage_file_ := storage_file_ s;
     active_block_size_ := active_block_size_ s;
     active_block_count_ := active_block_count_ s;
     current_block_index_ := block;
     current_block_position_ := 0;
     current_region_position_ := current_region_position_ s;
     current_block_ := header_at f (active_block_size_ s) block |}.

(** The header [allocate_block] writes. *)
Definition allocated_header (previous_block : Z) : list byte :=
  [BLOCK_IN_USE_INDICATOR] ++ le_encode 2 previous_block
  ++ le_encode 2 INVALID_BLOCK.

(** The engine right after [allocate_block previous_block] took the
    block [block] of the file [f]: the header is rewritten, the cached
    header is the one read before. *)
Definition allocated (s : storage) (f : list byte) (block previous_block : Z)
  : storage :=
  {| host_file :=
       Some (patch f (block_offset (active_block_size_ s) block)
               (allocated_header previous_block));
     host_offset := block_offset (active_block_size_ s) block + BLOCK_HEADER_SIZE;
     storage_file_ := storage_file_ s;
     active_block_size_ := active_block_size_ s;
     active_block_count_ := active_block_count_ s;
     current_block_index_ := block;
     current_block_position_ := 0;
     current_region_position_ := current_region_position_ s;
     current_block_ := header_at f (active_block_size_ s) block |}.

(** The engine of a process right after it formatted and opened a new
    backing file. *)
Definition formatted_engine : storage :=
  after ensure_initialized (Storage.initial None).

(** The bytes of a freshly formatted backing file. *)
Definition formatted_file : list byte :=
  match host_file formatted_engine with
  | Some f => f
  | None => []
  end.




(** ** The engine on a freshly formatted geometry *)

(** Offset of the payload of a block of [DEFAULT_BLOCK_SIZE] bytes. *)
Definition payload_offset (block : Z) : Z :=
  block_offset DEFAULT_BLOCK_SIZE block + BLOCK_HEADER_SIZE.

Definition next_of (f : list byte) (block : Z) : Z :=
  next_block (header_at f DEFAULT_BLOCK_SIZE block).

(** The initialised engine, with the default geometry, positioned at
    byte [pos] of the payload of [block], [rpos] bytes into the region,
    with the header of [block] in its cache. *)
Definition at_cursor (fd : Z) (f : list byte) (block pos rpos : Z) : storage :=
  {| host_file := Some f;
     host_offset := payload_offset block + pos;
     storage_file_ := fd;
     active_block_size_ := DEFAULT_BLOCK_SIZE;
     active_block_count_ := DEFAULT_BLOCK_COUNT;
     current_block_index_ := block;
     current_block_position_ := pos;
     current_region_position_ := rpos;
     current_block_ := header_at f DEFAULT_BLOCK_SIZE block |}.

(** An initialised engine with the default geometry on a backing file
    of the right length. *)
Record mounted (s : storage) (f : list byte) : Prop := {
  mounted_file : host_file s = Some f;
  mounted_open : storage_file_ s ≠ -1;
  mounted_size : active_block_size_ s = DEFAULT_BLOCK_SIZE;
  mounted_count : active_block_count_ s = DEFAULT_BLOCK_COUNT;
  mounted_length :
    Z.of_nat (length f) = block_offset DEFAULT_BLOCK_SIZE DEFAULT_BLOCK_COUNT
}.

(** The blocks below [a] are in use (flag byte 1), the blocks from [a]
    on are free (flag byte 0): the allocator hands out [a], then
    [a + 1], and so on. *)
Definition frontier (f : list byte) (a : Z) : Prop :=
  (∀ j, 0 ≤ j < a → in_use (header_at f DEFAULT_BLOCK_SIZE j) = 1) ∧
  (∀ j, a ≤ j < DEFAULT_BLOCK_COUNT →
        in_use (header_at f DEFAULT_BLOCK_SIZE j) = 0).

(** The backing file after [storage_write_in_region] wrote [data] from
    byte [pos] of the payload of [block], when [block] is the last block
    of its region and the free blocks start at [a]; [k] bounds the
    number of blocks the write appends.  Each appended block is the
    first free one: its header is rewritten, then the [next] field of
    the block before it. *)
Fixpoint written (k : nat) (f : list byte) (block pos a : Z)
  (data : list byte) : list byte :=
  if pos + Z.of_nat (length data) <? DEFAULT_BLOCK_SIZE
  then patch f (payload_offset block + pos) data
  else
    match k with
    | O => f
    | Datatypes.S k' =>
        written k'
          (patch
             (patch
                (patch f (payload_offset block + pos)
                   (bytes_at data 0 (DEFAULT_BLOCK_SIZE - pos)))
                (block_offset DEFAULT_BLOCK_SIZE a) (allocated_header block))
             (block_offset DEFAULT_BLOCK_SIZE block + 3) (le_encode 2 a))
          a 0 (a + 1)
          (bytes_at data (DEFAULT_BLOCK_SIZE - pos)
             (Z.of_nat (length data) - (DEFAULT_BLOCK_SIZE - pos)))
    end.

(** The region holds [data] from byte [pos] of the payload of [block]
    on, in [block] and then in the blocks its [next] fields lead to,
    all of them at or above [lo]. *)
Inductive holds (f : list byte) (lo : Z) : Z → Z → list byte → Prop :=
| holds_here block pos data :
    pos + Z.of_nat (length data) < DEFAULT_BLOCK_SIZE →
    bytes_at f (payload_offset block + pos) (Z.of_nat (length data)) = data →
    holds f lo block pos data
| holds_next block pos data :
    DEFAULT_BLOCK_SIZE ≤ pos + Z.of_nat (length data) →
    bytes_at f (payload_offset block + pos) (DEFAULT_BLOCK_SIZE - pos)
    = bytes_at data 0 (DEFAULT_BLOCK_SIZE - pos) →
    lo ≤ next_of f block < DEFAULT_BLOCK_COUNT →
    holds f lo (next_of f block) 0
      (bytes_at data (DEFAULT_BLOCK_SIZE - pos)
         (Z.of_nat (length data) - (DEFAULT_BLOCK_SIZE - pos))) →
    holds f lo block pos data.

(** What a write that starts at byte [pos] of [block], with the free
    blocks starting at [a], can be asked to do. *)
Definition writable (k : nat) (f : list byte) (block pos a : Z)
  (data : list byte) : Prop :=
  Z.of_nat (length f) = block_offset DEFAULT_BLOCK_SIZE DEFAULT_BLOCK_COUNT ∧
  0 ≤ block < a ∧ a ≤ DEFAULT_BLOCK_COUNT ∧
  0 ≤ pos < DEFAULT_BLOCK_SIZE ∧
  pos + Z.of_nat (length data) < DEFAULT_BLOCK_SIZE * (Z.of_nat k + 1) ∧
  a + (pos + Z.of_nat (length data)) / DEFAULT_BLOCK_SIZE ≤ DEFAULT_BLOCK_COUNT.

(** ** Creating a file on a fresh storage *)

(** A path that is one name: no slash, and no NUL before its end. *)
Definition single_component (path : list byte) : Prop :=
  Forall (λ c, c ≠ "/"%byte ∧ c ≠ x00) path.

(** The blocks below [a] are in use (flag byte 1), the others are free
    (flag byte 0), and the region that starts in block [region] ends
    there. *)
Record one_block_region (f : list byte) (a region : Z) : Prop := {
  region_length :
    Z.of_nat (length f) = block_offset DEFAULT_BLOCK_SIZE DEFAULT_BLOCK_COUNT;
  region_frontier : frontier f a;
  region_block : 0 ≤ region < a;
  region_last : next_of f region = INVALID_BLOCK
}.

(** [frontier], as a test. *)
Definition frontierb (f : list byte) (a : Z) : bool :=
  forallb (λ j, in_use (header_at f DEFAULT_BLOCK_SIZE (Z.of_nat j)) =? 1)
    (seq 0 (Z.to_nat a))
  && forallb (λ j, in_use (header_at f DEFAULT_BLOCK_SIZE (Z.of_nat j)) =? 0)
       (seq (Z.to_nat a) (Z.to_nat (DEFAULT_BLOCK_COUNT - a))).

(** ** The round trip *)

(** Create [path] on a fresh storage, write [data], seek back to the
    start and read as many bytes as were written: the value
    [read_virtual] returns and the bytes it stores in the buffer. *)
Definition round_trip (fuel : nat) (path data : list byte)
  : M fs (Z * list byte) :=
  let* fd := open_virtual fuel path O_CREAT in
  write_virtual fuel fd data (Z.of_nat (length data));;
  seek_virtual fd 0 SEEK_SET;;
  read_virtual fuel fd (Z.of_nat (length data)).

(** C3 as claimed: under whatever name the file was created, data of
    at most 0.9 * block size * block count bytes come back. *)
Definition round_trip_claim : Prop :=
  ∀ fuel path data fd s,
    (1152 < fuel)%nat →
    open_virtual fuel path O_CREAT fresh = Done fd s → 0 ≤ fd →
    10 * Z.of_nat (length data)
    ≤ 9 * (DEFAULT_BLOCK_SIZE * DEFAULT_BLOCK_COUNT) →
    value_of (round_trip fuel path data fresh)
    = Some (Z.of_nat (length data), data).

(** A name of 101 bytes, and 1152 bytes of data. *)
Definition long_name : list byte := replicate 101 "a"%byte.
Definition full_data : list byte := replicate 1152 "x"%byte.

(** ** States for further runs *)

(** The file [f] of [with_hello], open under all 256 descriptors. *)
Definition with_full_table : fs :=
  set_descriptors_
    (replicate (Z.to_nat MAX_DESCRIPTORS)
       (Some {| content_region := 1; metadata_region := 2;
                file_length := 6; reader_position := 0 |}))
    with_hello.

(** The file [f] of [with_hello], open as descriptor 0, after two of
    its bytes were read. *)
Definition with_hello_read : fs :=
  after (let* fd := open_virtual 200 (path_of "f") 0 in
         read_virtual 200 fd 2) with_hello.

(** The count [read_virtual] passes to the engine: [n_bytes], clamped
    to what the file has after the cursor. *)
Definition bytes_to_read (f : virtual_file) (n_bytes : Z) : Z :=
  if file_length f <? to_size_t (reader_position f + n_bytes)
  then to_size_t (file_length f - reader_position f)
  else n_bytes.

(** ** Regions as chains of blocks *)

(** The header [storage_free_region] writes. *)
Definition freed_header : list byte :=
  [BLOCK_NOT_IN_USE_INDICATOR] ++ le_encode 2 INVALID_BLOCK
  ++ le_encode 2 INVALID_BLOCK.

(** [chain f size count block blocks]: following the [next] fields of
    the headers in [f] from [block] on visits [blocks], all of them
    blocks the file has, and ends with [INVALID_BLOCK]. *)
Inductive chain (f : list byte) (size count : Z) : Z → list Z → Prop :=
| chain_end : chain f size count INVALID_BLOCK []
| chain_link block blocks :
    0 ≤ block < count →
    chain f size count (next_block (header_at f size block)) blocks →
    chain f size count block (block :: blocks).

(** The file after the headers of [blocks] were overwritten with
    [freed_header], one after the other. *)
Definition release (size : Z) (f : list byte) (blocks : list Z) : list byte :=
  foldl (λ f block, patch f (block_offset size block) freed_header) f blocks.

(** The backing file of [with_hello]. *)
Definition hello_file : list byte :=
  match host_file (engine with_hello) with
  | Some f => f
  | None => []
  end.

(** The backing file of [with_empty_file]. *)
Definition empty_file_bytes : list byte :=
  match host_file (engine with_empty_file) with
  | Some f => f
  | None => []
  end.

(** ** Files as the directory lists them *)

(** [spans f lo hi block pos data]: as [holds], with the blocks that
    follow the first one at or above [lo] and below [hi]. *)
Inductive spans (f : list byte) (lo hi : Z) : Z → Z → list byte → Prop :=
| spans_here block pos data :
    pos + Z.of_nat (length data) < DEFAULT_BLOCK_SIZE →
    bytes_at f (payload_offset block + pos) (Z.of_nat (length data)) = data →
    spans f lo hi block pos data
| spans_next block pos data :
    DEFAULT_BLOCK_SIZE ≤ pos + Z.of_nat (length data) →
    bytes_at f (payload_offset block + pos) (DEFAULT_BLOCK_SIZE - pos)
    = bytes_at data 0 (DEFAULT_BLOCK_SIZE - pos) →
    lo ≤ next_of f block < hi →
    spans f lo hi (next_of f block) 0
      (bytes_at data (DEFAULT_BLOCK_SIZE - pos)
         (Z.of_nat (length data) - (DEFAULT_BLOCK_SIZE - pos))) →
    spans f lo hi block pos data.

(** The first entry of the root directory of [f] is the file [name]:
    its type byte and its two regions are in the root's payload, and
    its metadata region holds [len], the length of the name and the
    name, the latter in blocks at or above [lo] and below [hi]. *)
Record listed (f : list byte) (lo hi : Z) (file : virtual_file)
    (name : list byte) : Prop := {
  listed_type :
    bytes_at f (payload_offset root_directory_region_) 1
    = bytes_at (le_encode 4 FILE_ENTRY) 0 1;
  listed_metadata :
    bytes_at f (payload_offset root_directory_region_ + 1) 2
    = le_encode 2 (metadata_region file);
  listed_content :
    bytes_at f (payload_offset root_directory_region_ + 3) 2
    = le_encode 2 (content_region file);
  listed_length :
    bytes_at f (payload_offset (metadata_region file)) 8
    = le_encode 8 (file_length file);
  listed_name_length :
    bytes_at f (payload_offset (metadata_region file) + 8) 1
    = le_encode 1 (Z.of_nat (length name));
  listed_name : spans f lo hi (metadata_region file) 9 name
}.

(** Create [path] on a fresh storage, write [data], close the
    descriptor, open the file again and read as many bytes as were
    written: the second descriptor, the value [read_virtual] returns
    and the bytes it stores in the buffer. *)
Definition reopened (fuel : nat) (path data : list byte)
  : M fs (Z * (Z * list byte)) :=
  let* fd := open_virtual fuel path O_CREAT in
  write_virtual fuel fd data (Z.of_nat (length data));;
  close_virtual fd;;
  let* fd' := open_virtual fuel path 0 in
  let* r := read_virtual fuel fd' (Z.of_nat (length data)) in
  ret (fd', r).

(** The first entry of the root directory of [f] is the directory
    [name]: its type byte and its two regions are in the root's
    payload, and its metadata region holds the length of the name and
    the name, the latter in blocks at or above [lo] and below [hi]. *)
Record listed_directory (f : list byte) (lo hi metadata content : Z)
    (name : list byte) : Prop := {
  directory_type :
    bytes_at f (payload_offset root_directory_region_) 1
    = bytes_at (le_encode 4 DIRECTORY_ENTRY) 0 1;
  directory_metadata :
    bytes_at f (payload_offset root_directory_region_ + 1) 2
    = le_encode 2 metadata;
  directory_content :
    bytes_at f (payload_offset root_directory_region_ + 3) 2
    = le_encode 2 content;
  directory_name_length :
    bytes_at f (payload_offset metadata) 1
    = le_encode 1 (Z.of_nat (length name));
  directory_name : spans f lo hi metadata 1 name
}.

(** * Properties *)

(** ** Reasoning about computations *)

Section Computations.
Context {S : Type}.


Lemma bind_Done {A B} (m : M S A) (k : A → M S B) s b s' :
  bind m k s = Done b s' ↔ ∃ a s1, m s = Done a s1 ∧ k a s1 = Done b s'.
Proof.
  unfold bind. split.
  - destruct (m s) as [a s1| |]; try discriminate. eauto.
  - intros (a & s1 & -> & H). exact H.
Qed.

Lemma bind_eq {A B} (m : M S A) (k : A → M S B) s a s1 :
  m s = Done a s1 → bind m k s = k a s1.
Proof. unfold bind. intros ->. reflexivity. Qed.

Lemma iter_succ {A B} fuel (body : A → M S (A + B)) a s :
  iter (Datatypes.S fuel) body a s =
  match body a s with
  | Done (inl a') s' => iter fuel body a' s'
  | Done (inr b) s' => Done b s'
  | Fault => Fault
  | Timeout => Timeout
  end.
Proof. reflexivity. Qed.


End Computations.

Tactic Notation "bind_inv" hyp(H) "as" simple_intropattern(a)
  simple_intropattern(s) simple_intropattern(H1) :=
  apply bind_Done in H as (a & s & H1 & H).


Lemma lift_Done {A} (m : M storage A) s a s' :
  lift m s = Done a s' ↔
  ∃ e, m (engine s) = Done a e ∧ s' = set_engine e s.
Proof.
  unfold lift. split.
  - destruct (m (engine s)); try discriminate. intros [= <- <-]. eauto.
  - intros (e & -> & ->). reflexivity.
Qed.

(** The fields after an update. *)
Lemma descriptors_set_engine e s :
  descriptors_ (set_engine e s) = descriptors_ s.
Proof. by destruct s. Qed.

Lemma descriptors_set_last_used d s :
  descriptors_ (set_last_used_descriptor_ d s) = descriptors_ s.
Proof. by destruct s. Qed.

Lemma descriptors_set_descriptors ds s :
  descriptors_ (set_descriptors_ ds s) = ds.
Proof. by destruct s. Qed.

Lemma engine_set_engine e s : engine (set_engine e s) = e.
Proof. by destruct s. Qed.

Lemma engine_set_last_used d s :
  engine (set_last_used_descriptor_ d s) = engine s.
Proof. by destruct s. Qed.

Lemma engine_set_descriptors ds s :
  engine (set_descriptors_ ds s) = engine s.
Proof. by destruct s. Qed.

Lemma last_used_set_engine e s :
  last_used_descriptor_ (set_engine e s) = last_used_descriptor_ s.
Proof. by destruct s. Qed.

Lemma last_used_set_last_used d s :
  last_used_descriptor_ (set_last_used_descriptor_ d s) = d.
Proof. by destruct s. Qed.

Lemma last_used_set_descriptors ds s :
  last_used_descriptor_ (set_descriptors_ ds s) = last_used_descriptor_ s.
Proof. by destruct s. Qed.

Create Rewrite HintDb fs_fields.
#[global] Hint Rewrite descriptors_set_engine descriptors_set_last_used
  descriptors_set_descriptors engine_set_engine engine_set_last_used
  engine_set_descriptors last_used_set_engine last_used_set_last_used
  last_used_set_descriptors : fs_fields.

Lemma reader_position_set_reader_position p f :
  reader_position (set_reader_position p f) = p.
Proof. by destruct f. Qed.

Lemma file_length_set_reader_position p f :
  file_length (set_reader_position p f) = file_length f.
Proof. by destruct f. Qed.

Lemma reader_position_set_file_length l f :
  reader_position (set_file_length l f) = reader_position f.
Proof. by destruct f. Qed.

Lemma file_length_set_file_length l f :
  file_length (set_file_length l f) = l.
Proof. by destruct f. Qed.

Lemma metadata_region_set_reader_position p f :
  metadata_region (set_reader_position p f) = metadata_region f.
Proof. by destruct f. Qed.

Lemma metadata_region_set_file_length l f :
  metadata_region (set_file_length l f) = metadata_region f.
Proof. by destruct f. Qed.

Lemma content_region_set_reader_position p f :
  content_region (set_reader_position p f) = content_region f.
Proof. by destruct f. Qed.

Lemma content_region_set_file_length l f :
  content_region (set_file_length l f) = content_region f.
Proof. by destruct f. Qed.

#[global] Hint Rewrite reader_position_set_reader_position
  file_length_set_reader_position reader_position_set_file_length
  file_length_set_file_length metadata_region_set_reader_position
  metadata_region_set_file_length content_region_set_reader_position
  content_region_set_file_length : fs_fields.


(** ** Failed opens (C10) *)


(** ** Machine arithmetic and the descriptor table *)

Lemma to_size_t_small z : 0 ≤ z < 2 ^ 64 → to_size_t z = z.
Proof. intros. unfold to_size_t. apply Z.mod_small. lia. Qed.

Lemma to_off_t_small z : - 2 ^ 63 ≤ z < 2 ^ 63 → to_off_t z = z.
Proof. intros. unfold to_off_t. rewrite Z.mod_small; lia. Qed.

Lemma to_off_t_to_size_t z : to_off_t (to_size_t z) = to_off_t z.
Proof.
  unfold to_off_t, to_size_t. by rewrite Zplus_mod_idemp_l.
Qed.

Lemma to_size_t_range z : 0 ≤ to_size_t z < 2 ^ 64.
Proof. unfold to_size_t. apply Z.mod_pos_bound. lia. Qed.

Lemma descriptor_Some fd ds f :
  descriptor fd ds = Some f ↔
  0 ≤ fd < MAX_DESCRIPTORS ∧ ds !! Z.to_nat fd = Some (Some f).
Proof.
  unfold descriptor.
  destruct (fd <? 0) eqn:E1; destruct (MAX_DESCRIPTORS <=? fd) eqn:E2; simpl;
    try (split; [discriminate | lia]).
  destruct (ds !! Z.to_nat fd) as [[g|]|]; split;
    try discriminate; try (intros [_ [=]]; congruence); try (intros [_ ?]; discriminate).
  intros [= ->]. split; [lia | done].
Qed.

Lemma descriptor_insert_eq fd ds f g :
  descriptor fd ds = Some f →
  descriptor fd (<[Z.to_nat fd := g]> ds) = g.
Proof.
  intros [Hr Hl]%descriptor_Some. unfold descriptor.
  destruct (fd <? 0) eqn:E1; [lia|].
  destruct (MAX_DESCRIPTORS <=? fd) eqn:E2; [lia|]. simpl.
  rewrite list_lookup_insert_eq; [done|].
  by apply lookup_lt_Some in Hl.
Qed.

Lemma deref_eq fd s f :
  descriptor fd (descriptors_ s) = Some f → deref fd s = Done f s.
Proof. unfold deref. by intros ->. Qed.

(** ** Seeking (C7) *)

(** C7, amended: for a valid descriptor and [whence] among [SEEK_SET],
    [SEEK_CUR] and [SEEK_END], whenever [base + offset] is representable
    in [off_t] (it is at least [-2^63] and below [2^63]), the new
    position is [base + offset] clamped to [0, length]; it is returned,
    and the only change of state is the cursor of that descriptor (the
    engine, and with it the physical cursor, is untouched). *)
Theorem seek_virtual_clamps fd offset whence s f :
  descriptor fd (descriptors_ s) = Some f →
  whence = SEEK_SET ∨ whence = SEEK_CUR ∨ whence = SEEK_END →
  0 ≤ reader_position f < 2 ^ 64 →
  0 ≤ file_length f < 2 ^ 64 →
  - 2 ^ 63 ≤ offset < 2 ^ 63 →
  - 2 ^ 63 ≤ seek_base whence f + offset < 2 ^ 63 →
  let new := Z.max 0 (Z.min (file_length f) (seek_base whence f + offset)) in
  seek_virtual fd offset whence s =
  Done new
    (set_descriptors_
       (<[Z.to_nat fd := Some (set_reader_position new f)]> (descriptors_ s)) s).
Proof.
  intros Hfd Hwhence Hpos Hlen Hoff Hsum new.
  unfold seek_virtual.
  rewrite (bind_eq _ _ s (descriptors_ s) s) by reflexivity.
  rewrite Hfd.
  set (moved := if whence =? SEEK_SET then _ else _).
  assert (moved = Some (seek_base whence f + offset)) as ->.
  { subst moved. unfold seek_base in *.
    destruct Hwhence as [-> | [-> | ->]]; simpl in *.
    - done.
    - rewrite to_off_t_to_size_t, to_off_t_small; [done | lia].
    - rewrite to_off_t_to_size_t, to_off_t_small; [done | lia]. }
  set (sum := seek_base whence f + offset) in *.
  set (clamped := if sum <? 0 then 0 else _).
  assert (clamped = new) as ->.
  { subst clamped new. destruct (sum <? 0) eqn:E1; [lia|].
    rewrite (to_size_t_small sum) by lia.
    destruct (file_length f <? sum) eqn:E2.
    - rewrite to_off_t_small; lia.
    - lia. }
  assert (0 ≤ new ≤ file_length f) as Hnew by (subst new; lia).
  assert (new < 2 ^ 63) as Hnew' by (subst new; lia).
  rewrite (to_size_t_small new) by lia.
  unfold store.
  erewrite bind_eq by reflexivity.
  erewrite bind_eq
    by (apply deref_eq; rewrite descriptors_set_descriptors;
        eapply descriptor_insert_eq, Hfd).
  unfold ret. rewrite reader_position_set_reader_position.
  rewrite to_off_t_small by lia. reflexivity.
Qed.

(** C7 fails as claimed: the file of descriptor 0 has length 6 and its
    cursor is 2.  [seek_virtual] with offset [2^63 - 1] and [SEEK_CUR]
    adds the two in 64 bits; the sum, read as an [off_t], is negative,
    and the call returns 0, where [base + offset] clamped to
    [0, length] is 6. *)
Lemma seek_virtual_sum_wraps :
  descriptor 0 (descriptors_ with_hello_read)
  = Some {| content_region := 1; metadata_region := 2;
            file_length := 6; reader_position := 2 |} ∧
  value_of (seek_virtual 0 (2 ^ 63 - 1) SEEK_CUR with_hello_read) = Some 0 ∧
  ¬ seek_clamps_every_sum.
Proof.
  assert (descriptor 0 (descriptors_ with_hello_read)
          = Some {| content_region := 1; metadata_region := 2;
                    file_length := 6; reader_position := 2 |}) as Hfd
    by (vm_compute; reflexivity).
  assert (value_of (seek_virtual 0 (2 ^ 63 - 1) SEEK_CUR with_hello_read)
          = Some 0) as Hrun
    by (vm_compute; reflexivity).
  split; [exact Hfd|]. split; [exact Hrun|].
  intros Hclaim.
  pose proof (Hclaim 0 (2 ^ 63 - 1) SEEK_CUR with_hello_read _ Hfd) as Hsix.
  rewrite Hrun in Hsix.
  cbn [reader_position file_length] in Hsix.
  change (seek_base SEEK_CUR _) with 2 in Hsix.
  assert (Some 0 = Some (Z.max 0 (Z.min 6 (2 + (2 ^ 63 - 1))))) as [= Hzero].
  apply Hsix; [right; by left | lia..].
Qed.

(** ** What the operations do to the descriptor table *)



















(** ** The cursor invariant (C9) *)






(** ** Runs that contradict the design document *)

(** C1: on a fresh storage the engine accepts 1250 of 1300 bytes written
    to a new file, yet [write_virtual] returns 1300, and the length it
    stores, in the descriptor and in the metadata region, is 1301. *)
Theorem write_virtual_hides_short_write :
  value_of
    ((jump_to_file_if_needed 200 0;;
      lift (storage_write_in_region 200 (replicate 1300 "a"%byte) 1300))
       with_empty_file) = Some 1250 ∧
  value_of
    ((let* r := write_virtual 200 0 (replicate 1300 "a"%byte) 1300 in
      let* ds := gets descriptors_ in
      let* stored := lift (find_virtual_file 200 (path_of "f")) in
      ret (r, descriptor 0 ds, file_length stored)) with_empty_file)
  = Some (1300,
          Some {| content_region := 1; metadata_region := 2;
                  file_length := 1301; reader_position := 1300 |},
          1301).
Proof. split; vm_compute; reflexivity. Qed.

(** C2: opening the six-byte file [f] with [O_TRUNC] stores a descriptor
    that still names region 4 and length 6; block 4 is free afterwards,
    the region allocated in its place is block 1, and the metadata
    region still records length 6. *)
Theorem open_virtual_truncate_keeps_old_handle :
  value_of
    ((let* before := header_of 1 in
      let* fd := open_virtual 200 (path_of "f") O_TRUNC in
      let* ds := gets descriptors_ in
      let* old_head := header_of 4 in
      let* new_head := header_of 1 in
      let* stored := lift (find_virtual_file 200 (path_of "f")) in
      ret (fd, descriptor fd ds, in_use before, in_use old_head,
           in_use new_head, file_length stored)) with_hole)
  = Some (0,
          Some {| content_region := 4; metadata_region := 5;
                  file_length := 6; reader_position := 0 |},
          0, 0, 1, 6).
Proof. vm_compute. reflexivity. Qed.

(** C5: opening the six-byte file [f] with [O_APPEND] stores a
    descriptor whose cursor is 0. *)
Theorem open_virtual_append_cursor_zero :
  value_of
    ((let* fd := open_virtual 200 (path_of "f") O_APPEND in
      let* ds := gets descriptors_ in
      ret (fd, descriptor fd ds)) with_hello)
  = Some (0,
          Some {| content_region := 1; metadata_region := 2;
                  file_length := 6; reader_position := 0 |}).
Proof. vm_compute. reflexivity. Qed.

(** C4: [rmdir_virtual] of the empty directory [A/B] returns 0, but the
    entry it marks unused is the first entry of the root directory, the
    one of [A]; the entry of [B] in the content region of [A] (region 1)
    still has type [DIRECTORY_ENTRY], and [A] no longer resolves. *)
Theorem rmdir_virtual_marks_root_entry :
  value_of
    ((let* root_before := peek 200 0 5 in
      let* r := rmdir_virtual 200 (path_of "A/B") in
      let* root := peek 200 0 5 in
      let* in_A := peek 200 1 5 in
      let* fd := open_virtual 200 (path_of "A/x") O_CREAT in
      ret (root_before, r, root, in_A, fd)) with_nested_directory)
  = Some ([x03; x02; x00; x01; x00], 0,
          [x01; x02; x00; x01; x00],
          [x03; x04; x00; x03; x00], -1).
Proof. vm_compute. reflexivity. Qed.

(** ** [O_EXCL] (C6) *)

(** C6 as claimed fails: [f] exists, a slot is free, [O_EXCL] is set
    without [O_CREAT], and [open_virtual] returns -1. *)
Lemma exclusive_is_not_ignored : ¬ exclusive_ignored_without_create.
Proof.
  intros Hclaim.
  destruct (Hclaim 200%nat (path_of "f") O_EXCL with_hello
              {| content_region := 1; metadata_region := 2;
                 file_length := 6; reader_position := 0 |}
              (after (lookup_file 200 (path_of "f")) (engine with_hello)))
    as (fd & s' & Hopen & Hfd).
  - vm_compute. discriminate.
  - vm_compute. reflexivity.
  - vm_compute. discriminate.
  - vm_compute. reflexivity.
  - vm_compute. discriminate.
  - apply (f_equal value_of) in Hopen. vm_compute in Hopen.
    injection Hopen as <-. lia.
Qed.

(** C6, amended: whenever the file exists and a slot is free, a set
    [O_EXCL] makes [open_virtual] return -1 and leave the descriptor
    table as it was, with [O_CREAT] or without. *)
Theorem open_virtual_exclusive_rejects_existing fuel path flags s file e :
  Z.land flags O_EXCL ≠ 0 →
  first_available (Z.to_nat MAX_DESCRIPTORS) 0 (descriptors_ s) ≠ -1 →
  lookup_file fuel path (engine s) = Done file e →
  content_region file ≠ INVALID_REGION →
  ∃ s', open_virtual fuel path flags s = Done (-1) s' ∧
        descriptors_ s' = descriptors_ s.
Proof.
  intros Hexcl Hslot Hfind Hexists.
  unfold lookup_file in Hfind. bind_inv Hfind as ? e1 Hinit.
  unfold open_virtual.
  erewrite bind_eq by (apply lift_Done; eauto).
  erewrite bind_eq by reflexivity.
  rewrite descriptors_set_engine.
  apply Z.eqb_neq in Hslot as ->.
  erewrite bind_eq by reflexivity.
  erewrite bind_eq
    by (apply lift_Done; unfold modify; autorewrite with fs_fields; eauto).
  apply Z.eqb_neq in Hexists as ->.
  apply Z.eqb_neq in Hexcl as ->.
  cbn [negb]. erewrite bind_eq by reflexivity.
  eexists. split; [reflexivity|]. by autorewrite with fs_fields.
Qed.

Lemma open_virtual_exclusive_rejects_existing_witness :
  ∃ s', open_virtual 200 (path_of "f") O_EXCL with_hello = Done (-1) s' ∧
        descriptors_ s' = descriptors_ with_hello.
Proof.
  apply (open_virtual_exclusive_rejects_existing 200 (path_of "f") O_EXCL
           with_hello
           {| content_region := 1; metadata_region := 2;
              file_length := 6; reader_position := 0 |}
           (after (lookup_file 200 (path_of "f")) (engine with_hello))).
  - vm_compute. discriminate.
  - vm_compute. discriminate.
  - vm_compute. reflexivity.
  - vm_compute. discriminate.
Defined.

(** ** Witnesses *)


Lemma seek_virtual_clamps_witness :
  seek_virtual 0 100 SEEK_SET
    (after (open_virtual 200 (path_of "f") 0) with_hello)
  = Done 6
      (set_descriptors_
         (<[0%nat := Some {| content_region := 1; metadata_region := 2;
                             file_length := 6; reader_position := 6 |}]>
            (descriptors_
               (after (open_virtual 200 (path_of "f") 0) with_hello)))
         (after (open_virtual 200 (path_of "f") 0) with_hello)).
Proof.
  apply (seek_virtual_clamps 0 100 SEEK_SET
           (after (open_virtual 200 (path_of "f") 0) with_hello)
           {| content_region := 1; metadata_region := 2;
              file_length := 6; reader_position := 0 |}).
  - vm_compute. reflexivity.
  - left. reflexivity.
  - simpl. lia.
  - simpl. lia.
  - lia.
  - vm_compute. split; [discriminate | reflexivity].
Defined.


(** ** Bytes of the backing file *)

Lemma length_bytes_at f off n :
  0 ≤ off → 0 ≤ n → off + n ≤ Z.of_nat (length f) →
  length (bytes_at f off n) = Z.to_nat n.
Proof.
  intros. unfold bytes_at. rewrite length_take, length_drop. lia.
Qed.

Lemma slice_in_bounds f off n :
  0 ≤ off → 0 ≤ n → off + n ≤ Z.of_nat (length f) →
  slice f off n = Some (bytes_at f off n).
Proof.
  intros Hoff Hn Hlen. unfold slice.
  fold (bytes_at f off n). rewrite length_bytes_at by done.
  destruct (0 <=? n) eqn:E1; [|lia]. destruct (0 <=? off) eqn:E2; [|lia].
  by rewrite Nat.eqb_refl.
Qed.

Lemma length_patch f off data : length (patch f off data) = length f.
Proof. apply length_inserts. Qed.

Lemma lookup_bytes_at f off n i :
  (i < Z.to_nat n)%nat →
  bytes_at f off n !! i = f !! (Z.to_nat off + i)%nat.
Proof.
  intros. unfold bytes_at. by rewrite lookup_take_lt, lookup_drop.
Qed.

Lemma lookup_bytes_at_ge f off n i :
  (Z.to_nat n ≤ i)%nat → bytes_at f off n !! i = None.
Proof. intros. unfold bytes_at. by rewrite lookup_take_ge. Qed.

(** Reading what does not overlap a write gives the old bytes. *)
Lemma bytes_at_patch_ne f off data off' n :
  0 ≤ off → 0 ≤ off' →
  off' + n ≤ off ∨ off + Z.of_nat (length data) ≤ off' →
  bytes_at (patch f off data) off' n = bytes_at f off' n.
Proof.
  intros Hoff Hoff' Hdisj. apply list_eq. intros i.
  destruct (decide (i < Z.to_nat n)%nat).
  - rewrite !lookup_bytes_at by done. unfold patch.
    destruct Hdisj.
    + apply list_lookup_inserts_lt. lia.
    + apply list_lookup_inserts_ge. lia.
  - by rewrite !lookup_bytes_at_ge by lia.
Qed.

(** Reading inside a write gives the bytes written. *)
Lemma bytes_at_patch_in f off data off' n :
  0 ≤ off → off ≤ off' → 0 ≤ n →
  off' + n ≤ off + Z.of_nat (length data) →
  off + Z.of_nat (length data) ≤ Z.of_nat (length f) →
  bytes_at (patch f off data) off' n = bytes_at data (off' - off) n.
Proof.
  intros Hoff Hoff' Hn Hin Hlen. apply list_eq. intros i.
  destruct (decide (i < Z.to_nat n)%nat).
  - rewrite !lookup_bytes_at by done. unfold patch.
    rewrite list_lookup_inserts by lia. f_equal. lia.
  - by rewrite !lookup_bytes_at_ge by lia.
Qed.

Lemma bytes_at_all data : bytes_at data 0 (Z.of_nat (length data)) = data.
Proof.
  unfold bytes_at. rewrite Nat2Z.id. simpl. apply firstn_all.
Qed.

Lemma bytes_at_patch_eq f off data :
  0 ≤ off → off + Z.of_nat (length data) ≤ Z.of_nat (length f) →
  bytes_at (patch f off data) off (Z.of_nat (length data)) = data.
Proof.
  intros. rewrite bytes_at_patch_in by lia.
  rewrite Z.sub_diag. apply bytes_at_all.
Qed.

Lemma bytes_at_app f off n m :
  0 ≤ off → 0 ≤ n → 0 ≤ m →
  bytes_at f off (n + m) = bytes_at f off n ++ bytes_at f (off + n) m.
Proof.
  intros. unfold bytes_at.
  rewrite !Z2Nat.inj_add by lia. rewrite <- take_take_drop, drop_drop. done.
Qed.

Lemma patch_app f off d1 d2 :
  0 ≤ off →
  patch (patch f off d1) (off + Z.of_nat (length d1)) d2 = patch f off (d1 ++ d2).
Proof.
  intros. unfold patch. rewrite list_inserts_app_l. f_equal. lia.
Qed.

(** ** Block offsets *)

Lemma block_offset_next size block :
  block_offset size (block + 1) = block_offset size block + size + 5.
Proof. unfold block_offset, FIRST_BLOCK_POSITION, BLOCK_HEADER_SIZE. lia. Qed.

Lemma block_offset_le size i j :
  0 ≤ size → i ≤ j → block_offset size i ≤ block_offset size j.
Proof. unfold block_offset, FIRST_BLOCK_POSITION, BLOCK_HEADER_SIZE. nia. Qed.

Lemma block_offset_lt size i j :
  0 ≤ size → i < j → block_offset size i + size + 5 ≤ block_offset size j.
Proof.
  intros. rewrite <- block_offset_next. apply block_offset_le; lia.
Qed.

Lemma block_offset_nonneg size i :
  0 ≤ size → 0 ≤ i → 4 ≤ block_offset size i.
Proof. unfold block_offset, FIRST_BLOCK_POSITION, BLOCK_HEADER_SIZE. nia. Qed.

(** ** [jump_to_block] *)

Ltac fields :=
  cbn [host_file host_offset storage_file_ active_block_size_
       active_block_count_ current_block_index_ current_block_position_
       current_region_position_ current_block_
       set_host set_storage_file_ set_active set_current_block_index_
       set_current_block_position_ set_current_region_position_
       set_current_block_ in_use previous_block next_block].

Lemma host_read_in_bounds s f n :
  host_file s = Some f → 0 ≤ host_offset s → 0 ≤ n →
  host_offset s + n ≤ Z.of_nat (length f) →
  host_read n s
  = Done (bytes_at f (host_offset s) n) (set_host (Some f) (host_offset s + n) s).
Proof.
  intros Hf ???. unfold host_read. rewrite Hf.
  by rewrite slice_in_bounds.
Qed.

Lemma host_write_in_bounds s f data :
  host_file s = Some f → 0 ≤ host_offset s →
  host_offset s + Z.of_nat (length data) ≤ Z.of_nat (length f) →
  host_write data s
  = Done tt (set_host (Some (patch f (host_offset s) data))
               (host_offset s + Z.of_nat (length data)) s).
Proof.
  intros Hf ??. unfold host_write. rewrite Hf.
  by rewrite slice_in_bounds by lia.
Qed.

Lemma host_lseek_nonneg s target :
  0 ≤ target → host_lseek target s = Done tt (set_host (host_file s) target s).
Proof. intros. unfold host_lseek. destruct (_ <? 0) eqn:E; [lia|done]. Qed.

Lemma jump_to_block_in_range s f block :
  host_file s = Some f →
  geometry (active_block_size_ s) (active_block_count_ s) f →
  0 ≤ block < active_block_count_ s →
  jump_to_block block s = Done tt (jumped s f block).
Proof.
  destruct s as [file off fd size count idx pos rpos cur]. fields.
  intros -> [Hsize Hcount Hlen Hint] Hblock.
  pose proof (block_offset_lt size block count ltac:(lia) ltac:(lia)) as Hlt.
  pose proof (block_offset_nonneg size block ltac:(lia) ltac:(lia)) as Hge.
  unfold jump_to_block.
  erewrite bind_eq by reflexivity. fields.
  destruct (_ <=? _) eqn:E; [lia|]. clear E.
  erewrite bind_eq by reflexivity. fields.
  destruct (INT_MAX <? _) eqn:E; [lia|]. clear E.
  erewrite bind_eq by (by apply host_lseek_nonneg; lia). fields.
  unfold read_block_header.
  erewrite bind_eq; cycle 1.
  { erewrite bind_eq by (apply host_read_in_bounds; fields; try done; lia).
    erewrite bind_eq by (apply host_read_in_bounds; fields; try done; lia).
    erewrite bind_eq by (apply host_read_in_bounds; fields; try done; lia).
    fields. reflexivity. }
  unfold modify, jumped, header_at, BLOCK_HEADER_SIZE. fields.
  rewrite <- !Z.add_assoc. reflexivity.
Qed.

(** ** Encoding integers *)

Lemma Z_of_byte_of_Z z : Z_of_byte (byte_of_Z z) = z mod 256.
Proof.
  unfold Z_of_byte, byte_of_Z.
  pose proof (Z.mod_pos_bound z 256 ltac:(lia)).
  destruct (Byte.of_N _) as [b|] eqn:E.
  - apply Byte.to_of_N in E. rewrite E. lia.
  - apply Byte.of_N_None_iff in E. lia.
Qed.

Lemma le_decode_encode n z : le_decode (le_encode n z) = z mod 256 ^ Z.of_nat n.
Proof.
  revert z. induction n as [|n IH]; intros z.
  - simpl. by rewrite Z.mod_1_r.
  - cbn [le_encode le_decode]. rewrite Z_of_byte_of_Z, IH.
    rewrite Nat2Z.inj_succ, Z.pow_succ_r by lia.
    rewrite Z.rem_mul_r; lia.
Qed.

Lemma length_le_encode n z : length (le_encode n z) = n.
Proof. revert z. induction n; intros; simpl; auto. Qed.

Lemma le_decode_encode_2 z : 0 ≤ z < 65536 → le_decode (le_encode 2 z) = z.
Proof. intros. rewrite le_decode_encode. apply Z.mod_small. lia. Qed.

(** ** [allocate_block] *)

Lemma jumped_jumped s f g i j : jumped (jumped s f i) g j = jumped s g j.
Proof. reflexivity. Qed.

Lemma allocated_jumped s f g i j p : allocated (jumped s f i) g j p = allocated s g j p.
Proof. reflexivity. Qed.

Lemma current_block_jumped s f i :
  current_block_ (jumped s f i) = header_at f (active_block_size_ s) i.
Proof. reflexivity. Qed.

Lemma length_allocated_header p : length (allocated_header p) = 5%nat.
Proof. reflexivity. Qed.

Lemma write_allocated_header s f block previous_block :
  geometry (active_block_size_ s) (active_block_count_ s) f →
  0 ≤ block < active_block_count_ s →
  (host_lseek_cur (- BLOCK_HEADER_SIZE);;
   host_write [BLOCK_IN_USE_INDICATOR];;
   host_write (le_encode 2 previous_block);;
   host_write (le_encode 2 INVALID_BLOCK);;
   ret block) (jumped s f block)
  = Done block (allocated s f block previous_block).
Proof.
  destruct s as [file off fd size count idx pos rpos cur]. fields.
  intros [Hsize Hcount Hlen Hint] Hblock.
  pose proof (block_offset_lt size block count ltac:(lia) ltac:(lia)) as Hlt.
  pose proof (block_offset_nonneg size block ltac:(lia) ltac:(lia)) as Hge.
  unfold jumped, allocated. fields.
  erewrite bind_eq; cycle 1.
  { unfold host_lseek_cur. fields. apply host_lseek_nonneg.
    unfold BLOCK_HEADER_SIZE. lia. }
  fields.
  erewrite bind_eq
    by (apply host_write_in_bounds; fields; try done;
        unfold BLOCK_HEADER_SIZE; simpl length; lia).
  fields.
  erewrite bind_eq
    by (apply host_write_in_bounds; fields; try done;
        rewrite ?length_patch; unfold BLOCK_HEADER_SIZE; simpl length; lia).
  fields.
  erewrite bind_eq
    by (apply host_write_in_bounds; fields; try done;
        rewrite ?length_patch; unfold BLOCK_HEADER_SIZE; simpl length; lia).
  fields. unfold ret, BLOCK_HEADER_SIZE. simpl length.
  replace (block_offset size block + (1 + 2 * 2) + - (1 + 2 * 2))
    with (block_offset size block) by lia.
  change (Z.of_nat 1) with 1. change (Z.of_nat 2) with 2.
  rewrite (patch_app _ _ [BLOCK_IN_USE_INDICATOR]) by lia.
  change (Z.of_nat 1) with 1.
  replace (block_offset size block + 1 + 2)
    with (block_offset size block
          + Z.of_nat (length ([BLOCK_IN_USE_INDICATOR] ++ le_encode 2 previous_block)))
    by (rewrite length_app, length_le_encode; simpl length; lia).
  rewrite patch_app by lia.
  rewrite length_app, length_le_encode. simpl length.
  rewrite <- app_assoc. change (Z.of_nat (1 + 2)) with 3.
  rewrite <- !Z.add_assoc. reflexivity.
Qed.

(** The scan from [inspected] on: [n] blocks remain. *)
Lemma allocate_block_scan_finds n s f previous_block inspected block :
  host_file s = Some f →
  geometry (active_block_size_ s) (active_block_count_ s) f →
  inspected + Z.of_nat n = active_block_count_ s →
  0 ≤ inspected ≤ block →
  block < active_block_count_ s →
  (∀ j, inspected ≤ j < block →
        in_use (header_at f (active_block_size_ s) j) = 1) →
  in_use (header_at f (active_block_size_ s) block) ≠ 1 →
  allocate_block_scan n previous_block inspected s
  = Done block (allocated s f block previous_block).
Proof.
  revert s inspected. induction n as [|n IH]; intros s inspected Hf Hgeo Hn Hi Hb Hused Hfree.
  { lia. }
  cbn [allocate_block_scan].
  erewrite bind_eq by (by apply jump_to_block_in_range; [| |lia]).
  erewrite bind_eq by reflexivity.
  destruct (decide (inspected = block)) as [->|Hne].
  - rewrite current_block_jumped. unfold bool_not.
    apply Z.eqb_neq in Hfree as ->. cbn [negb].
    apply write_allocated_header; [done|lia].
  - rewrite current_block_jumped, Hused by lia.
    change (bool_not 1) with false. cbn iota.
    rewrite (IH (jumped s f inspected) (inspected + 1)); try done.
    + cbn [jumped active_block_count_]. lia.
    + lia.
    + intros j Hj. apply Hused. lia.
Qed.

Lemma allocate_block_scan_full n s f previous_block inspected :
  host_file s = Some f →
  geometry (active_block_size_ s) (active_block_count_ s) f →
  inspected + Z.of_nat n = active_block_count_ s →
  0 ≤ inspected →
  (∀ j, inspected ≤ j < active_block_count_ s →
        in_use (header_at f (active_block_size_ s) j) = 1) →
  ∃ s', allocate_block_scan n previous_block inspected s
        = Done INVALID_BLOCK s' ∧
        host_file s' = Some f ∧
        active_block_size_ s' = active_block_size_ s ∧
        active_block_count_ s' = active_block_count_ s ∧
        storage_file_ s' = storage_file_ s.
Proof.
  revert s inspected. induction n as [|n IH]; intros s inspected Hf Hgeo Hn Hi Hused.
  { by exists s. }
  cbn [allocate_block_scan].
  erewrite bind_eq by (by apply jump_to_block_in_range; [| |lia]).
  erewrite bind_eq by reflexivity.
  rewrite current_block_jumped, Hused by lia.
  change (bool_not 1) with false. cbn iota.
  destruct (IH (jumped s f inspected) (inspected + 1)) as (s' & -> & ? & ? & ? & ?);
    try done.
  - cbn [jumped active_block_count_]. lia.
  - lia.
  - intros j Hj. apply Hused. cbn [jumped active_block_count_] in Hj. lia.
  - by exists s'.
Qed.

Lemma header_at_allocated f size block previous_block :
  0 ≤ block_offset size block →
  block_offset size block + 5 ≤ Z.of_nat (length f) →
  0 ≤ previous_block < 65536 →
  header_at (patch f (block_offset size block)
               (allocated_header previous_block)) size block
  = {| in_use := 1; previous_block := previous_block;
       next_block := INVALID_BLOCK |}.
Proof.
  intros Hoff Hlen Hprev. unfold header_at.
  rewrite !bytes_at_patch_in
    by (rewrite ?length_allocated_header; simpl; lia).
  rewrite Z.sub_diag.
  replace (block_offset size block + 1 - block_offset size block) with 1 by lia.
  replace (block_offset size block + 3 - block_offset size block) with 3 by lia.
  unfold allocated_header, bytes_at.
  change (Z.to_nat 0) with 0%nat. change (Z.to_nat 1) with 1%nat.
  change (Z.to_nat 2) with 2%nat. change (Z.to_nat 3) with 3%nat.
  cbn [app firstn skipn].
  pose proof (length_le_encode 2 previous_block) as Hl.
  pose proof (le_decode_encode_2 previous_block Hprev) as Hd.
  destruct (le_encode 2 previous_block) as [|b0 [|b1 [|]]]; try discriminate.
  cbn [app firstn skipn le_encode]. rewrite Hd. reflexivity.
Qed.

(** ** Allocation (C8) *)





(** ** The engine with the default geometry *)

Ltac geo :=
  unfold payload_offset, block_offset, FIRST_BLOCK_POSITION,
    BLOCK_HEADER_SIZE, DEFAULT_BLOCK_SIZE, DEFAULT_BLOCK_COUNT, INT_MAX,
    INVALID_BLOCK, INVALID_REGION in *;
  lia.

Lemma mounted_geometry s f :
  mounted s f → geometry (active_block_size_ s) (active_block_count_ s) f.
Proof.
  intros [Hf Ho Hs Hc Hl]. rewrite Hs, Hc.
  split; try done; geo.
Qed.

Lemma mounted_at_cursor fd f block pos rpos :
  fd ≠ -1 →
  Z.of_nat (length f) = block_offset DEFAULT_BLOCK_SIZE DEFAULT_BLOCK_COUNT →
  mounted (at_cursor fd f block pos rpos) f.
Proof. by split. Qed.

Lemma storage_initialized_mounted s f :
  mounted s f → storage_initialized s = Done true s.
Proof.
  intros [_ Ho _ _ _]. unfold storage_initialized, gets.
  by apply Z.eqb_neq in Ho as ->.
Qed.

Lemma ensure_initialized_mounted s f :
  mounted s f → ensure_initialized s = Done tt s.
Proof.
  intros Hm. unfold ensure_initialized.
  by erewrite bind_eq by (by eapply storage_initialized_mounted).
Qed.

Lemma jumped_at_cursor s f block :
  mounted s f →
  jumped s f block
  = at_cursor (storage_file_ s) f block 0 (current_region_position_ s).
Proof.
  intros [_ _ Hs Hc _]. unfold jumped, at_cursor, payload_offset.
  rewrite Hs, Hc, Z.add_0_r. reflexivity.
Qed.

Lemma storage_jump_to_region_mounted s f region :
  mounted s f → 0 ≤ region < DEFAULT_BLOCK_COUNT →
  storage_jump_to_region region s
  = Done 0 (at_cursor (storage_file_ s) f region 0 0).
Proof.
  intros Hm Hr. unfold storage_jump_to_region.
  erewrite bind_eq by (by eapply storage_initialized_mounted). cbn [negb].
  erewrite bind_eq; cycle 1.
  { apply jump_to_block_in_range; [apply Hm|by apply mounted_geometry|].
    destruct Hm as [_ _ _ -> _]. done. }
  rewrite jumped_at_cursor by done.
  reflexivity.
Qed.

Lemma to_int_small z : - 2 ^ 31 ≤ z < 2 ^ 31 → to_int z = z.
Proof. intros. unfold to_int. rewrite Z.mod_small; lia. Qed.

Lemma host_read_at_cursor fd f block pos rpos n :
  0 ≤ block → 0 ≤ pos → 0 ≤ n →
  payload_offset block + pos + n ≤ Z.of_nat (length f) →
  host_read n (at_cursor fd f block pos rpos)
  = Done (bytes_at f (payload_offset block + pos) n)
      (set_host (Some f) (payload_offset block + pos + n)
         (at_cursor fd f block pos rpos)).
Proof.
  intros. rewrite (host_read_in_bounds _ f); try done.
  all: unfold at_cursor; fields; try done; geo.
Qed.

Lemma header_at_patch_outside f off data j :
  0 ≤ off → 0 ≤ j →
  off + Z.of_nat (length data) ≤ block_offset DEFAULT_BLOCK_SIZE j
  ∨ block_offset DEFAULT_BLOCK_SIZE j + 5 ≤ off →
  header_at (patch f off data) DEFAULT_BLOCK_SIZE j
  = header_at f DEFAULT_BLOCK_SIZE j.
Proof.
  intros Hoff Hj Hdisj. unfold header_at.
  rewrite !bytes_at_patch_ne by geo. reflexivity.
Qed.

Lemma host_write_at_cursor fd f block pos rpos data :
  0 ≤ block → 0 ≤ pos →
  payload_offset block + pos + Z.of_nat (length data) ≤ Z.of_nat (length f) →
  host_write data (at_cursor fd f block pos rpos)
  = Done tt
      (set_host (Some (patch f (payload_offset block + pos) data))
         (payload_offset block + pos + Z.of_nat (length data))
         (at_cursor fd f block pos rpos)).
Proof.
  intros. rewrite (host_write_in_bounds _ f); try done.
  all: unfold at_cursor; fields; try done; geo.
Qed.

(** *** Transfers that end inside the current block *)

Lemma read_in_region_pass_fits fd f block pos rpos n read_bytes got :
  0 ≤ pos → 0 ≤ read_bytes ≤ n → pos + (n - read_bytes) < DEFAULT_BLOCK_SIZE →
  read_in_region_pass n (read_bytes, got) (at_cursor fd f block pos rpos)
  = Done (inr (false, read_bytes, got)) (at_cursor fd f block pos rpos).
Proof.
  intros Hpos Hr Hfit. unfold read_in_region_pass.
  erewrite bind_eq by reflexivity. erewrite bind_eq by reflexivity.
  unfold at_cursor at 1 2. fields.
  rewrite (to_size_t_small (pos + n - read_bytes)) by geo.
  destruct (_ <=? _) eqn:E; [exfalso; geo|]. reflexivity.
Qed.

Lemma read_in_region_rest_fits fd f block pos rpos n read_bytes got :
  Z.of_nat (length f) = block_offset DEFAULT_BLOCK_SIZE DEFAULT_BLOCK_COUNT →
  0 ≤ block < DEFAULT_BLOCK_COUNT →
  0 ≤ pos → 0 ≤ read_bytes ≤ n → pos + (n - read_bytes) < DEFAULT_BLOCK_SIZE →
  0 ≤ rpos → rpos + n < 2 ^ 64 →
  read_in_region_rest n (false, read_bytes, got) (at_cursor fd f block pos rpos)
  = Done (n, got ++ bytes_at f (payload_offset block + pos) (n - read_bytes))
      (at_cursor fd f block (pos + (n - read_bytes)) (rpos + n)).
Proof.
  intros Hlen Hblock Hpos Hr Hfit Hrpos Hrn. unfold read_in_region_rest.
  rewrite (to_size_t_small (n - read_bytes)) by lia.
  erewrite bind_eq by (apply host_read_at_cursor; geo).
  erewrite bind_eq by reflexivity. erewrite bind_eq by reflexivity.
  erewrite bind_eq by reflexivity. erewrite bind_eq by reflexivity.
  unfold ret, at_cursor. fields.
  rewrite !to_size_t_small by geo.
  rewrite Z.add_assoc. reflexivity.
Qed.

(** A read that stays inside the current block. *)
Lemma storage_read_in_block fuel fd f block pos rpos n :
  (0 < fuel)%nat → fd ≠ -1 →
  Z.of_nat (length f) = block_offset DEFAULT_BLOCK_SIZE DEFAULT_BLOCK_COUNT →
  0 ≤ block < DEFAULT_BLOCK_COUNT →
  0 ≤ pos → 0 ≤ n → pos + n < DEFAULT_BLOCK_SIZE →
  0 ≤ rpos → rpos + n < 2 ^ 64 →
  storage_read_in_region fuel n (at_cursor fd f block pos rpos)
  = Done (n, bytes_at f (payload_offset block + pos) n)
      (at_cursor fd f block (pos + n) (rpos + n)).
Proof.
  intros Hfuel Hfd Hlen Hblock Hpos Hn Hfit Hrpos Hrn.
  destruct fuel as [|fuel]; [lia|].
  unfold storage_read_in_region.
  erewrite bind_eq
    by (eapply storage_initialized_mounted, mounted_at_cursor; done).
  cbn [negb].
  erewrite bind_eq
    by (rewrite iter_succ, read_in_region_pass_fits by lia; reflexivity).
  rewrite read_in_region_rest_fits by lia.
  rewrite Z.sub_0_r. reflexivity.
Qed.

Lemma write_in_region_pass_fits fd f block pos rpos buffer n written_bytes :
  0 ≤ pos → 0 ≤ written_bytes ≤ n →
  pos + (n - written_bytes) < DEFAULT_BLOCK_SIZE →
  write_in_region_pass buffer n written_bytes (at_cursor fd f block pos rpos)
  = Done (inr (false, written_bytes)) (at_cursor fd f block pos rpos).
Proof.
  intros Hpos Hr Hfit. unfold write_in_region_pass.
  erewrite bind_eq by reflexivity. erewrite bind_eq by reflexivity.
  unfold at_cursor at 1 2. fields.
  rewrite (to_size_t_small (pos + n - written_bytes)) by geo.
  destruct (_ <=? _) eqn:E; [exfalso; geo|]. reflexivity.
Qed.

Lemma write_in_region_rest_fits fd f block pos rpos buffer n written_bytes :
  Z.of_nat (length f) = block_offset DEFAULT_BLOCK_SIZE DEFAULT_BLOCK_COUNT →
  0 ≤ block < DEFAULT_BLOCK_COUNT →
  0 ≤ pos → 0 ≤ written_bytes ≤ n →
  pos + (n - written_bytes) < DEFAULT_BLOCK_SIZE →
  n ≤ Z.of_nat (length buffer) →
  0 ≤ rpos → rpos + n < 2 ^ 64 →
  write_in_region_rest buffer n (false, written_bytes)
    (at_cursor fd f block pos rpos)
  = Done n
      (at_cursor fd
         (patch f (payload_offset block + pos)
            (bytes_at buffer written_bytes (n - written_bytes)))
         block (pos + (n - written_bytes)) (rpos + n)).
Proof.
  intros Hlen Hblock Hpos Hw Hfit Hbuf Hrpos Hrn. unfold write_in_region_rest.
  rewrite (to_size_t_small (n - written_bytes)) by lia.
  erewrite bind_eq; cycle 1.
  { unfold buffer_slice. rewrite slice_in_bounds by lia. reflexivity. }
  assert (Z.of_nat (length (bytes_at buffer written_bytes (n - written_bytes)))
          = n - written_bytes) as Hchunk
    by (rewrite length_bytes_at; lia).
  erewrite bind_eq by (apply host_write_at_cursor; geo).
  erewrite bind_eq by reflexivity. erewrite bind_eq by reflexivity.
  erewrite bind_eq by reflexivity. erewrite bind_eq by reflexivity.
  unfold ret, at_cursor. fields.
  rewrite !to_size_t_small by geo.
  rewrite header_at_patch_outside by geo.
  rewrite Hchunk, Z.add_assoc. reflexivity.
Qed.

(** A write that stays inside the current block. *)
Lemma storage_write_in_block fuel fd f block pos rpos buffer n :
  (0 < fuel)%nat → fd ≠ -1 →
  Z.of_nat (length f) = block_offset DEFAULT_BLOCK_SIZE DEFAULT_BLOCK_COUNT →
  0 ≤ block < DEFAULT_BLOCK_COUNT →
  0 ≤ pos → 0 ≤ n → pos + n < DEFAULT_BLOCK_SIZE →
  n ≤ Z.of_nat (length buffer) →
  0 ≤ rpos → rpos + n < 2 ^ 64 →
  storage_write_in_region fuel buffer n (at_cursor fd f block pos rpos)
  = Done n
      (at_cursor fd (patch f (payload_offset block + pos) (bytes_at buffer 0 n))
         block (pos + n) (rpos + n)).
Proof.
  intros Hfuel Hfd Hlen Hblock Hpos Hn Hfit Hbuf Hrpos Hrn.
  destruct fuel as [|fuel]; [lia|].
  unfold storage_write_in_region.
  erewrite bind_eq
    by (eapply storage_initialized_mounted, mounted_at_cursor; done).
  cbn [negb].
  erewrite bind_eq
    by (rewrite iter_succ, write_in_region_pass_fits by lia; reflexivity).
  rewrite write_in_region_rest_fits by lia.
  rewrite Z.sub_0_r. reflexivity.
Qed.

(** Seeking by 0 only reports the position in the region. *)
Lemma storage_seek_zero fuel fd f block pos rpos :
  fd ≠ -1 →
  Z.of_nat (length f) = block_offset DEFAULT_BLOCK_SIZE DEFAULT_BLOCK_COUNT →
  0 ≤ rpos < 2 ^ 64 →
  storage_seek_in_region fuel 0 (at_cursor fd f block pos rpos)
  = Done rpos (at_cursor fd f block pos rpos).
Proof.
  intros Hfd Hlen Hrpos. unfold storage_seek_in_region.
  erewrite bind_eq
    by (eapply storage_initialized_mounted, mounted_at_cursor; done).
  cbn [negb]. change (0 <? 0) with false. cbn iota.
  erewrite bind_eq by reflexivity. erewrite bind_eq by reflexivity.
  erewrite bind_eq by reflexivity.
  unfold gets, at_cursor. fields.
  rewrite Z.add_0_r, to_size_t_small by lia. reflexivity.
Qed.

(** Seeking back by one byte inside the current block. *)
Lemma storage_seek_back_one fuel fd f block pos rpos :
  (0 < fuel)%nat → fd ≠ -1 →
  Z.of_nat (length f) = block_offset DEFAULT_BLOCK_SIZE DEFAULT_BLOCK_COUNT →
  0 ≤ block →
  1 ≤ pos < 2 ^ 64 → 1 ≤ rpos < 2 ^ 64 →
  storage_seek_in_region fuel (to_off_t (to_size_t (- 1)))
    (at_cursor fd f block pos rpos)
  = Done (rpos - 1) (at_cursor fd f block (pos - 1) (rpos - 1)).
Proof.
  intros Hfuel Hfd Hlen Hblock Hpos Hrpos.
  destruct fuel as [|fuel]; [lia|].
  change (to_off_t (to_size_t (- 1))) with (-1).
  unfold storage_seek_in_region.
  erewrite bind_eq
    by (eapply storage_initialized_mounted, mounted_at_cursor; done).
  cbn [negb]. change (0 <? -1) with false. change (-1 <? 0) with true.
  cbn iota.
  erewrite bind_eq; cycle 1.
  { erewrite bind_eq; cycle 1.
    { rewrite iter_succ.
      erewrite bind_eq by reflexivity. erewrite bind_eq by reflexivity.
      pose proof (to_size_t_range
        (current_block_position_ (at_cursor fd f block pos rpos) + -1 - 0)).
      destruct (_ <? 0) eqn:E; [exfalso; lia|]. reflexivity. }
    change (to_off_t (-1 - 0)) with (-1).
    erewrite bind_eq; cycle 1.
    { unfold host_lseek_cur. apply host_lseek_nonneg.
      unfold at_cursor. fields. geo. }
    erewrite bind_eq by reflexivity. reflexivity. }
  erewrite bind_eq by reflexivity. erewrite bind_eq by reflexivity.
  unfold gets, modify, at_cursor. fields.
  change (-1 - 0) with (-1).
  rewrite !to_size_t_small by lia.
  replace (payload_offset block + pos + -1)
    with (payload_offset block + (pos - 1)) by lia.
  reflexivity.
Qed.

(** *** Writes that append blocks *)

Lemma in_use_patch_outside f off data j :
  0 ≤ off → 0 ≤ j →
  off + Z.of_nat (length data) ≤ block_offset DEFAULT_BLOCK_SIZE j
  ∨ block_offset DEFAULT_BLOCK_SIZE j + 1 ≤ off →
  in_use (header_at (patch f off data) DEFAULT_BLOCK_SIZE j)
  = in_use (header_at f DEFAULT_BLOCK_SIZE j).
Proof.
  intros Hoff Hj Hdisj. unfold header_at. cbn [in_use].
  rewrite !bytes_at_patch_ne by geo. reflexivity.
Qed.

Lemma allocate_block_frontier s f a previous_block :
  mounted s f → frontier f a → 0 ≤ a < DEFAULT_BLOCK_COUNT →
  allocate_block previous_block s = Done a (allocated s f a previous_block).
Proof.
  intros Hm [Hused Hfree] Ha. unfold allocate_block.
  erewrite bind_eq by reflexivity.
  pose proof (mounted_geometry _ _ Hm) as Hgeo.
  destruct Hm as [Hf Ho Hs Hc Hl].
  apply allocate_block_scan_finds; try done.
  - rewrite Hc. geo.
  - lia.
  - rewrite Hc. lia.
  - rewrite Hs. intros j Hj. apply Hused. lia.
  - rewrite Hs, Hfree by lia. lia.
Qed.

Lemma next_of_allocated f a previous_block :
  0 ≤ a < DEFAULT_BLOCK_COUNT →
  Z.of_nat (length f) = block_offset DEFAULT_BLOCK_SIZE DEFAULT_BLOCK_COUNT →
  0 ≤ previous_block < 65536 →
  header_at (patch f (block_offset DEFAULT_BLOCK_SIZE a)
               (allocated_header previous_block)) DEFAULT_BLOCK_SIZE a
  = {| in_use := 1; previous_block := previous_block;
       next_block := INVALID_BLOCK |}.
Proof. intros. apply header_at_allocated; geo. Qed.

Lemma write_in_region_pass_appends fd f block pos rpos buffer n w a :
  fd ≠ -1 →
  Z.of_nat (length f) = block_offset DEFAULT_BLOCK_SIZE DEFAULT_BLOCK_COUNT →
  0 ≤ block < a → a < DEFAULT_BLOCK_COUNT →
  0 ≤ pos < DEFAULT_BLOCK_SIZE →
  0 ≤ w ≤ n → DEFAULT_BLOCK_SIZE ≤ pos + (n - w) →
  n ≤ Z.of_nat (length buffer) → n < 2 ^ 63 →
  next_of f block = INVALID_BLOCK →
  frontier f a →
  write_in_region_pass buffer n w (at_cursor fd f block pos rpos)
  = Done (inl (w + (DEFAULT_BLOCK_SIZE - pos)))
      (at_cursor fd
         (patch
            (patch
               (patch f (payload_offset block + pos)
                  (bytes_at buffer w (DEFAULT_BLOCK_SIZE - pos)))
               (block_offset DEFAULT_BLOCK_SIZE a) (allocated_header block))
            (block_offset DEFAULT_BLOCK_SIZE block + 3) (le_encode 2 a))
         a 0 rpos).
Proof.
  intros Hfd Hlen Hblock Ha Hpos Hw Hcross Hbuf Hn Hnext Hfront.
  set (chunk := bytes_at buffer w (DEFAULT_BLOCK_SIZE - pos)).
  assert (Z.of_nat (length chunk) = DEFAULT_BLOCK_SIZE - pos) as Hchunk
    by (subst chunk; rewrite length_bytes_at; geo).
  set (f1 := patch f (payload_offset block + pos) chunk).
  set (f2 := patch f1 (block_offset DEFAULT_BLOCK_SIZE a) (allocated_header block)).
  set (f3 := patch f2 (block_offset DEFAULT_BLOCK_SIZE block + 3) (le_encode 2 a)).
  assert (length f1 = length f) as Hl1 by apply length_patch.
  assert (length f2 = length f) as Hl2
    by (subst f2; by rewrite length_patch).
  assert (length f3 = length f) as Hl3
    by (subst f3; by rewrite length_patch).
  unfold write_in_region_pass, at_cursor.
  erewrite bind_eq by reflexivity. erewrite bind_eq by reflexivity. fields.
  rewrite (to_size_t_small (pos + n - w)) by geo.
  destruct (_ <=? _) eqn:E; [clear E|exfalso; geo].
  rewrite (to_size_t_small (DEFAULT_BLOCK_SIZE - pos)) by geo.
  rewrite (to_int_small (DEFAULT_BLOCK_SIZE - pos)) by geo.
  erewrite bind_eq; cycle 1.
  { unfold buffer_slice. rewrite slice_in_bounds by geo. reflexivity. }
  fold chunk.
  erewrite bind_eq by (apply (host_write_in_bounds _ f); fields; try done; geo).
  fields. fold f1. rewrite Hchunk.
  rewrite (to_size_t_small (w + (DEFAULT_BLOCK_SIZE - pos))) by geo.
  erewrite bind_eq by reflexivity. fields.
  fold (next_of f block). rewrite Hnext.
  rewrite Z.eqb_refl. cbn [negb].
  erewrite bind_eq by reflexivity. fields.
  erewrite bind_eq; cycle 1.
  { apply (allocate_block_frontier _ f1 a);
      [split; fields; try done; congruence| |geo].
    destruct Hfront as [Hused Hfree].
    split; intros j Hj; subst f1; rewrite in_use_patch_outside by geo; auto. }
  unfold allocated. fields. fold f2.
  destruct (a =? INVALID_BLOCK) eqn:E; [exfalso; geo|clear E].
  erewrite bind_eq; cycle 1.
  { apply (jump_to_block_in_range _ f2); fields.
    - reflexivity.
    - split; try done; geo.
    - geo. }
  unfold jumped. fields.
  change (to_off_t (to_size_t (- BLOCK_HEADER_SIZE + 1 + 2))) with (-2).
  erewrite bind_eq; cycle 1.
  { unfold host_lseek_cur. apply host_lseek_nonneg. fields. geo. }
  fields.
  erewrite bind_eq; cycle 1.
  { apply (host_write_in_bounds _ f2); fields.
    - reflexivity.
    - geo.
    - rewrite length_le_encode. geo. }
  fields.
  replace (block_offset DEFAULT_BLOCK_SIZE block + BLOCK_HEADER_SIZE + -2)
    with (block_offset DEFAULT_BLOCK_SIZE block + 3) by geo.
  fold f3.
  erewrite bind_eq; cycle 1.
  { apply (jump_to_block_in_range _ f3); fields.
    - reflexivity.
    - split; try done; geo.
    - geo. }
  unfold continue, ret, jumped, payload_offset. fields.
  rewrite Z.add_0_r. reflexivity.
Qed.

Lemma bytes_at_bytes_at l off n off' m :
  0 ≤ off → 0 ≤ off' → 0 ≤ m → off' + m ≤ n →
  bytes_at (bytes_at l off n) off' m = bytes_at l (off + off') m.
Proof.
  intros. apply list_eq. intros i.
  destruct (decide (i < Z.to_nat m)%nat).
  - rewrite !lookup_bytes_at by lia. f_equal. lia.
  - by rewrite !lookup_bytes_at_ge by lia.
Qed.

Lemma frontier_appended f block pos a chunk :
  0 ≤ block < a → a < DEFAULT_BLOCK_COUNT → 0 ≤ pos →
  pos + Z.of_nat (length chunk) ≤ DEFAULT_BLOCK_SIZE →
  Z.of_nat (length f) = block_offset DEFAULT_BLOCK_SIZE DEFAULT_BLOCK_COUNT →
  frontier f a →
  frontier
    (patch
       (patch (patch f (payload_offset block + pos) chunk)
          (block_offset DEFAULT_BLOCK_SIZE a) (allocated_header block))
       (block_offset DEFAULT_BLOCK_SIZE block + 3) (le_encode 2 a))
    (a + 1).
Proof.
  intros Hblock Ha Hpos Hchunk Hlen [Hused Hfree]. split; intros j Hj.
  - rewrite in_use_patch_outside by (rewrite ?length_le_encode; geo).
    destruct (decide (j = a)) as [->|Hne].
    + rewrite next_of_allocated; [done|geo|by rewrite length_patch|geo].
    + rewrite in_use_patch_outside
        by (rewrite ?length_allocated_header; geo).
      rewrite in_use_patch_outside by geo. apply Hused. lia.
  - rewrite in_use_patch_outside by (rewrite ?length_le_encode; geo).
    rewrite in_use_patch_outside by (rewrite ?length_allocated_header; geo).
    rewrite in_use_patch_outside by geo. apply Hfree. lia.
Qed.

Lemma next_of_appended f block pos a chunk :
  0 ≤ block < a → a < DEFAULT_BLOCK_COUNT → 0 ≤ pos →
  Z.of_nat (length f) = block_offset DEFAULT_BLOCK_SIZE DEFAULT_BLOCK_COUNT →
  next_of
    (patch
       (patch (patch f (payload_offset block + pos) chunk)
          (block_offset DEFAULT_BLOCK_SIZE a) (allocated_header block))
       (block_offset DEFAULT_BLOCK_SIZE block + 3) (le_encode 2 a))
    a = INVALID_BLOCK.
Proof.
  intros Hblock Ha Hpos Hlen. unfold next_of.
  rewrite header_at_patch_outside by (rewrite ?length_le_encode; geo).
  rewrite next_of_allocated; [done|geo|by rewrite length_patch|geo].
Qed.

Section Write.
Context (fd : Z) (buffer : list byte) (n : Z).
Hypothesis Hfd : fd ≠ -1.
Hypothesis Hbuf : n ≤ Z.of_nat (length buffer).
Hypothesis Hn : n < 2 ^ 63.

(** The loop of [storage_write_in_region] from [w] bytes written on,
    and what follows it. *)
Lemma write_in_region_from k : ∀ fuel w f block pos a rpos,
  (k < fuel)%nat →
  Z.of_nat (length f) = block_offset DEFAULT_BLOCK_SIZE DEFAULT_BLOCK_COUNT →
  0 ≤ block < a → a ≤ DEFAULT_BLOCK_COUNT →
  0 ≤ pos < DEFAULT_BLOCK_SIZE →
  0 ≤ w ≤ n → 0 ≤ rpos → rpos + n < 2 ^ 64 →
  next_of f block = INVALID_BLOCK →
  frontier f a →
  pos + (n - w) < DEFAULT_BLOCK_SIZE * (Z.of_nat k + 1) →
  a + (pos + (n - w)) / DEFAULT_BLOCK_SIZE ≤ DEFAULT_BLOCK_COUNT →
  ∃ block' pos',
    (let* left := iter fuel (write_in_region_pass buffer n) w in
     write_in_region_rest buffer n left) (at_cursor fd f block pos rpos)
    = Done n
        (at_cursor fd (written k f block pos a (bytes_at buffer w (n - w)))
           block' pos' (rpos + n)).
Proof.
  induction k as [|k IH];
    intros fuel w f block pos a rpos Hfuel Hlen Hblock Ha Hpos Hw Hrpos Hrn
      Hnext Hfront Hk Hfree;
    (destruct fuel as [|fuel]; [lia|]);
    assert (Z.of_nat (length (bytes_at buffer w (n - w))) = n - w) as Hdata
      by (rewrite length_bytes_at; lia).
  - exists block, (pos + (n - w)).
    erewrite bind_eq
      by (rewrite iter_succ, write_in_region_pass_fits by geo; reflexivity).
    rewrite write_in_region_rest_fits by geo.
    cbn [written]. rewrite Hdata.
    destruct (_ <? _) eqn:E; [done|exfalso; geo].
  - destruct (decide (pos + (n - w) < DEFAULT_BLOCK_SIZE)) as [Hfit|Hcross].
    + exists block, (pos + (n - w)).
      erewrite bind_eq
        by (rewrite iter_succ, write_in_region_pass_fits by geo; reflexivity).
      rewrite write_in_region_rest_fits by geo.
      cbn [written]. rewrite Hdata.
      destruct (_ <? _) eqn:E; [done|exfalso; geo].
    + assert (a < DEFAULT_BLOCK_COUNT) as Ha'.
      { assert (1 ≤ (pos + (n - w)) / DEFAULT_BLOCK_SIZE)
          by (apply Z.div_le_lower_bound; geo).
        lia. }
      cbn [written]. rewrite Hdata.
      destruct (_ <? _) eqn:E; [exfalso; geo|clear E].
      rewrite bytes_at_bytes_at by geo. rewrite Z.add_0_r.
      rewrite bytes_at_bytes_at by geo.
      set (chunk := bytes_at buffer w (DEFAULT_BLOCK_SIZE - pos)).
      assert (Z.of_nat (length chunk) = DEFAULT_BLOCK_SIZE - pos) as Hchunk
        by (subst chunk; rewrite length_bytes_at; geo).
      set (f3 := patch (patch (patch f _ chunk) _ _) _ _).
      assert (length f3 = length f) as Hl3
        by (subst f3; by rewrite !length_patch).
      destruct (IH fuel (w + (DEFAULT_BLOCK_SIZE - pos)) f3 a 0 (a + 1) rpos)
        as (block' & pos' & Heq); try lia; try geo.
      * subst f3. apply next_of_appended; geo.
      * subst f3. apply frontier_appended; try done; geo.
      * replace (pos + (n - w))
          with ((n - (w + (DEFAULT_BLOCK_SIZE - pos))) + 1 * DEFAULT_BLOCK_SIZE)
          in Hfree by lia.
        rewrite Z.div_add in Hfree by geo. rewrite Z.add_0_l. lia.
      * exists block', pos'.
        replace (n - w - (DEFAULT_BLOCK_SIZE - pos))
          with (n - (w + (DEFAULT_BLOCK_SIZE - pos))) by lia.
        rewrite <- Heq.
        unfold bind. rewrite iter_succ.
        rewrite (write_in_region_pass_appends fd f block pos rpos buffer n w a)
          by (try done; geo).
        reflexivity.
Qed.

End Write.

(** *** The file a write leaves *)

Section Written.

Lemma writable_next k f block pos a data :
  writable (S k) f block pos a data →
  DEFAULT_BLOCK_SIZE ≤ pos + Z.of_nat (length data) →
  a < DEFAULT_BLOCK_COUNT ∧
  Z.of_nat (length (bytes_at data (DEFAULT_BLOCK_SIZE - pos)
                      (Z.of_nat (length data) - (DEFAULT_BLOCK_SIZE - pos))))
  = Z.of_nat (length data) - (DEFAULT_BLOCK_SIZE - pos) ∧
  ∀ f', length f' = length f →
    writable k f' a 0 (a + 1)
      (bytes_at data (DEFAULT_BLOCK_SIZE - pos)
         (Z.of_nat (length data) - (DEFAULT_BLOCK_SIZE - pos))).
Proof.
  intros (Hlen & Hblock & Ha & Hpos & Hk & Hfree) Hcross.
  assert (1 ≤ (pos + Z.of_nat (length data)) / DEFAULT_BLOCK_SIZE)
    by (apply Z.div_le_lower_bound; geo).
  assert (Z.of_nat (length (bytes_at data (DEFAULT_BLOCK_SIZE - pos)
                      (Z.of_nat (length data) - (DEFAULT_BLOCK_SIZE - pos))))
          = Z.of_nat (length data) - (DEFAULT_BLOCK_SIZE - pos)) as Hrest
    by (rewrite length_bytes_at; geo).
  split; [lia|]. split; [done|].
  intros f' Hl'. unfold writable. rewrite Hrest, Hl'.
  repeat split; try lia; try geo.
  replace (pos + Z.of_nat (length data))
    with ((Z.of_nat (length data) - (DEFAULT_BLOCK_SIZE - pos))
          + 1 * DEFAULT_BLOCK_SIZE) in Hfree by lia.
  rewrite Z.div_add in Hfree by geo. rewrite Z.add_0_l. lia.
Qed.

Lemma length_written k : ∀ f block pos a data,
  length (written k f block pos a data) = length f.
Proof.
  induction k as [|k IH]; intros; cbn [written];
    destruct (_ <? _); rewrite ?IH, ?length_patch; done.
Qed.

(** A write leaves alone what lies below the free blocks, except, in
    the block it starts in, the [next] field and the payload from [pos]
    on. *)
Lemma written_frame k : ∀ f block pos a data off m,
  writable k f block pos a data →
  0 ≤ off → 0 ≤ m →
  off + m ≤ block_offset DEFAULT_BLOCK_SIZE a →
  off + m ≤ block_offset DEFAULT_BLOCK_SIZE block + 3
  ∨ block_offset DEFAULT_BLOCK_SIZE (block + 1) ≤ off
  ∨ (payload_offset block ≤ off ∧ off + m ≤ payload_offset block + pos) →
  bytes_at (written k f block pos a data) off m = bytes_at f off m.
Proof.
  induction k as [|k IH]; intros f block pos a data off m Hw Hoff Hm Ha Hout;
    cbn [written]; destruct (_ <? _) eqn:E.
  - apply bytes_at_patch_ne; destruct Hw as (? & ? & ? & ? & ? & ?); geo.
  - destruct Hw as (? & ? & ? & ? & ? & ?). exfalso. geo.
  - apply bytes_at_patch_ne; destruct Hw as (? & ? & ? & ? & ? & ?); geo.
  - destruct (writable_next _ _ _ _ _ _ Hw ltac:(geo)) as (Ha' & Hrest & Hnext).
    destruct Hw as (Hlen & Hblock & _ & Hpos & _ & _).
    rewrite IH; try done.
    + rewrite !bytes_at_patch_ne;
        rewrite ?length_le_encode, ?length_allocated_header,
          ?length_bytes_at; try done; geo.
    + apply Hnext. by rewrite !length_patch.
    + geo.
    + left. geo.
Qed.

Lemma written_frontier k : ∀ f block pos a data,
  writable k f block pos a data →
  frontier f a →
  frontier (written k f block pos a data)
    (a + (pos + Z.of_nat (length data)) / DEFAULT_BLOCK_SIZE).
Proof.
  induction k as [|k IH]; intros f block pos a data Hw Hfront;
    cbn [written]; destruct (_ <? _) eqn:E.
  - destruct Hw as (? & ? & ? & ? & ? & ?). destruct Hfront as [Hused Hfree].
    rewrite Z.div_small, Z.add_0_r by geo.
    split; intros j Hj; rewrite in_use_patch_outside by geo; auto.
  - destruct Hw as (? & ? & ? & ? & ? & ?). exfalso. geo.
  - destruct Hw as (? & ? & ? & ? & ? & ?). destruct Hfront as [Hused Hfree].
    rewrite Z.div_small, Z.add_0_r by geo.
    split; intros j Hj; rewrite in_use_patch_outside by geo; auto.
  - destruct (writable_next _ _ _ _ _ _ Hw ltac:(geo)) as (Ha' & Hrest & Hnext).
    destruct Hw as (Hlen & Hblock & _ & Hpos & _ & _).
    replace (pos + Z.of_nat (length data))
      with ((Z.of_nat (length data) - (DEFAULT_BLOCK_SIZE - pos))
            + 1 * DEFAULT_BLOCK_SIZE) by lia.
    rewrite Z.div_add by geo.
    replace (a + ((Z.of_nat (length data) - (DEFAULT_BLOCK_SIZE - pos))
                  / DEFAULT_BLOCK_SIZE + 1))
      with (a + 1 + (0 + (Z.of_nat (length data) - (DEFAULT_BLOCK_SIZE - pos)))
                    / DEFAULT_BLOCK_SIZE) by (rewrite Z.add_0_l; lia).
    rewrite <- Hrest at 2. apply IH.
    + apply Hnext. by rewrite !length_patch.
    + apply frontier_appended; try done; try geo.
      rewrite length_bytes_at; geo.
Qed.

Lemma holds_weaken f lo lo' block pos data :
  lo' ≤ lo → holds f lo block pos data → holds f lo' block pos data.
Proof.
  intros Hlo H. induction H as [block pos data Hfit Hb|block pos data Hc Hb Hn H IH].
  - by apply holds_here.
  - apply holds_next; try done. lia.
Qed.

(** What a region holds does not depend on the bytes outside its
    blocks. *)
Lemma holds_frame f f' lo block pos data :
  holds f lo block pos data →
  0 ≤ block → 0 ≤ lo → 0 ≤ pos < DEFAULT_BLOCK_SIZE →
  (∀ off m, 0 ≤ off → 0 ≤ m →
     (block_offset DEFAULT_BLOCK_SIZE block + 3 ≤ off ∧
      off + m ≤ block_offset DEFAULT_BLOCK_SIZE (block + 1))
     ∨ block_offset DEFAULT_BLOCK_SIZE lo ≤ off →
     bytes_at f' off m = bytes_at f off m) →
  holds f' lo block pos data.
Proof.
  intros H. induction H as [block pos data Hfit Hb|block pos data Hc Hb Hn H IH];
    intros Hblock Hlo Hpos Hsame.
  - apply holds_here; [done|]. rewrite Hsame; [done|geo|lia|]. left. geo.
  - assert (next_of f' block = next_of f block) as Hnext.
    { unfold next_of, header_at. cbn [next_block].
      rewrite Hsame; [done|geo|lia|]. left. geo. }
    apply holds_next; try done.
    + rewrite Hsame; [done|geo|geo|]. left. geo.
    + by rewrite Hnext.
    + rewrite Hnext. apply IH; try lia; try geo.
      intros off m Hoff Hm Hin. apply Hsame; try done.
      right. destruct Hin; geo.
Qed.

(** Reading back what was written. *)
Lemma written_holds k : ∀ f block pos a data,
  writable k f block pos a data →
  holds (written k f block pos a data) a block pos data.
Proof.
  induction k as [|k IH]; intros f block pos a data Hw;
    cbn [written]; destruct (_ <? _) eqn:E.
  - destruct Hw as (? & ? & ? & ? & ? & ?).
    apply holds_here; [geo|]. apply bytes_at_patch_eq; geo.
  - destruct Hw as (? & ? & ? & ? & ? & ?). exfalso. geo.
  - destruct Hw as (? & ? & ? & ? & ? & ?).
    apply holds_here; [geo|]. apply bytes_at_patch_eq; geo.
  - destruct (writable_next _ _ _ _ _ _ Hw ltac:(geo)) as (Ha' & Hrest & Hnext).
    pose proof Hw as (Hlen & Hblock & _ & Hpos & _ & _).
    set (chunk := bytes_at data 0 (DEFAULT_BLOCK_SIZE - pos)).
    assert (Z.of_nat (length chunk) = DEFAULT_BLOCK_SIZE - pos) as Hchunk
      by (subst chunk; rewrite length_bytes_at; geo).
    set (f1 := patch f (payload_offset block + pos) chunk).
    set (f2 := patch f1 _ (allocated_header block)).
    set (f3 := patch f2 _ (le_encode 2 a)).
    set (rest := bytes_at data _ _) in *.
    assert (length f3 = length f) as Hl3
      by (subst f3 f2 f1; by rewrite !length_patch).
    specialize (Hnext f3 Hl3).
    assert (∀ off m, 0 ≤ off → 0 ≤ m →
              block_offset DEFAULT_BLOCK_SIZE block + 3 ≤ off →
              off + m ≤ block_offset DEFAULT_BLOCK_SIZE (block + 1) →
              bytes_at (written k f3 a 0 (a + 1) rest) off m
              = bytes_at f3 off m) as Hframe.
    { intros off m Hoff Hm H1 H2. apply written_frame; try done; geo. }
    assert (next_of (written k f3 a 0 (a + 1) rest) block = a) as Hlink.
    { unfold next_of, header_at. cbn [next_block].
      rewrite Hframe by geo. subst f3.
      replace 2 with (Z.of_nat (length (le_encode 2 a))) at 2
        by (by rewrite length_le_encode).
      rewrite bytes_at_patch_eq
        by (subst f2 f1; rewrite ?length_patch, ?length_le_encode; geo).
      apply le_decode_encode_2. geo. }
    apply holds_next.
    + geo.
    + rewrite Hframe by geo. subst f3 f2.
      rewrite !bytes_at_patch_ne
        by (rewrite ?length_le_encode, ?length_allocated_header; geo).
      subst f1. fold chunk. rewrite <- Hchunk. apply bytes_at_patch_eq; geo.
    + rewrite Hlink. lia.
    + rewrite Hlink. eapply holds_weaken; [|by apply IH]. lia.
Qed.

End Written.

(** *** Reads that follow the chain of blocks *)

Lemma read_in_region_pass_crosses fd f block pos rpos n r got :
  fd ≠ -1 →
  Z.of_nat (length f) = block_offset DEFAULT_BLOCK_SIZE DEFAULT_BLOCK_COUNT →
  0 ≤ block < DEFAULT_BLOCK_COUNT →
  0 ≤ pos < DEFAULT_BLOCK_SIZE →
  0 ≤ r ≤ n → DEFAULT_BLOCK_SIZE ≤ pos + (n - r) → n < 2 ^ 63 →
  0 ≤ next_of f block < DEFAULT_BLOCK_COUNT →
  read_in_region_pass n (r, got) (at_cursor fd f block pos rpos)
  = Done (inl (r + (DEFAULT_BLOCK_SIZE - pos),
               got ++ bytes_at f (payload_offset block + pos)
                        (DEFAULT_BLOCK_SIZE - pos)))
      (at_cursor fd f (next_of f block) 0 rpos).
Proof.
  intros Hfd Hlen Hblock Hpos Hr Hcross Hn Hnext.
  unfold read_in_region_pass, at_cursor.
  erewrite bind_eq by reflexivity. erewrite bind_eq by reflexivity. fields.
  rewrite (to_size_t_small (pos + n - r)) by geo.
  destruct (_ <=? _) eqn:E; [clear E|exfalso; geo].
  rewrite (to_size_t_small (DEFAULT_BLOCK_SIZE - pos)) by geo.
  rewrite (to_int_small (DEFAULT_BLOCK_SIZE - pos)) by geo.
  erewrite bind_eq by (apply (host_read_in_bounds _ f); fields; try done; geo).
  fields.
  rewrite (to_size_t_small (r + (DEFAULT_BLOCK_SIZE - pos))) by geo.
  erewrite bind_eq by reflexivity. fields.
  fold (next_of f block).
  destruct (next_of f block =? INVALID_BLOCK) eqn:E; [exfalso; geo|clear E].
  erewrite bind_eq; cycle 1.
  { apply (jump_to_block_in_range _ f); fields.
    - reflexivity.
    - split; try done; geo.
    - geo. }
  unfold continue, ret, jumped, payload_offset. fields.
  rewrite Z.add_0_r. reflexivity.
Qed.

Section Read.
Context (fd : Z) (f : list byte) (lo : Z).
Hypothesis Hfd : fd ≠ -1.
Hypothesis Hlen :
  Z.of_nat (length f) = block_offset DEFAULT_BLOCK_SIZE DEFAULT_BLOCK_COUNT.
Hypothesis Hlo : 0 ≤ lo.

(** The loop of [storage_read_in_region] from [r] bytes read on, and
    what follows it, over a region that holds [data]. *)
Lemma read_in_region_from block pos data :
  holds f lo block pos data →
  ∀ fuel r got rpos n,
    0 ≤ block < DEFAULT_BLOCK_COUNT → 0 ≤ pos < DEFAULT_BLOCK_SIZE →
    0 ≤ r → n = r + Z.of_nat (length data) → n < 2 ^ 63 →
    0 ≤ rpos → rpos + n < 2 ^ 64 →
    (length data < fuel)%nat →
    ∃ block' pos',
      (let* left := iter fuel (read_in_region_pass n) (r, got) in
       read_in_region_rest n left) (at_cursor fd f block pos rpos)
      = Done (n, got ++ data) (at_cursor fd f block' pos' (rpos + n)).
Proof.
  induction 1 as [block pos data Hfit Hb|block pos data Hc Hb Hn H IH];
    intros fuel r got rpos n Hblock Hpos Hr -> Hn63 Hrpos Hrn Hfuel;
    (destruct fuel as [|fuel]; [lia|]).
  - exists block, (pos + Z.of_nat (length data)).
    erewrite bind_eq
      by (rewrite iter_succ, read_in_region_pass_fits by geo; reflexivity).
    rewrite read_in_region_rest_fits by geo.
    replace (r + Z.of_nat (length data) - r) with (Z.of_nat (length data)) by lia.
    by rewrite Hb.
  - set (rest := bytes_at data (DEFAULT_BLOCK_SIZE - pos) _) in *.
    assert (Z.of_nat (length rest)
            = Z.of_nat (length data) - (DEFAULT_BLOCK_SIZE - pos)) as Hrest
      by (subst rest; rewrite length_bytes_at; geo).
    destruct (IH fuel (r + (DEFAULT_BLOCK_SIZE - pos))
                (got ++ bytes_at f (payload_offset block + pos)
                          (DEFAULT_BLOCK_SIZE - pos))
                rpos (r + Z.of_nat (length data)))
      as (block' & pos' & Heq); try lia; try geo.
    exists block', pos'.
    unfold bind. rewrite iter_succ.
    rewrite read_in_region_pass_crosses by (try done; geo).
    unfold bind in Heq. rewrite Heq. do 2 f_equal.
    rewrite <- app_assoc. f_equal. rewrite Hb. subst rest.
    rewrite <- bytes_at_app by geo.
    replace (DEFAULT_BLOCK_SIZE - pos
             + (Z.of_nat (length data) - (DEFAULT_BLOCK_SIZE - pos)))
      with (Z.of_nat (length data)) by lia.
    apply bytes_at_all.
Qed.

(** [storage_read_in_region] over a region that holds [data] returns
    [data]. *)
Lemma storage_read_holds fuel block data rpos :
  holds f lo block 0 data →
  0 ≤ block < DEFAULT_BLOCK_COUNT →
  Z.of_nat (length data) < 2 ^ 63 → 0 ≤ rpos < 2 ^ 63 →
  (length data < fuel)%nat →
  ∃ block' pos',
    storage_read_in_region fuel (Z.of_nat (length data))
      (at_cursor fd f block 0 rpos)
    = Done (Z.of_nat (length data), data)
        (at_cursor fd f block' pos' (rpos + Z.of_nat (length data))).
Proof.
  intros Hholds Hblock Hn Hrpos Hfuel.
  destruct (read_in_region_from block 0 data Hholds fuel 0 [] rpos
              (Z.of_nat (length data)))
    as (block' & pos' & Heq); try lia; try geo.
  exists block', pos'. unfold storage_read_in_region.
  erewrite bind_eq
    by (eapply storage_initialized_mounted, mounted_at_cursor; done).
  cbn [negb]. exact Heq.
Qed.

End Read.

(** ** Creating a file on a fresh storage *)

Lemma lift_eq {A} (m : M storage A) s a e :
  m (engine s) = Done a e → lift m s = Done a (set_engine e s).
Proof. intros H. apply lift_Done. eauto. Qed.

Lemma frontierb_frontier f a :
  0 ≤ a ≤ DEFAULT_BLOCK_COUNT → frontierb f a = true → frontier f a.
Proof.
  intros Ha [Hused Hfree]%andb_prop.
  rewrite forallb_forall in Hused. rewrite forallb_forall in Hfree.
  split; intros j Hj.
  - specialize (Hused (Z.to_nat j)). rewrite Z2Nat.id in Hused by lia.
    apply Z.eqb_eq, Hused, in_seq. lia.
  - specialize (Hfree (Z.to_nat j)). rewrite Z2Nat.id in Hfree by lia.
    apply Z.eqb_eq, Hfree, in_seq. lia.
Qed.

Lemma cstr_no_nul path : Forall (λ c, c ≠ x00) path → cstr path = path.
Proof.
  induction 1 as [|c path Hc _ IH]; [done|].
  cbn [cstr]. destruct (Byte.eqb c x00) eqn:E.
  - by apply Byte.byte_dec_bl in E.
  - by rewrite IH.
Qed.

Lemma navigate_from_no_slash fuel path : ∀ name region s,
  Forall (λ c, c ≠ "/"%byte) path →
  navigate_from fuel path name region s
  = Done {| remainder_path := Some (name ++ path);
            directory_region := region |} s.
Proof.
  induction path as [|c path IH]; intros name region s Hpath.
  - cbn [navigate_from]. by rewrite app_nil_r.
  - apply Forall_cons in Hpath as [Hc Hpath]. cbn [navigate_from].
    destruct (Byte.eqb c "/") eqn:E.
    + by apply Byte.byte_dec_bl in E.
    + rewrite IH by done. by rewrite <- app_assoc.
Qed.

(** A path of one name resolves to the root directory, with the name
    as remainder. *)
Lemma navigate_to_root fuel path s f :
  mounted s f → single_component path →
  navigate_to_virtual_directory fuel path s
  = Done {| remainder_path := Some path;
            directory_region := root_directory_region_ |}
      (at_cursor (storage_file_ s) f root_directory_region_ 0 0).
Proof.
  intros Hm Hpath. unfold navigate_to_virtual_directory.
  erewrite bind_eq by (by eapply ensure_initialized_mounted).
  erewrite bind_eq
    by (apply storage_jump_to_region_mounted;
        [done | unfold root_directory_region_; geo]).
  rewrite cstr_no_nul by (eapply Forall_impl; [exact Hpath|]; by intros ? [_ ?]).
  apply navigate_from_no_slash.
  eapply Forall_impl; [exact Hpath|]. by intros ? [? _].
Qed.

(** Reading a variable that lies inside the current block. *)
Lemma read_scalar_in_block fuel width old fd f block pos rpos :
  (0 < fuel)%nat → fd ≠ -1 →
  Z.of_nat (length f) = block_offset DEFAULT_BLOCK_SIZE DEFAULT_BLOCK_COUNT →
  0 ≤ block < DEFAULT_BLOCK_COUNT →
  0 ≤ pos → pos + Z.of_nat width < DEFAULT_BLOCK_SIZE →
  0 ≤ rpos → rpos + Z.of_nat width < 2 ^ 64 →
  read_scalar fuel width old (at_cursor fd f block pos rpos)
  = Done
      (Some (le_decode
               (bytes_at f (payload_offset block + pos) (Z.of_nat width))))
      (at_cursor fd f block (pos + Z.of_nat width) (rpos + Z.of_nat width)).
Proof.
  intros. unfold read_scalar.
  erewrite bind_eq by (apply storage_read_in_block; try done; lia).
  cbn [snd]. rewrite length_bytes_at by geo.
  by rewrite Nat2Z.id, Nat.eqb_refl.
Qed.

(** Looking a name up in a root directory without entries. *)
Lemma find_virtual_file_empty_root fuel path s f :
  (0 < fuel)%nat → mounted s f → single_component path →
  bytes_at f (payload_offset root_directory_region_) 1 = [x00] →
  find_virtual_file fuel path s
  = Done invalid_file
      (at_cursor (storage_file_ s) f root_directory_region_ 1 1).
Proof.
  intros Hfuel Hm Hpath Hempty. unfold find_virtual_file.
  erewrite bind_eq by (by apply navigate_to_root).
  cbn [directory_region]. change (_ =? INVALID_REGION) with false. cbn iota.
  destruct fuel as [|fuel]; [lia|]. rewrite iter_succ.
  erewrite bind_eq; cycle 1.
  { apply read_scalar_in_block; try done;
      try (unfold root_directory_region_; geo); apply Hm. }
  change (Z.of_nat 1) with 1. rewrite Z.add_0_r, Hempty. reflexivity.
Qed.

(** [storage_write_in_region] from the end of a region, with enough
    free blocks for the bytes that do not fit the current one. *)
Lemma storage_write_appends k fuel fd buffer n f block pos a rpos :
  (k < fuel)%nat → fd ≠ -1 →
  0 ≤ n ≤ Z.of_nat (length buffer) → n < 2 ^ 63 →
  writable k f block pos a (bytes_at buffer 0 n) →
  0 ≤ rpos → rpos + n < 2 ^ 64 →
  next_of f block = INVALID_BLOCK → frontier f a →
  ∃ block' pos',
    storage_write_in_region fuel buffer n (at_cursor fd f block pos rpos)
    = Done n
        (at_cursor fd (written k f block pos a (bytes_at buffer 0 n))
           block' pos' (rpos + n)).
Proof.
  intros Hfuel Hfd Hn Hn63 (Hlen & Hblock & Ha & Hpos & Hk & Hfree)
    Hrpos Hrn Hnext Hfront.
  rewrite length_bytes_at in Hk, Hfree by lia. rewrite Z2Nat.id in Hk, Hfree by lia.
  destruct (write_in_region_from fd buffer n Hfd ltac:(lia) Hn63
              k fuel 0 f block pos a rpos)
    as (block' & pos' & Heq); rewrite ?Z.sub_0_r; try done; try lia.
  exists block', pos'. unfold storage_write_in_region.
  erewrite bind_eq
    by (eapply storage_initialized_mounted, mounted_at_cursor; done).
  cbn [negb]. rewrite Z.sub_0_r in Heq. exact Heq.
Qed.

(** *** Writes into the payload of a block leave the headers alone *)

Lemma header_at_patch_payload f block pos data j :
  0 ≤ block → 0 ≤ j → 0 ≤ pos →
  pos + Z.of_nat (length data) ≤ DEFAULT_BLOCK_SIZE →
  header_at (patch f (payload_offset block + pos) data) DEFAULT_BLOCK_SIZE j
  = header_at f DEFAULT_BLOCK_SIZE j.
Proof.
  intros. apply header_at_patch_outside; [geo|done|].
  destruct (decide (j ≤ block)); [right|left]; geo.
Qed.

Lemma frontier_patch_payload f block pos data a :
  0 ≤ block → 0 ≤ pos →
  pos + Z.of_nat (length data) ≤ DEFAULT_BLOCK_SIZE →
  frontier f a → 0 ≤ a →
  frontier (patch f (payload_offset block + pos) data) a.
Proof.
  intros ??? [Hused Hfree] ?.
  split; intros j Hj; rewrite header_at_patch_payload by lia; auto.
Qed.

Lemma frontier_allocated f a previous_block :
  0 ≤ a < DEFAULT_BLOCK_COUNT →
  Z.of_nat (length f) = block_offset DEFAULT_BLOCK_SIZE DEFAULT_BLOCK_COUNT →
  0 ≤ previous_block < 65536 →
  frontier f a →
  frontier
    (patch f (block_offset DEFAULT_BLOCK_SIZE a) (allocated_header previous_block))
    (a + 1).
Proof.
  intros Ha Hlen Hp [Hused Hfree]. split; intros j Hj.
  - destruct (decide (j = a)) as [->|Hne].
    + by rewrite next_of_allocated.
    + rewrite in_use_patch_outside
        by (rewrite ?length_allocated_header; geo).
      apply Hused. lia.
  - rewrite in_use_patch_outside by (rewrite ?length_allocated_header; geo).
    apply Hfree. lia.
Qed.

Lemma allocated_mounted s f a previous_block :
  mounted s f →
  mounted (allocated s f a previous_block)
    (patch f (block_offset DEFAULT_BLOCK_SIZE a)
       (allocated_header previous_block)).
Proof.
  intros [Hf Ho Hs Hc Hl]. split; unfold allocated; fields; try done.
  - by rewrite Hs.
  - by rewrite length_patch.
Qed.

Lemma storage_allocate_region_frontier s f a :
  mounted s f → frontier f a → 0 ≤ a < DEFAULT_BLOCK_COUNT →
  storage_allocate_region s = Done a (allocated s f a INVALID_BLOCK).
Proof.
  intros Hm Hfront Ha. unfold storage_allocate_region.
  erewrite bind_eq by (by eapply storage_initialized_mounted). cbn [negb].
  by apply allocate_block_frontier.
Qed.

Lemma bytes_at_prefix l l' :
  bytes_at (l ++ l') 0 (Z.of_nat (length l)) = l.
Proof.
  unfold bytes_at. rewrite Nat2Z.id. change (Z.to_nat 0) with 0%nat.
  cbn [drop skipn]. apply take_app_length.
Qed.

Lemma to_char_small z : -128 ≤ z < 128 → to_char z = z.
Proof. intros. unfold to_char. rewrite Z.mod_small; lia. Qed.

(** The scan for a free entry stops at a NUL type byte. *)
Lemma find_available_entry_here fuel fd f block pos rpos :
  (0 < fuel)%nat → fd ≠ -1 →
  Z.of_nat (length f) = block_offset DEFAULT_BLOCK_SIZE DEFAULT_BLOCK_COUNT →
  0 ≤ block < DEFAULT_BLOCK_COUNT →
  0 ≤ pos → pos + 1 < DEFAULT_BLOCK_SIZE →
  0 ≤ rpos → rpos + 1 < 2 ^ 64 →
  bytes_at f (payload_offset block + pos) 1 = [x00] →
  find_available_entry fuel (at_cursor fd f block pos rpos)
  = Done tt (at_cursor fd f block (pos + 1) (rpos + 1)).
Proof.
  intros Hfuel Hfd Hlen Hblock Hpos Hfit Hrpos Hrn Hnul.
  unfold find_available_entry.
  destruct fuel as [|fuel]; [lia|]. rewrite iter_succ.
  erewrite bind_eq by (apply read_scalar_in_block; try done; lia).
  change (Z.of_nat 1) with 1. rewrite Hnul. reflexivity.
Qed.

(** The first file created in an empty root directory, under a name
    of at most 100 bytes: its content is region 1, its metadata
    region 2, and the name takes the blocks from 3 on. *)
Lemma create_virtual_file_first fuel path s f :
  (11 < fuel)%nat → mounted s f → single_component path →
  (length path ≤ 100)%nat →
  frontier f 1 →
  bytes_at f (payload_offset root_directory_region_) 1 = [x00] →
  ∃ f' e,
    create_virtual_file fuel path s
    = Done {| content_region := 1; metadata_region := 2;
              file_length := 0; reader_position := 0 |} e
    ∧ mounted e f'
    ∧ one_block_region f' (3 + (9 + Z.of_nat (length path)) / DEFAULT_BLOCK_SIZE) 1.
Proof.
  intros Hfuel Hm Hpath HL Hfront Hempty.
  pose proof (mounted_length _ _ Hm) as Hlen.
  pose proof (mounted_open _ _ Hm) as Hfd.
  unfold create_virtual_file.
  erewrite bind_eq by (by apply navigate_to_root).
  cbn [directory_region remainder_of remainder_path].
  change (root_directory_region_ =? INVALID_REGION) with false. cbn iota.
  set (fd := storage_file_ s) in *.
  set (s0 := at_cursor fd f root_directory_region_ 0 0).
  assert (mounted s0 f) as Hm0 by (by apply mounted_at_cursor).
  (* the two regions *)
  erewrite bind_eq
    by (apply (storage_allocate_region_frontier s0 f 1); [done|done|geo]).
  change (1 =? INVALID_REGION) with false. cbn iota.
  set (f1 := patch f (block_offset DEFAULT_BLOCK_SIZE 1)
               (allocated_header INVALID_BLOCK)).
  assert (frontier f1 2) as Hfront1
    by (apply (frontier_allocated f 1); try done; geo).
  assert (Z.of_nat (length f1) = Z.of_nat (length f)) as Hl1
    by (subst f1; by rewrite length_patch).
  erewrite bind_eq; cycle 1.
  { apply (storage_allocate_region_frontier _ f1 2);
      [by apply allocated_mounted|done|geo]. }
  change (2 =? INVALID_REGION) with false. cbn iota.
  set (f2 := patch f1 (block_offset DEFAULT_BLOCK_SIZE 2)
               (allocated_header INVALID_BLOCK)).
  assert (frontier f2 3) as Hfront2
    by (apply (frontier_allocated f1 2); try done; geo).
  assert (Z.of_nat (length f2) = Z.of_nat (length f)) as Hl2
    by (subst f2; by rewrite length_patch).
  (* the entry in the root directory *)
  erewrite bind_eq; cycle 1.
  { apply (storage_jump_to_region_mounted _ f2);
      [by do 2 apply allocated_mounted|unfold root_directory_region_; geo]. }
  change (storage_file_ _) with fd. change root_directory_region_ with 0 in *.
  assert (bytes_at f2 (payload_offset 0 + 0) 1 = [x00]) as Hempty2.
  { subst f2 f1. rewrite !bytes_at_patch_ne by geo.
    by rewrite Z.add_0_r. }
  erewrite bind_eq by (apply find_available_entry_here; try done; geo).
  erewrite bind_eq by (apply storage_seek_back_one; geo).
  change (0 + 1 - 1) with 0.
  erewrite bind_eq by (apply storage_write_in_block; try done; geo).
  set (f3 := patch f2 _ _).
  assert (Z.of_nat (length f3) = Z.of_nat (length f)) as Hl3
    by (subst f3; by rewrite length_patch).
  erewrite bind_eq by (apply storage_write_in_block; try done; geo).
  set (f4 := patch f3 _ _).
  assert (Z.of_nat (length f4) = Z.of_nat (length f)) as Hl4
    by (subst f4; by rewrite length_patch).
  erewrite bind_eq by (apply storage_write_in_block; try done; geo).
  set (f5 := patch f4 _ _).
  assert (Z.of_nat (length f5) = Z.of_nat (length f)) as Hl5
    by (subst f5; by rewrite length_patch).
  (* the metadata region: length, length of the name, name *)
  erewrite bind_eq; cycle 1.
  { apply (storage_jump_to_region_mounted _ f5);
      [apply mounted_at_cursor; [done|lia]|geo]. }
  change (storage_file_ _) with fd.
  erewrite bind_eq by (apply storage_write_in_block; try done; geo).
  set (f6 := patch f5 _ _).
  assert (Z.of_nat (length f6) = Z.of_nat (length f)) as Hl6
    by (subst f6; by rewrite length_patch).
  assert (Z.of_nat (length path) ≤ 100) as HL' by lia.
  unfold remainder_path_length.
  rewrite (to_char_small (Z.of_nat (length path))) by lia.
  rewrite (to_size_t_small (Z.of_nat (length path))) by lia.
  erewrite bind_eq by (apply storage_write_in_block; try done; geo).
  set (f7 := patch f6 _ _).
  assert (Z.of_nat (length f7) = Z.of_nat (length f)) as Hl7
    by (subst f7; by rewrite length_patch).
  change (0 + 8 + 1) with 9.
  assert (frontier f7 3) as Hfront7.
  { subst f7 f6 f5 f4 f3.
    repeat (apply frontier_patch_payload;
            [lia|lia|rewrite length_bytes_at by (cbn [length le_encode]; lia); geo
            | |lia]).
    done. }
  assert (∀ j, 0 ≤ j → header_at f7 DEFAULT_BLOCK_SIZE j
                       = header_at f2 DEFAULT_BLOCK_SIZE j) as Hheaders.
  { intros j Hj. subst f7 f6 f5 f4 f3.
    rewrite !header_at_patch_payload
      by (rewrite ?length_bytes_at by (cbn [length le_encode]; lia); geo).
    done. }
  assert (next_of f7 2 = INVALID_BLOCK) as Hnext2.
  { unfold next_of. rewrite Hheaders by lia. subst f2.
    rewrite next_of_allocated; [done|geo|lia|geo]. }
  assert (next_of f7 1 = INVALID_BLOCK) as Hnext1.
  { unfold next_of. rewrite Hheaders by lia. subst f2.
    rewrite header_at_patch_outside
      by (rewrite ?length_allocated_header; geo).
    subst f1. rewrite next_of_allocated; [done|geo|lia|geo]. }
  pose proof (bytes_at_prefix path [x00]) as Hdata.
  assert (writable 10 f7 2 9 3
            (bytes_at (path ++ [x00]) 0 (Z.of_nat (length path)))) as Hw.
  { rewrite Hdata. unfold writable.
    assert ((9 + Z.of_nat (length path)) / DEFAULT_BLOCK_SIZE < 11)
      by (apply Z.div_lt_upper_bound; geo).
    repeat split; try lia; geo. }
  destruct (storage_write_appends 10 fuel fd (path ++ [x00])
              (Z.of_nat (length path)) f7 2 9 3 9)
    as (block' & pos' & Heq); try done; try lia.
  { rewrite length_app. cbn [length]. lia. }
  rewrite Hdata in Heq, Hw.
  eexists _, _. split; [|split].
  - erewrite bind_eq by exact Heq. reflexivity.
  - apply mounted_at_cursor; [done|]. rewrite length_written. lia.
  - split.
    + rewrite length_written. lia.
    + by apply written_frontier.
    + assert (0 ≤ (9 + Z.of_nat (length path)) / DEFAULT_BLOCK_SIZE)
        by (apply Z.div_pos; geo).
      lia.
    + unfold next_of, header_at. cbn [next_block].
      rewrite written_frame; [exact Hnext1|done|geo|lia|geo|left; geo].
Qed.

Tactic Notation "fsfields" :=
  cbn [engine descriptors_ last_used_descriptor_ set_engine set_descriptors_
       set_last_used_descriptor_ content_region metadata_region file_length
       reader_position set_content_region set_file_length set_reader_position].
Tactic Notation "fsfields" "in" "*" :=
  cbn [engine descriptors_ last_used_descriptor_ set_engine set_descriptors_
       set_last_used_descriptor_ content_region metadata_region file_length
       reader_position set_content_region set_file_length set_reader_position]
    in *.
(** ** Writing to a new file and reading it back *)

(** A write of [data] to a descriptor of an empty file whose content
    region is a single block at the end of which the free blocks can
    take the data. *)
Lemma write_virtual_appends fuel fd data s f a content metadata :
  mounted (engine s) f →
  one_block_region f a content →
  descriptor fd (descriptors_ s)
  = Some {| content_region := content; metadata_region := metadata;
            file_length := 0; reader_position := 0 |} →
  last_used_descriptor_ s ≠ fd →
  0 ≤ metadata < a → metadata ≠ content →
  a + Z.of_nat (length data) / DEFAULT_BLOCK_SIZE ≤ DEFAULT_BLOCK_COUNT →
  (Z.to_nat (Z.of_nat (length data) / DEFAULT_BLOCK_SIZE) < fuel)%nat →
  ∃ f' s',
    write_virtual fuel fd data (Z.of_nat (length data)) s
    = Done (Z.of_nat (length data)) s'
    ∧ mounted (engine s') f'
    ∧ holds f' a content 0 data
    ∧ descriptor fd (descriptors_ s')
      = Some {| content_region := content; metadata_region := metadata;
                file_length := Z.of_nat (length data) + 1;
                reader_position := Z.of_nat (length data) |}
    ∧ last_used_descriptor_ s' = -1.
Proof.
  intros Hm [Hlen Hfront Hcontent Hlast] Hdesc Hused Hmeta Hne Hfree Hfuel.
  destruct s as [e ds last]. fsfields in *.
  pose proof (mounted_open _ _ Hm) as Hfd.
  set (n := Z.of_nat (length data)) in *.
  assert (0 ≤ n / DEFAULT_BLOCK_SIZE) as Hq by (apply Z.div_pos; geo).
  assert (n < DEFAULT_BLOCK_SIZE * DEFAULT_BLOCK_COUNT) as Hn.
  { assert (n / DEFAULT_BLOCK_SIZE < DEFAULT_BLOCK_COUNT) as Hlt by lia.
    unfold DEFAULT_BLOCK_SIZE, DEFAULT_BLOCK_COUNT in *.
    pose proof (Z.mul_succ_div_gt n 10 ltac:(lia)). lia. }
  unfold write_virtual.
  erewrite bind_eq by reflexivity. fsfields. rewrite Hdesc.
  (* the engine moves to the start of the content region *)
  erewrite bind_eq; cycle 1.
  { unfold jump_to_file_if_needed.
    erewrite bind_eq by reflexivity. fsfields.
    destruct (last =? fd) eqn:E; [lia|clear E].
    erewrite bind_eq by (by apply deref_eq). fsfields.
    erewrite bind_eq
      by (apply lift_eq, (storage_jump_to_region_mounted _ f); [done|geo]).
    fsfields. change (to_off_t 0) with 0.
    erewrite bind_eq
      by (apply lift_eq, storage_seek_zero; try done; lia).
    reflexivity. }
  fsfields.
  (* the data go to the content region *)
  set (k := Z.to_nat (n / DEFAULT_BLOCK_SIZE)) in *.
  assert (bytes_at data 0 n = data) as Hdata by apply bytes_at_all.
  assert (writable k f content 0 a data) as Hw.
  { pose proof (Z.mul_succ_div_gt n DEFAULT_BLOCK_SIZE ltac:(geo)).
    unfold writable. fold n. subst k. rewrite Z2Nat.id, !Z.add_0_l by done.
    repeat split; try lia; geo. }
  destruct (storage_write_appends k fuel (storage_file_ e) data n f content 0 a 0)
    as (block' & pos' & Hwrite); rewrite ?Hdata; try done; try geo.
  rewrite Hdata in Hwrite.
  set (f1 := written k f content 0 a data) in *.
  assert (Z.of_nat (length f1) = Z.of_nat (length f)) as Hl1
    by (subst f1; by rewrite length_written).
  erewrite bind_eq by (apply lift_eq; exact Hwrite). fsfields.
  erewrite bind_eq by (by apply deref_eq). fsfields.
  rewrite (to_size_t_small (0 + n)) by geo.
  erewrite bind_eq by reflexivity. fsfields.
  destruct (0 <=? 0 + n) eqn:E; [clear E|lia].
  rewrite (to_size_t_small (0 + n + 1)) by geo.
  (* the new length goes to the metadata region *)
  erewrite bind_eq; cycle 1.
  { erewrite bind_eq by reflexivity. fsfields.
    unfold update_virtual_file_metadata.
    erewrite bind_eq; cycle 1.
    { apply lift_eq. fsfields.
      apply (storage_jump_to_region_mounted _ f1);
        [apply mounted_at_cursor; [done|lia]|geo]. }
    fsfields. change (storage_file_ _) with (storage_file_ e).
    erewrite bind_eq
      by (apply lift_eq, storage_write_in_block; try done; try geo;
          rewrite length_le_encode; lia).
    reflexivity. }
  fsfields.
  rewrite to_off_t_small by geo.
  eexists _, _. split; [reflexivity|]. fsfields.
  rewrite !Z.add_0_l.
  assert (Z.of_nat (length (bytes_at (le_encode 8 (n + 1)) 0 8)) = 8) as Hl8
    by (rewrite length_bytes_at; rewrite ?length_le_encode; lia).
  split; [|split; [|split]].
  - apply mounted_at_cursor; [done|]. rewrite length_patch. lia.
  - eapply holds_frame; [by apply written_holds|lia|lia|geo|].
    intros off m Hoff Hm' Hin. apply bytes_at_patch_ne; [geo|done|].
    rewrite Hl8. destruct (decide (metadata < content)); destruct Hin; geo.
  - erewrite descriptor_insert_eq; [done|].
    by erewrite descriptor_insert_eq.
  - done.
Qed.

(** Seeking back to the start. *)
Lemma seek_virtual_start fd s file :
  descriptor fd (descriptors_ s) = Some file →
  0 ≤ file_length file →
  ∃ s',
    seek_virtual fd 0 SEEK_SET s = Done 0 s'
    ∧ engine s' = engine s
    ∧ last_used_descriptor_ s' = last_used_descriptor_ s
    ∧ descriptor fd (descriptors_ s') = Some (set_reader_position 0 file).
Proof.
  intros Hdesc Hlength. destruct s as [e ds last]. fsfields in *.
  unfold seek_virtual.
  erewrite bind_eq by reflexivity. fsfields. rewrite Hdesc.
  change (SEEK_SET =? SEEK_SET) with true. cbn iota.
  change (0 <? 0) with false. cbn iota.
  change (to_size_t 0) with 0.
  destruct (file_length file <? 0) eqn:E; [lia|clear E].
  erewrite bind_eq by reflexivity. fsfields.
  assert (descriptor fd (<[Z.to_nat fd := Some (set_reader_position 0 file)]> ds)
          = Some (set_reader_position 0 file)) as Hstored
    by (by erewrite descriptor_insert_eq).
  erewrite bind_eq by (by apply deref_eq).
  destruct file. fsfields. eexists. by split.
Qed.

(** Reading from the start of a file what its content region holds. *)
Lemma read_virtual_holds fuel fd data s f lo file :
  mounted (engine s) f →
  holds f lo (content_region file) 0 data →
  0 ≤ lo → 0 ≤ content_region file < DEFAULT_BLOCK_COUNT →
  descriptor fd (descriptors_ s) = Some file →
  last_used_descriptor_ s ≠ fd →
  reader_position file = 0 →
  Z.of_nat (length data) ≤ file_length file →
  Z.of_nat (length data) < 2 ^ 63 →
  (length data < fuel)%nat →
  value_of (read_virtual fuel fd (Z.of_nat (length data)) s)
  = Some (Z.of_nat (length data), data).
Proof.
  intros Hm Hholds Hlo Hcontent Hdesc Hused Hpos Hlength Hn Hfuel.
  destruct s as [e ds last]. destruct file as [content metadata len pos].
  fsfields in *. subst pos.
  pose proof (mounted_open _ _ Hm) as Hfd.
  pose proof (mounted_length _ _ Hm) as Hlen.
  set (n := Z.of_nat (length data)) in *.
  unfold read_virtual.
  erewrite bind_eq by reflexivity. fsfields. rewrite Hdesc.
  erewrite bind_eq; cycle 1.
  { unfold jump_to_file_if_needed.
    erewrite bind_eq by reflexivity. fsfields.
    destruct (last =? fd) eqn:E; [lia|clear E].
    erewrite bind_eq by (by apply deref_eq). fsfields.
    erewrite bind_eq
      by (apply lift_eq, (storage_jump_to_region_mounted _ f); [done|geo]).
    fsfields. change (to_off_t 0) with 0.
    erewrite bind_eq
      by (apply lift_eq, storage_seek_zero; try done; lia).
    reflexivity. }
  fsfields.
  erewrite bind_eq by (by apply deref_eq). fsfields.
  rewrite Z.add_0_l, (to_size_t_small n) by lia.
  destruct (len <? n) eqn:E; [lia|clear E].
  destruct (storage_read_holds (storage_file_ e) f lo Hfd Hlen Hlo
              fuel content data 0)
    as (block' & pos' & Hread); try done; try lia.
  erewrite bind_eq by (apply lift_eq; exact Hread). fsfields.
  cbn [snd]. unfold n at 1. rewrite Nat2Z.id.
  destruct (length data <? length data)%nat eqn:E;
    [apply Nat.ltb_lt in E; lia|clear E].
  erewrite bind_eq by reflexivity.
  unfold ret, value_of. by rewrite to_off_t_small by lia.
Qed.

(** *** The freshly formatted backing file *)

Lemma ensure_initialized_fresh :
  ensure_initialized (Storage.initial None) = Done tt formatted_engine.
Proof. by vm_compute. Qed.

Lemma formatted_mounted : mounted formatted_engine formatted_file.
Proof. split; by vm_compute. Qed.

Lemma formatted_frontier : frontier formatted_file 1.
Proof. apply frontierb_frontier; [geo|by vm_compute]. Qed.

Lemma formatted_root_empty :
  bytes_at formatted_file (payload_offset root_directory_region_) 1 = [x00].
Proof. by vm_compute. Qed.

Lemma first_available_here n i ds :
  ds !! Z.to_nat i = Some None → first_available (S n) i ds = i.
Proof. intros H. cbn [first_available]. by rewrite H. Qed.

(** The first [open_virtual] of a process, with [O_CREAT], on a host
    without backing file: the file becomes descriptor 0, with content
    region 1 and metadata region 2. *)
Lemma open_virtual_first fuel path :
  (11 < fuel)%nat → single_component path → (length path ≤ 100)%nat →
  ∃ f s,
    open_virtual fuel path O_CREAT fresh = Done 0 s
    ∧ mounted (engine s) f
    ∧ one_block_region f
        (3 + (9 + Z.of_nat (length path)) / DEFAULT_BLOCK_SIZE) 1
    ∧ descriptor 0 (descriptors_ s)
      = Some {| content_region := 1; metadata_region := 2;
                file_length := 0; reader_position := 0 |}
    ∧ last_used_descriptor_ s = -1.
Proof.
  intros Hfuel Hpath HL.
  destruct (create_virtual_file_first fuel path
              (at_cursor (storage_file_ formatted_engine) formatted_file
                 root_directory_region_ 1 1) formatted_file Hfuel
              (mounted_at_cursor _ _ _ _ _
                 (mounted_open _ _ formatted_mounted)
                 (mounted_length _ _ formatted_mounted))
              Hpath HL formatted_frontier formatted_root_empty)
    as (f & e & Hcreate & Hm & Hregion).
  exists f. unfold open_virtual, fresh, FileSystem.initial.
  erewrite bind_eq by (apply lift_eq, ensure_initialized_fresh). fsfields.
  erewrite bind_eq by reflexivity. fsfields.
  change (Z.to_nat MAX_DESCRIPTORS) with (S 255).
  rewrite first_available_here by reflexivity.
  change (0 =? -1) with false. cbn iota.
  erewrite bind_eq by reflexivity. fsfields.
  erewrite bind_eq; cycle 1.
  { apply lift_eq, (find_virtual_file_empty_root _ _ _ formatted_file);
      [lia|apply formatted_mounted|done|apply formatted_root_empty]. }
  fsfields.
  erewrite bind_eq; cycle 1.
  { cbn [content_region invalid_file].
    change (INVALID_REGION =? INVALID_REGION) with true.
    change (Z.land O_CREAT O_CREAT =? 0) with false. cbn iota.
    erewrite bind_eq by (apply lift_eq; exact Hcreate).
    reflexivity. }
  cbn iota beta.
  erewrite bind_eq by reflexivity. fsfields.
  change (Z.land O_CREAT O_TRUNC =? 0) with true.
  change (Z.land O_CREAT O_APPEND =? 0) with true. cbn [negb].
  erewrite bind_eq by reflexivity.
  eexists. split; [reflexivity|]. fsfields.
  split; [exact Hm|]. split; [exact Hregion|]. split; reflexivity.
Qed.

(** ** The round trip (C3) *)

(** C3 fails as claimed: created under a name of 101 bytes, the file
    takes 1150 bytes before the storage is full.  With 1152 bytes of
    data, [read_virtual] returns 1152 and delivers the first 1150
    bytes only. *)
Lemma round_trip_fails_long_name :
  value_of (round_trip 1153 long_name full_data fresh)
  = Some (1152, replicate 1150 "x"%byte)
  ∧ ¬ round_trip_claim.
Proof.
  assert (value_of (round_trip 1153 long_name full_data fresh)
          = Some (1152, replicate 1150 "x"%byte)) as Hrun
    by (vm_compute; reflexivity).
  split; [exact Hrun|]. intros H.
  specialize (H 1153%nat long_name full_data 0
                (after (open_virtual 1153 long_name O_CREAT) fresh)).
  rewrite Hrun in H.
  assert (Some (1152, replicate 1150 "x"%byte)
          = Some (Z.of_nat (length full_data), full_data)) as Heq.
  { apply H.
    - lia.
    - vm_compute. reflexivity.
    - lia.
    - vm_compute. discriminate. }
  apply (f_equal (λ o, match o with
                       | Some r => Z.of_nat (length r.2)
                       | None => 0
                       end)) in Heq.
  cbn [snd] in Heq. unfold full_data in Heq.
  rewrite !length_replicate in Heq. lia.
Qed.

(** C3, amended: on a fresh storage, for a file created under a name
    of at most 100 bytes (one path component), every byte sequence of
    at most 0.9 * 10 * 128 = 1152 bytes that is written to the file is
    read back from offset 0: [read_virtual] returns its length and
    delivers exactly these bytes. *)
Theorem round_trip_short_name fuel path data :
  (1152 < fuel)%nat →
  single_component path → (length path ≤ 100)%nat →
  10 * Z.of_nat (length data) ≤ 9 * (DEFAULT_BLOCK_SIZE * DEFAULT_BLOCK_COUNT) →
  value_of (round_trip fuel path data fresh)
  = Some (Z.of_nat (length data), data).
Proof.
  intros Hfuel Hpath HL Hdata.
  assert (Z.of_nat (length data) ≤ 1152) as Hn by geo.
  assert (0 ≤ Z.of_nat (length data) / DEFAULT_BLOCK_SIZE < 116) as Hblocks
    by (split; [apply Z.div_pos|apply Z.div_lt_upper_bound]; geo).
  assert (0 ≤ (9 + Z.of_nat (length path)) / DEFAULT_BLOCK_SIZE < 11) as Hname
    by (split; [apply Z.div_pos|apply Z.div_lt_upper_bound]; geo).
  destruct (open_virtual_first fuel path)
    as (f & s & Hopen & Hm & Hregion & Hdesc & Hlast); [lia|done|done|].
  destruct (write_virtual_appends fuel 0 data s f _ 1 2 Hm Hregion Hdesc)
    as (f' & s' & Hwrite & Hm' & Hholds & Hdesc' & Hlast'); try geo.
  destruct (seek_virtual_start 0 s' _ Hdesc')
    as (s'' & Hseek & Hengine & Hlast'' & Hdesc''); [cbn; lia|].
  unfold round_trip.
  erewrite bind_eq by exact Hopen.
  erewrite bind_eq by exact Hwrite.
  erewrite bind_eq by exact Hseek.
  apply (read_virtual_holds fuel 0 data s'' f'
           (3 + (9 + Z.of_nat (length path)) / DEFAULT_BLOCK_SIZE)
           (set_reader_position 0
              {| content_region := 1; metadata_region := 2;
                 file_length := Z.of_nat (length data) + 1;
                 reader_position := Z.of_nat (length data) |}));
    cbn [content_region file_length reader_position set_reader_position];
    try done; try geo.
  by rewrite Hengine.
Qed.

Lemma round_trip_short_name_witness :
  value_of (round_trip 1153 (path_of "f") (path_of "hello") fresh)
  = Some (5, path_of "hello").
Proof.
  apply (round_trip_short_name 1153 (path_of "f") (path_of "hello")).
  - lia.
  - repeat constructor; discriminate.
  - vm_compute. lia.
  - vm_compute. discriminate.
Defined.

(** * Further properties of the code *)

(** ** The descriptor table *)

Lemma descriptor_insert_ne fd fd' ds g :
  fd' ≠ fd → 0 ≤ fd →
  descriptor fd' (<[Z.to_nat fd := g]> ds) = descriptor fd' ds.
Proof.
  intros Hne Hfd. unfold descriptor.
  destruct (fd' <? 0) eqn:E; [done|]. cbn [orb].
  destruct (MAX_DESCRIPTORS <=? fd'); [done|].
  rewrite list_lookup_insert_ne by lia. done.
Qed.

Lemma descriptor_nonneg fd ds f : descriptor fd ds = Some f → 0 ≤ fd.
Proof. intros [? _]%descriptor_Some. lia. Qed.

(** X1: [close_virtual] always returns.  It empties the slot of its
    descriptor and nothing else: the other descriptors, the engine and
    the last-used mark stay as they are; on a descriptor that is out of
    range or not open it changes nothing at all. *)
Theorem close_virtual_frees_slot fd s :
  ∃ s',
    close_virtual fd s = Done tt s'
    ∧ descriptor fd (descriptors_ s') = None
    ∧ (∀ fd', fd' ≠ fd →
         descriptor fd' (descriptors_ s') = descriptor fd' (descriptors_ s))
    ∧ engine s' = engine s
    ∧ last_used_descriptor_ s' = last_used_descriptor_ s
    ∧ (descriptor fd (descriptors_ s) = None → s' = s).
Proof.
  destruct s as [e ds last]. unfold close_virtual.
  erewrite bind_eq by reflexivity. fsfields.
  destruct (descriptor fd ds) as [f|] eqn:Hfd.
  - eexists. split; [reflexivity|]. fsfields.
    split; [by erewrite descriptor_insert_eq|].
    split; [|done].
    intros fd' Hne. apply descriptor_insert_ne; [done|].
    by eapply descriptor_nonneg.
  - eexists. split; [reflexivity|]. by fsfields.
Qed.

(** X2: on a descriptor that is out of range or not open,
    [read_virtual] returns 0 and delivers nothing, [write_virtual]
    returns 0, [seek_virtual] returns -1, and none of them changes the
    state. *)
Theorem invalid_descriptor_is_rejected fuel fd buffer n offset whence s :
  descriptor fd (descriptors_ s) = None →
  read_virtual fuel fd n s = Done (0, []) s
  ∧ write_virtual fuel fd buffer n s = Done 0 s
  ∧ seek_virtual fd offset whence s = Done (-1) s.
Proof.
  intros Hfd. unfold read_virtual, write_virtual, seek_virtual.
  repeat split; erewrite bind_eq by reflexivity; by rewrite Hfd.
Qed.

Lemma invalid_descriptor_is_rejected_witness :
  read_virtual 200 256 5 with_empty_file = Done (0, []) with_empty_file
  ∧ write_virtual 200 256 (path_of "hello") 5 with_empty_file
    = Done 0 with_empty_file
  ∧ seek_virtual 256 0 SEEK_SET with_empty_file = Done (-1) with_empty_file.
Proof.
  apply (invalid_descriptor_is_rejected 200 256 (path_of "hello") 5 0 SEEK_SET
           with_empty_file).
  reflexivity.
Defined.

(** The scan of [open_virtual]: -1 when no slot from [i] on is empty,
    otherwise the first empty one. *)
Lemma first_available_spec n : ∀ i ds,
  0 ≤ i →
  (first_available n i ds = -1
   ∧ ∀ j, i ≤ j < i + Z.of_nat n → is_null (ds !! Z.to_nat j) = false)
  ∨ (i ≤ first_available n i ds < i + Z.of_nat n
     ∧ is_null (ds !! Z.to_nat (first_available n i ds)) = true
     ∧ ∀ j, i ≤ j < first_available n i ds →
            is_null (ds !! Z.to_nat j) = false).
Proof.
  induction n as [|n IH]; intros i ds Hi; cbn [first_available].
  - left. split; [done|]. intros j Hj. lia.
  - destruct (is_null (ds !! Z.to_nat i)) eqn:E.
    + right. split; [lia|]. split; [done|]. intros j Hj. lia.
    + destruct (IH (i + 1) ds ltac:(lia)) as [[-> Hfull]|(Hr & Hnull & Hlow)].
      * left. split; [done|]. intros j Hj.
        destruct (decide (j = i)) as [->|]; [done|]. apply Hfull. lia.
      * right. split; [lia|]. split; [done|]. intros j Hj.
        destruct (decide (j = i)) as [->|]; [done|]. apply Hlow. lia.
Qed.

Lemma is_null_descriptor ds j :
  length ds = Z.to_nat MAX_DESCRIPTORS → 0 ≤ j < MAX_DESCRIPTORS →
  is_null (ds !! Z.to_nat j) = true ↔ descriptor j ds = None.
Proof.
  intros Hlen Hj. unfold descriptor.
  destruct (j <? 0) eqn:E1; [lia|]. destruct (MAX_DESCRIPTORS <=? j) eqn:E2; [lia|].
  cbn [orb].
  destruct (ds !! Z.to_nat j) as [[f|]|] eqn:E; cbn [is_null]; try done.
  apply lookup_ge_None in E. lia.
Qed.



(** X4: when all 256 descriptors are open, [open_virtual] returns -1
    once the engine is initialised: it neither looks the path up nor
    creates a file, whatever the flags. *)
Theorem open_virtual_full_table fuel path flags s e :
  length (descriptors_ s) = Z.to_nat MAX_DESCRIPTORS →
  (∀ j, 0 ≤ j < MAX_DESCRIPTORS → descriptor j (descriptors_ s) ≠ None) →
  ensure_initialized (engine s) = Done tt e →
  open_virtual fuel path flags s = Done (-1) (set_engine e s).
Proof.
  intros Hlen Hfull Hinit. unfold open_virtual.
  erewrite bind_eq by (apply lift_eq; exact Hinit).
  erewrite bind_eq by reflexivity. rewrite descriptors_set_engine.
  destruct (first_available_spec (Z.to_nat MAX_DESCRIPTORS) 0 (descriptors_ s)
              ltac:(lia)) as [[-> _]|(Hr & Hnull & _)]; [done|].
  rewrite Z2Nat.id in Hr by (unfold MAX_DESCRIPTORS; lia).
  apply is_null_descriptor in Hnull; [|done|lia].
  by apply Hfull in Hnull.
Qed.
Lemma open_virtual_full_table_witness :
  open_virtual 200 (path_of "g") O_CREAT with_full_table
  = Done (-1) (set_engine (engine with_full_table) with_full_table).
Proof.
  apply (open_virtual_full_table 200 (path_of "g") O_CREAT with_full_table).
  - unfold with_full_table. rewrite descriptors_set_descriptors.
    apply length_replicate.
  - intros j Hj. unfold with_full_table. rewrite descriptors_set_descriptors.
    unfold descriptor.
    destruct (j <? 0) eqn:E1; [lia|].
    destruct (MAX_DESCRIPTORS <=? j) eqn:E2; [lia|]. cbn [orb].
    rewrite lookup_replicate_2 by lia. discriminate.
  - vm_compute. reflexivity.
Defined.

(** ** Reading and writing through a descriptor *)







(** ** The engine before and at its initialisation *)

(** X8: while the engine is not initialised, each of its public
    functions returns its failure value and changes nothing:
    [INVALID_REGION] for an allocation, -1 for freeing and for jumping,
    0 bytes for reading and for writing, and the region position, as it
    is, for seeking. *)
Theorem storage_uninitialized_rejects fuel region buffer n_bytes offset s :
  storage_file_ s = -1 →
  storage_allocate_region s = Done INVALID_REGION s
  ∧ storage_free_region fuel region s = Done (-1) s
  ∧ storage_jump_to_region region s = Done (-1) s
  ∧ storage_read_in_region fuel n_bytes s = Done (0, []) s
  ∧ storage_write_in_region fuel buffer n_bytes s = Done 0 s
  ∧ storage_seek_in_region fuel offset s = Done (current_region_position_ s) s.
Proof.
  intros Hfd.
  assert (storage_initialized s = Done false s) as Hinit
    by (unfold storage_initialized, gets; by rewrite Hfd).
  unfold storage_allocate_region, storage_free_region, storage_jump_to_region,
    storage_read_in_region, storage_write_in_region, storage_seek_in_region.
  repeat split; by erewrite bind_eq by exact Hinit.
Qed.

Lemma storage_uninitialized_rejects_witness :
  storage_allocate_region (Storage.initial None)
  = Done INVALID_REGION (Storage.initial None)
  ∧ storage_free_region 200 1 (Storage.initial None)
    = Done (-1) (Storage.initial None)
  ∧ storage_jump_to_region 1 (Storage.initial None)
    = Done (-1) (Storage.initial None)
  ∧ storage_read_in_region 200 5 (Storage.initial None)
    = Done (0, []) (Storage.initial None)
  ∧ storage_write_in_region 200 (path_of "hello") 5 (Storage.initial None)
    = Done 0 (Storage.initial None)
  ∧ storage_seek_in_region 200 3 (Storage.initial None)
    = Done (current_region_position_ (Storage.initial None))
        (Storage.initial None).
Proof.
  apply (storage_uninitialized_rejects 200 1 (path_of "hello") 5 3
           (Storage.initial None)).
  reflexivity.
Defined.

(** X9: [storage_initialize] on a backing file that exists (and has
    its four header bytes) returns 0 without changing the file, and
    takes the block size and the block count from these bytes; a second
    call returns -1 and changes nothing. *)
Theorem storage_initialize_existing s f :
  storage_file_ s = -1 → host_file s = Some f → (4 ≤ length f)%nat →
  ∃ s',
    storage_initialize s = Done 0 s'
    ∧ host_file s' = Some f
    ∧ storage_file_ s' ≠ -1
    ∧ active_block_size_ s' = le_decode (bytes_at f 0 2)
    ∧ active_block_count_ s' = le_decode (bytes_at f 2 2)
    ∧ storage_initialize s' = Done (-1) s'.
Proof.
  intros Hfd Hf Hlen. unfold storage_initialize at 1.
  rewrite (bind_eq _ _ s false s)
    by (unfold storage_initialized, gets; by rewrite Hfd).
  cbn beta iota.
  erewrite bind_eq by (unfold host_open; by rewrite Hf).
  erewrite bind_eq by reflexivity.
  change (3 =? -1) with false. cbn beta iota.
  erewrite bind_eq; cycle 1.
  { unfold read_active_header.
    erewrite bind_eq
      by (apply (host_read_in_bounds _ f); destruct s; fields; try done; lia).
    erewrite bind_eq
      by (apply (host_read_in_bounds _ f); destruct s; fields; try done; lia).
    reflexivity. }
  eexists. split; [reflexivity|]. destruct s. fields.
  repeat split; try done.
Qed.

Lemma storage_initialize_existing_witness :
  ∃ s',
    storage_initialize (Storage.initial (Some [x03; x00; x02; x00])) = Done 0 s'
    ∧ host_file s' = Some [x03; x00; x02; x00]
    ∧ storage_file_ s' ≠ -1
    ∧ active_block_size_ s' = le_decode (bytes_at [x03; x00; x02; x00] 0 2)
    ∧ active_block_count_ s' = le_decode (bytes_at [x03; x00; x02; x00] 2 2)
    ∧ storage_initialize s' = Done (-1) s'.
Proof.
  apply (storage_initialize_existing
           (Storage.initial (Some [x03; x00; x02; x00]))
           [x03; x00; x02; x00]).
  - reflexivity.
  - reflexivity.
  - cbn [length]. lia.
Defined.

(** ** Moving inside the backing file *)

(** X10: on an initialised engine, [storage_jump_to_region] returns 0
    for every region.  For a block the file has, the engine stands at
    the start of its payload with its header cached; for any other
    value, [INVALID_REGION] included, the engine stays in the block it
    was in.  In both cases the region position is reset to 0. *)
Theorem storage_jump_to_region_cases s f region :
  storage_file_ s ≠ -1 → host_file s = Some f →
  geometry (active_block_size_ s) (active_block_count_ s) f →
  0 ≤ region →
  storage_jump_to_region region s
  = Done 0
      (set_current_region_position_ 0
         (if region <? active_block_count_ s then jumped s f region else s)).
Proof.
  intros Hfd Hf Hgeo Hregion. unfold storage_jump_to_region.
  erewrite bind_eq
    by (unfold storage_initialized, gets; by apply Z.eqb_neq in Hfd as ->).
  cbn [negb].
  destruct (region <? active_block_count_ s) eqn:E.
  - erewrite bind_eq by (apply (jump_to_block_in_range _ f); try done; lia).
    reflexivity.
  - erewrite bind_eq; cycle 1.
    { unfold jump_to_block. erewrite bind_eq by reflexivity.
      destruct (_ <=? _) eqn:E'; [reflexivity|lia]. }
    reflexivity.
Qed.

Lemma storage_jump_to_region_cases_witness :
  storage_jump_to_region INVALID_REGION formatted_engine
  = Done 0
      (set_current_region_position_ 0
         (if INVALID_REGION <? active_block_count_ formatted_engine
          then jumped formatted_engine formatted_file INVALID_REGION
          else formatted_engine)).
Proof.
  apply (storage_jump_to_region_cases formatted_engine formatted_file
           INVALID_REGION).
  - vm_compute. discriminate.
  - vm_compute. reflexivity.
  - apply mounted_geometry, formatted_mounted.
  - vm_compute. discriminate.
Defined.

(** X11: a backward [storage_seek_in_region] never leaves the current
    block.  The guard of its loop is evaluated in [size_t] and is never
    true, so for every negative offset the block index and the cached
    header stay, the position in the block becomes [pos + offset]
    reduced to [size_t] (a huge value when the offset reaches before the
    payload), and the file offset moves back by the same amount, unless
    that is before the start of the file. *)
Theorem storage_seek_backward_stays_in_block fuel offset s :
  (0 < fuel)%nat → storage_file_ s ≠ -1 → - 2 ^ 63 ≤ offset < 0 →
  ∃ s',
    storage_seek_in_region fuel offset s
    = Done (to_size_t (current_region_position_ s + offset)) s'
    ∧ current_block_index_ s' = current_block_index_ s
    ∧ current_block_ s' = current_block_ s
    ∧ current_block_position_ s'
      = to_size_t (current_block_position_ s + offset)
    ∧ host_file s' = host_file s
    ∧ host_offset s'
      = (if host_offset s + offset <? 0 then host_offset s
         else host_offset s + offset).
Proof.
  intros Hfuel Hfd Hoffset. destruct fuel as [|fuel]; [lia|].
  assert (host_lseek_cur offset s
          = Done tt (if host_offset s + offset <? 0 then s
                     else set_host (host_file s) (host_offset s + offset) s))
    as Hseek
    by (unfold host_lseek_cur, host_lseek; by destruct (_ <? 0)).
  unfold storage_seek_in_region.
  erewrite bind_eq
    by (unfold storage_initialized, gets; by apply Z.eqb_neq in Hfd as ->).
  cbn [negb].
  destruct (0 <? offset) eqn:E1; [lia|]. destruct (offset <? 0) eqn:E2; [|lia].
  erewrite bind_eq; cycle 1.
  { erewrite bind_eq; cycle 1.
    { rewrite iter_succ.
      erewrite bind_eq by reflexivity. erewrite bind_eq by reflexivity.
      pose proof (to_size_t_range (current_block_position_ s + offset - 0)).
      destruct (to_size_t _ <? 0) eqn:E; [exfalso; lia|]. reflexivity. }
    rewrite Z.sub_0_r, (to_off_t_small offset) by lia.
    erewrite bind_eq by exact Hseek.
    erewrite bind_eq by reflexivity. reflexivity. }
  erewrite bind_eq by reflexivity. erewrite bind_eq by reflexivity.
  unfold gets. clear Hseek. destruct s. fields.
  destruct (_ + offset <? 0); fields;
    (eexists; split; [reflexivity|]); fields; by rewrite ?Z.sub_0_r.
Qed.

Lemma storage_seek_backward_stays_in_block_witness :
  ∃ s',
    storage_seek_in_region 200 (-25)
      (after (storage_jump_to_region 1) formatted_engine)
    = Done (to_size_t
              (current_region_position_
                 (after (storage_jump_to_region 1) formatted_engine) + -25)) s'
    ∧ current_block_index_ s'
      = current_block_index_ (after (storage_jump_to_region 1) formatted_engine)
    ∧ current_block_ s'
      = current_block_ (after (storage_jump_to_region 1) formatted_engine)
    ∧ current_block_position_ s'
      = to_size_t
          (current_block_position_
             (after (storage_jump_to_region 1) formatted_engine) + -25)
    ∧ host_file s'
      = host_file (after (storage_jump_to_region 1) formatted_engine)
    ∧ host_offset s'
      = (if host_offset (after (storage_jump_to_region 1) formatted_engine)
            + -25 <? 0
         then host_offset (after (storage_jump_to_region 1) formatted_engine)
         else host_offset (after (storage_jump_to_region 1) formatted_engine)
              + -25).
Proof.
  apply (storage_seek_backward_stays_in_block 200 (-25)
           (after (storage_jump_to_region 1) formatted_engine)).
  - lia.
  - vm_compute. discriminate.
  - lia.
Defined.

(** ** Regions as byte streams *)

(** X12: the engine's round trip.  On a backing file whose blocks
    below [a] are in use (flag byte 1) and whose blocks from [a] on are
    free (flag byte 0), for a region that ends in its first block and
    data that the free blocks can take: writing [data] from the start
    of the region and reading as many bytes from its start again
    returns the length of [data] and delivers [data], across all the
    blocks the write appended. *)
Theorem storage_round_trip fuel s f a region data :
  mounted s f → one_block_region f a region →
  a + Z.of_nat (length data) / DEFAULT_BLOCK_SIZE ≤ DEFAULT_BLOCK_COUNT →
  (length data < fuel)%nat →
  value_of
    ((storage_jump_to_region region;;
      storage_write_in_region fuel data (Z.of_nat (length data));;
      storage_jump_to_region region;;
      storage_read_in_region fuel (Z.of_nat (length data))) s)
  = Some (Z.of_nat (length data), data).
Proof.
  intros Hm [Hlen Hfront Hregion Hlast] Hfree Hfuel.
  pose proof (mounted_open _ _ Hm) as Hfd.
  set (n := Z.of_nat (length data)) in *.
  assert (0 ≤ n / DEFAULT_BLOCK_SIZE) as Hq by (apply Z.div_pos; geo).
  pose proof (Z.mul_succ_div_gt n DEFAULT_BLOCK_SIZE ltac:(geo)) as Hk.
  assert (n < DEFAULT_BLOCK_SIZE * DEFAULT_BLOCK_COUNT) as Hn by geo.
  set (k := Z.to_nat (n / DEFAULT_BLOCK_SIZE)).
  assert (bytes_at data 0 n = data) as Hdata by apply bytes_at_all.
  assert (writable k f region 0 a data) as Hw.
  { unfold writable. fold n. subst k. rewrite Z2Nat.id, !Z.add_0_l by done.
    repeat split; try lia; geo. }
  erewrite bind_eq by (apply (storage_jump_to_region_mounted _ f); [done|geo]).
  destruct (storage_write_appends k fuel (storage_file_ s) data n f region 0 a 0)
    as (block' & pos' & Hwrite); rewrite ?Hdata; try done; try geo.
  { assert (n / DEFAULT_BLOCK_SIZE < n + 1)
      by (apply Z.div_lt_upper_bound; geo).
    lia. }
  rewrite Hdata in Hwrite. erewrite bind_eq by exact Hwrite.
  set (f1 := written k f region 0 a data) in *.
  assert (Z.of_nat (length f1) = Z.of_nat (length f)) as Hl1
    by (subst f1; by rewrite length_written).
  erewrite bind_eq; cycle 1.
  { apply (storage_jump_to_region_mounted _ f1);
      [apply mounted_at_cursor; [done|lia]|geo]. }
  change (storage_file_ _) with (storage_file_ s).
  destruct (storage_read_holds (storage_file_ s) f1 a Hfd ltac:(lia) ltac:(lia)
              fuel region data 0)
    as (block'' & pos'' & Hread); try done; try geo.
  { by apply written_holds. }
  fold n in Hread. by rewrite Hread.
Qed.

Lemma storage_round_trip_witness :
  value_of
    ((storage_jump_to_region 0;;
      storage_write_in_region 200 (replicate 25 "x"%byte)
        (Z.of_nat (length (replicate 25 "x"%byte)));;
      storage_jump_to_region 0;;
      storage_read_in_region 200 (Z.of_nat (length (replicate 25 "x"%byte))))
       formatted_engine)
  = Some (Z.of_nat (length (replicate 25 "x"%byte)), replicate 25 "x"%byte).
Proof.
  apply (storage_round_trip 200 formatted_engine formatted_file 1 0
           (replicate 25 "x"%byte)).
  - apply formatted_mounted.
  - split.
    + apply formatted_mounted.
    + apply formatted_frontier.
    + lia.
    + vm_compute. reflexivity.
  - vm_compute. discriminate.
  - vm_compute. lia.
Defined.

(** X13: a read does not go past the end of a region.  From the start
    of a region that ends in its first block, a read of at least a
    block's size returns the block size as its count and delivers the
    payload of that block, whatever count was asked for. *)
Theorem storage_read_stops_at_region_end fuel s f region n_bytes :
  (0 < fuel)%nat → mounted s f →
  0 ≤ region < DEFAULT_BLOCK_COUNT → next_of f region = INVALID_BLOCK →
  DEFAULT_BLOCK_SIZE ≤ n_bytes < 2 ^ 63 →
  value_of
    ((storage_jump_to_region region;; storage_read_in_region fuel n_bytes) s)
  = Some (DEFAULT_BLOCK_SIZE,
          bytes_at f (payload_offset region) DEFAULT_BLOCK_SIZE).
Proof.
  intros Hfuel Hm Hregion Hlast Hn.
  pose proof (mounted_open _ _ Hm) as Hfd.
  pose proof (mounted_length _ _ Hm) as Hlen.
  destruct fuel as [|fuel]; [lia|].
  erewrite bind_eq by (apply (storage_jump_to_region_mounted _ f); [done|geo]).
  unfold storage_read_in_region.
  erewrite bind_eq
    by (eapply storage_initialized_mounted, mounted_at_cursor; done).
  cbn [negb].
  erewrite bind_eq; cycle 1.
  { rewrite iter_succ. unfold read_in_region_pass, at_cursor.
    erewrite bind_eq by reflexivity. erewrite bind_eq by reflexivity. fields.
    rewrite (to_size_t_small (0 + n_bytes - 0)) by geo.
    destruct (_ <=? _) eqn:E; [clear E|exfalso; geo].
    rewrite (to_size_t_small (DEFAULT_BLOCK_SIZE - 0)) by geo.
    rewrite (to_int_small (DEFAULT_BLOCK_SIZE - 0)) by geo.
    erewrite bind_eq
      by (apply (host_read_in_bounds _ f); fields; try done; geo).
    fields.
    erewrite bind_eq by reflexivity. fields.
    fold (next_of f region). rewrite Hlast, Z.eqb_refl. reflexivity. }
  cbn [read_in_region_rest value_of ret].
  by rewrite Z.add_0_r, Z.sub_0_r.
Qed.

Lemma storage_read_stops_at_region_end_witness :
  value_of
    ((storage_jump_to_region 0;; storage_read_in_region 200 25)
       formatted_engine)
  = Some (DEFAULT_BLOCK_SIZE,
          bytes_at formatted_file (payload_offset 0) DEFAULT_BLOCK_SIZE).
Proof.
  apply (storage_read_stops_at_region_end 200 formatted_engine formatted_file
           0 25).
  - lia.
  - apply formatted_mounted.
  - vm_compute. split; [discriminate|reflexivity].
  - vm_compute. reflexivity.
  - vm_compute. split; [discriminate|reflexivity].
Defined.

(** ** An empty root directory *)

(** A loop that leaves in its first pass. *)
Lemma iter_break {S A B} fuel (body : A → M S (A + B)) a s b s' :
  (0 < fuel)%nat → body a s = Done (inr b) s' → iter fuel body a s = Done b s'.
Proof.
  intros Hfuel Hbody. destruct fuel as [|fuel]; [lia|].
  by rewrite iter_succ, Hbody.
Qed.

Section EmptyRoot.
Context (fuel : nat) (fd : Z) (f : list byte).
Hypothesis Hfuel : (0 < fuel)%nat.
Hypothesis Hfd : fd ≠ -1.
Hypothesis Hlen :
  Z.of_nat (length f) = block_offset DEFAULT_BLOCK_SIZE DEFAULT_BLOCK_COUNT.
Hypothesis Hempty :
  bytes_at f (payload_offset root_directory_region_) 1 = [x00].

Lemma read_entry_type_empty_root old :
  read_scalar fuel 1 old (at_cursor fd f root_directory_region_ 0 0)
  = Done (Some NULL_ENTRY) (at_cursor fd f root_directory_region_ 1 1).
Proof.
  rewrite read_scalar_in_block;
    try done; try (unfold root_directory_region_; geo).
  change (Z.of_nat 1) with 1. by rewrite Z.add_0_r, Hempty.
Qed.

Lemma enter_directory_empty_root name :
  enter_directory fuel root_directory_region_ name
    (at_cursor fd f root_directory_region_ 0 0)
  = Done None (at_cursor fd f root_directory_region_ 1 1).
Proof.
  unfold enter_directory. apply iter_break; [done|].
  by erewrite bind_eq by apply read_entry_type_empty_root.
Qed.

(** Navigation stops at the first slash of the path. *)
Lemma navigate_from_empty_root path : ∀ name,
  (Forall (λ c, c ≠ "/"%byte) path
   ∧ navigate_from fuel path name root_directory_region_
       (at_cursor fd f root_directory_region_ 0 0)
     = Done {| remainder_path := Some (name ++ path);
               directory_region := root_directory_region_ |}
         (at_cursor fd f root_directory_region_ 0 0))
  ∨ (Exists (λ c, c = "/"%byte) path
     ∧ navigate_from fuel path name root_directory_region_
         (at_cursor fd f root_directory_region_ 0 0)
       = Done {| remainder_path := None; directory_region := INVALID_REGION |}
           (at_cursor fd f root_directory_region_ 1 1)).
Proof.
  induction path as [|c path IH]; intros name.
  - left. split; [done|]. cbn [navigate_from]. by rewrite app_nil_r.
  - cbn [navigate_from]. destruct (Byte.eqb c "/") eqn:E.
    + apply Byte.byte_dec_bl in E as ->. right. split; [by left|].
      by erewrite bind_eq by apply enter_directory_empty_root.
    + assert (c ≠ "/"%byte) as Hc
        by (intros ->; vm_compute in E; discriminate).
      destruct (IH (name ++ [c])) as [[Hpath ->]|[Hpath ->]].
      * left. split; [by constructor|]. by rewrite <- app_assoc.
      * right. split; [by right|done].
Qed.

End EmptyRoot.

Section EmptyRootOperations.
Context (fuel : nat) (s : storage) (f : list byte).
Hypothesis Hfuel : (0 < fuel)%nat.
Hypothesis Hm : mounted s f.
Hypothesis Hempty :
  bytes_at f (payload_offset root_directory_region_) 1 = [x00].

Lemma navigate_to_empty_root path :
  (Forall (λ c, c ≠ "/"%byte) (cstr path)
   ∧ navigate_to_virtual_directory fuel path s
     = Done {| remainder_path := Some (cstr path);
               directory_region := root_directory_region_ |}
         (at_cursor (storage_file_ s) f root_directory_region_ 0 0))
  ∨ (Exists (λ c, c = "/"%byte) (cstr path)
     ∧ navigate_to_virtual_directory fuel path s
       = Done {| remainder_path := None; directory_region := INVALID_REGION |}
           (at_cursor (storage_file_ s) f root_directory_region_ 1 1)).
Proof.
  unfold navigate_to_virtual_directory.
  erewrite bind_eq by (by eapply ensure_initialized_mounted).
  erewrite bind_eq
    by (apply storage_jump_to_region_mounted;
        [done | unfold root_directory_region_; geo]).
  apply (navigate_from_empty_root fuel (storage_file_ s) f Hfuel
           (mounted_open _ _ Hm) (mounted_length _ _ Hm) Hempty (cstr path) []).
Qed.

Lemma find_virtual_file_nothing path :
  find_virtual_file fuel path s
  = Done invalid_file (at_cursor (storage_file_ s) f root_directory_region_ 1 1).
Proof.
  unfold find_virtual_file.
  destruct (navigate_to_empty_root path) as [[_ Hnav]|[_ Hnav]];
    erewrite bind_eq by exact Hnav; cbn [directory_region].
  - change (root_directory_region_ =? INVALID_REGION) with false. cbn iota.
    apply iter_break; [done|].
    erewrite bind_eq; cycle 1.
    { apply read_entry_type_empty_root; try done; apply Hm. }
    reflexivity.
  - by rewrite Z.eqb_refl.
Qed.

Lemma unlink_storage_nothing path :
  unlink_storage fuel path s
  = Done (-1) (at_cursor (storage_file_ s) f root_directory_region_ 1 1).
Proof.
  unfold unlink_storage.
  destruct (navigate_to_empty_root path) as [[_ Hnav]|[_ Hnav]];
    erewrite bind_eq by exact Hnav; cbn [directory_region].
  - change (root_directory_region_ =? INVALID_REGION) with false. cbn iota.
    apply iter_break; [done|].
    erewrite bind_eq
      by (apply storage_seek_zero; [apply Hm|apply Hm|lia]).
    erewrite bind_eq; cycle 1.
    { apply read_entry_type_empty_root; try done; apply Hm. }
    reflexivity.
  - by rewrite Z.eqb_refl.
Qed.

Lemma rmdir_storage_nothing path :
  rmdir_storage fuel path s
  = Done (-1) (at_cursor (storage_file_ s) f root_directory_region_ 1 1).
Proof.
  unfold rmdir_storage.
  destruct (navigate_to_empty_root path) as [[_ Hnav]|[_ Hnav]];
    erewrite bind_eq by exact Hnav; cbn [directory_region].
  - change (root_directory_region_ =? INVALID_REGION) with false. cbn iota.
    apply iter_break; [done|].
    erewrite bind_eq
      by (apply storage_seek_zero; [apply Hm|apply Hm|lia]).
    erewrite bind_eq; cycle 1.
    { apply read_entry_type_empty_root; try done; apply Hm. }
    reflexivity.
  - by rewrite Z.eqb_refl.
Qed.

Lemma create_virtual_file_no_directory path :
  Exists (λ c, c = "/"%byte) (cstr path) →
  create_virtual_file fuel path s
  = Done invalid_file (at_cursor (storage_file_ s) f root_directory_region_ 1 1).
Proof.
  intros Hslash. unfold create_virtual_file.
  destruct (navigate_to_empty_root path) as [[Hno _]|[_ Hnav]].
  - exfalso. apply Exists_exists in Hslash as (c & Hc & ->).
    rewrite Forall_forall in Hno. by apply (Hno _ Hc).
  - erewrite bind_eq by exact Hnav. cbn [directory_region].
    by rewrite Z.eqb_refl.
Qed.

Lemma mkdir_storage_no_directory path :
  Exists (λ c, c = "/"%byte) (cstr path) →
  mkdir_storage fuel path s
  = Done (-1) (at_cursor (storage_file_ s) f root_directory_region_ 1 1).
Proof.
  intros Hslash. unfold mkdir_storage.
  destruct (navigate_to_empty_root path) as [[Hno _]|[_ Hnav]].
  - exfalso. apply Exists_exists in Hslash as (c & Hc & ->).
    rewrite Forall_forall in Hno. by apply (Hno _ Hc).
  - erewrite bind_eq by exact Hnav. cbn [directory_region].
    by rewrite Z.eqb_refl.
Qed.

End EmptyRootOperations.

(** X14: in a file system whose root directory has no entry, nothing is
    found, whatever the path: [open_virtual] without [O_CREAT],
    [unlink_virtual] and [rmdir_virtual] return -1, the descriptor
    table stays as it is and nothing is written to the backing file. *)
Theorem nothing_found_in_empty_root fuel path flags s f :
  (0 < fuel)%nat → mounted (engine s) f →
  bytes_at f (payload_offset root_directory_region_) 1 = [x00] →
  Z.land flags O_CREAT = 0 →
  (∃ s', open_virtual fuel path flags s = Done (-1) s'
         ∧ descriptors_ s' = descriptors_ s
         ∧ host_file (engine s') = Some f)
  ∧ (∃ s', unlink_virtual fuel path s = Done (-1) s'
           ∧ descriptors_ s' = descriptors_ s
           ∧ host_file (engine s') = Some f)
  ∧ (∃ s', rmdir_virtual fuel path s = Done (-1) s'
           ∧ descriptors_ s' = descriptors_ s
           ∧ host_file (engine s') = Some f).
Proof.
  intros Hfuel Hm Hempty Hflags. destruct s as [e ds last]. fsfields in *.
  split; [|split].
  - unfold open_virtual.
    erewrite bind_eq by (by eapply lift_eq, ensure_initialized_mounted).
    erewrite bind_eq by reflexivity. fsfields.
    destruct (_ =? -1). { eexists. split; [reflexivity|]. split; [done|apply Hm]. }
    erewrite bind_eq by reflexivity.
    erewrite bind_eq by (by eapply lift_eq, find_virtual_file_nothing).
    cbn [content_region invalid_file]. rewrite Z.eqb_refl, Hflags. cbn iota.
    erewrite bind_eq by reflexivity.
    eexists. split; [reflexivity|]. by fsfields.
  - unfold unlink_virtual. erewrite bind_eq by reflexivity.
    eexists. split; [by eapply lift_eq, unlink_storage_nothing|]. by fsfields.
  - unfold rmdir_virtual. erewrite bind_eq by reflexivity.
    eexists. split; [by eapply lift_eq, rmdir_storage_nothing|]. by fsfields.
Qed.

Lemma nothing_found_in_empty_root_witness :
  (∃ s', open_virtual 200 (path_of "a/b") O_TRUNC
           (set_engine formatted_engine fresh) = Done (-1) s'
         ∧ descriptors_ s' = descriptors_ (set_engine formatted_engine fresh)
         ∧ host_file (engine s') = Some formatted_file)
  ∧ (∃ s', unlink_virtual 200 (path_of "a/b")
             (set_engine formatted_engine fresh) = Done (-1) s'
           ∧ descriptors_ s' = descriptors_ (set_engine formatted_engine fresh)
           ∧ host_file (engine s') = Some formatted_file)
  ∧ (∃ s', rmdir_virtual 200 (path_of "a/b")
             (set_engine formatted_engine fresh) = Done (-1) s'
           ∧ descriptors_ s' = descriptors_ (set_engine formatted_engine fresh)
           ∧ host_file (engine s') = Some formatted_file).
Proof.
  apply (nothing_found_in_empty_root 200 (path_of "a/b") O_TRUNC
           (set_engine formatted_engine fresh) formatted_file).
  - lia.
  - rewrite engine_set_engine. apply formatted_mounted.
  - apply formatted_root_empty.
  - reflexivity.
Defined.

(** X15: directories are not created on the way.  While the root
    directory has no entry, a path with a slash in it resolves to
    nothing: [open_virtual], with [O_CREAT] too, and [mkdir_virtual]
    return -1, the descriptor table stays as it is and nothing is
    written to the backing file. *)
Theorem missing_directory_is_not_created fuel path flags s f :
  (0 < fuel)%nat → mounted (engine s) f →
  bytes_at f (payload_offset root_directory_region_) 1 = [x00] →
  Exists (λ c, c = "/"%byte) (cstr path) →
  (∃ s', open_virtual fuel path flags s = Done (-1) s'
         ∧ descriptors_ s' = descriptors_ s
         ∧ host_file (engine s') = Some f)
  ∧ (∃ s', mkdir_virtual fuel path s = Done (-1) s'
           ∧ descriptors_ s' = descriptors_ s
           ∧ host_file (engine s') = Some f).
Proof.
  intros Hfuel Hm Hempty Hslash. destruct s as [e ds last]. fsfields in *.
  split.
  - unfold open_virtual.
    erewrite bind_eq by (by eapply lift_eq, ensure_initialized_mounted).
    erewrite bind_eq by reflexivity. fsfields.
    destruct (_ =? -1). { eexists. split; [reflexivity|]. split; [done|apply Hm]. }
    erewrite bind_eq by reflexivity.
    erewrite bind_eq by (by eapply lift_eq, find_virtual_file_nothing).
    cbn [content_region invalid_file]. rewrite Z.eqb_refl. cbn iota.
    erewrite bind_eq; cycle 1.
    { destruct (Z.land flags O_CREAT =? 0); [reflexivity|].
      erewrite bind_eq; cycle 1.
      { eapply lift_eq. fsfields.
        apply (create_virtual_file_no_directory fuel _ f); try done.
        apply mounted_at_cursor; apply Hm. }
      cbn [content_region invalid_file]. rewrite Z.eqb_refl. reflexivity. }
    cbn iota.
    destruct (Z.land flags O_CREAT =? 0);
      (eexists; split; [reflexivity|]); by fsfields.
  - unfold mkdir_virtual. erewrite bind_eq by reflexivity.
    eexists. split; [by eapply lift_eq, mkdir_storage_no_directory|].
    by fsfields.
Qed.

Lemma missing_directory_is_not_created_witness :
  (∃ s', open_virtual 200 (path_of "a/b") O_CREAT
           (set_engine formatted_engine fresh) = Done (-1) s'
         ∧ descriptors_ s' = descriptors_ (set_engine formatted_engine fresh)
         ∧ host_file (engine s') = Some formatted_file)
  ∧ (∃ s', mkdir_virtual 200 (path_of "a/b")
             (set_engine formatted_engine fresh) = Done (-1) s'
           ∧ descriptors_ s' = descriptors_ (set_engine formatted_engine fresh)
           ∧ host_file (engine s') = Some formatted_file).
Proof.
  apply (missing_directory_is_not_created 200 (path_of "a/b") O_CREAT
           (set_engine formatted_engine fresh) formatted_file).
  - lia.
  - rewrite engine_set_engine. apply formatted_mounted.
  - apply formatted_root_empty.
  - right. left. reflexivity.
Defined.

(** ** Freeing a region *)

Lemma release_cons size f block blocks :
  release size f (block :: blocks)
  = release size (patch f (block_offset size block) freed_header) blocks.
Proof. reflexivity. Qed.

Lemma length_release size blocks : ∀ f,
  length (release size f blocks) = length f.
Proof.
  induction blocks as [|b blocks IH]; intros f; [done|].
  by rewrite release_cons, IH, length_patch.
Qed.

Lemma length_freed_header : length freed_header = 5%nat.
Proof. reflexivity. Qed.

(** [release] changes nothing but the headers of the blocks it is
    given. *)
Lemma bytes_at_release size blocks off n : ∀ f,
  0 ≤ size → 0 ≤ off →
  Forall (λ b, 0 ≤ b ∧ (off + n ≤ block_offset size b
                         ∨ block_offset size b + 5 ≤ off)) blocks →
  bytes_at (release size f blocks) off n = bytes_at f off n.
Proof.
  induction blocks as [|b blocks IH]; intros f Hsize Hoff Hout; [done|].
  apply Forall_cons in Hout as [[Hb Hdisj] Hout].
  rewrite release_cons, IH by done.
  pose proof (block_offset_nonneg size b Hsize Hb).
  apply bytes_at_patch_ne; [lia|done|]. rewrite length_freed_header. lia.
Qed.

Lemma header_at_release_other size blocks f j :
  0 ≤ size → 0 ≤ j → Forall (λ b, 0 ≤ b) blocks → j ∉ blocks →
  header_at (release size f blocks) size j = header_at f size j.
Proof.
  intros Hsize Hj Hpos Hnotin. unfold header_at.
  pose proof (block_offset_nonneg size j Hsize Hj).
  assert (Forall (λ b, 0 ≤ b ∧ (block_offset size j + 5 ≤ block_offset size b
                                 ∨ block_offset size b + 5 ≤ block_offset size j))
            blocks) as Hout.
  { rewrite Forall_forall in Hpos. apply Forall_forall. intros b Hb.
    split; [by apply Hpos|].
    assert (b ≠ j) by (intros ->; done).
    pose proof (Hpos _ Hb).
    destruct (decide (b < j)).
    - right. pose proof (block_offset_lt size b j Hsize ltac:(lia)). lia.
    - left. pose proof (block_offset_lt size j b Hsize ltac:(lia)). lia. }
  rewrite !bytes_at_release; try done; try lia.
  all: eapply Forall_impl; [exact Hout|]; intros b [? ?]; split; [done|lia].
Qed.

Lemma header_at_freed f size block :
  0 ≤ block_offset size block →
  block_offset size block + 5 ≤ Z.of_nat (length f) →
  header_at (patch f (block_offset size block) freed_header) size block
  = {| in_use := 0; previous_block := INVALID_BLOCK;
       next_block := INVALID_BLOCK |}.
Proof.
  intros Hoff Hlen. unfold header_at.
  rewrite !bytes_at_patch_in by (rewrite ?length_freed_header; lia).
  rewrite Z.sub_diag.
  replace (block_offset size block + 1 - block_offset size block) with 1 by lia.
  replace (block_offset size block + 3 - block_offset size block) with 3 by lia.
  reflexivity.
Qed.

Lemma header_at_release_freed size count blocks b : ∀ f,
  0 ≤ size →
  Z.of_nat (length f) = block_offset size count →
  Forall (λ b, 0 ≤ b < count) blocks → b ∈ blocks →
  header_at (release size f blocks) size b
  = {| in_use := 0; previous_block := INVALID_BLOCK;
       next_block := INVALID_BLOCK |}.
Proof.
  induction blocks as [|x blocks IH]; intros f Hsize Hlen Hrange Hin.
  { by apply elem_of_nil in Hin. }
  apply Forall_cons in Hrange as [Hx Hrange].
  rewrite release_cons.
  destruct (decide (b ∈ blocks)) as [Hlater|Hlast].
  - apply IH; try done. by rewrite length_patch.
  - apply elem_of_cons in Hin as [->|?]; [|done].
    rewrite header_at_release_other; try done; try lia.
    + pose proof (block_offset_nonneg size x Hsize ltac:(lia)).
      pose proof (block_offset_lt size x count Hsize ltac:(lia)).
      apply header_at_freed; lia.
    + eapply Forall_impl; [exact Hrange|]. intros ? [? ?]. cbn beta. lia.
Qed.

Lemma chain_range f size count block blocks :
  chain f size count block blocks → Forall (λ b, 0 ≤ b < count) blocks.
Proof. induction 1; by constructor. Qed.

(** A chain is determined by its first block. *)
Lemma chain_unique f size count block blocks :
  chain f size count block blocks →
  count ≤ INVALID_BLOCK →
  ∀ blocks', chain f size count block blocks' → blocks' = blocks.
Proof.
  induction 1 as [|block blocks Hb _ IH]; intros Hcount blocks' H'.
  - inversion H' as [|? ? Hb']; [done|]. subst. geo.
  - inversion H' as [Hend|? blocks0 Hb' Hrest]; [subst; geo|]. subst.
    f_equal. by apply IH.
Qed.

Lemma chain_suffix f size count block blocks b :
  chain f size count block blocks → b ∈ blocks →
  ∃ l r, blocks = l ++ b :: r ∧ chain f size count b (b :: r).
Proof.
  induction 1 as [|block blocks Hb H IH]; intros Hin.
  { by apply elem_of_nil in Hin. }
  apply elem_of_cons in Hin as [->|Hin].
  - exists [], blocks. split; [done|]. by constructor.
  - destruct (IH Hin) as (l & r & -> & Hr).
    by exists (block :: l), r.
Qed.

(** No block occurs twice in a chain. *)
Lemma chain_NoDup f size count block blocks :
  chain f size count block blocks → count ≤ INVALID_BLOCK → NoDup blocks.
Proof.
  induction 1 as [|block blocks Hb H IH]; intros Hcount; constructor.
  - intros Hin.
    destruct (chain_suffix _ _ _ _ _ _ H Hin) as (l & r & -> & Hr).
    assert (chain f size count block (block :: l ++ block :: r)) as Hall
      by (by constructor).
    apply (chain_unique _ _ _ _ _ Hr Hcount) in Hall.
    apply (f_equal length) in Hall. rewrite !length_cons, length_app in Hall.
    cbn [length] in Hall. lia.
  - by apply IH.
Qed.

(** Freeing a block leaves the chains that avoid it as they are. *)
Lemma chain_patch_other f size count block blocks b :
  chain f size count block blocks →
  0 ≤ size → 0 ≤ b → b ∉ blocks →
  chain (patch f (block_offset size b) freed_header) size count block blocks.
Proof.
  induction 1 as [|block blocks Hb H IH]; intros Hsize Hb0 Hnotin.
  - constructor.
  - apply not_elem_of_cons in Hnotin as [Hne Hnotin].
    constructor; [done|].
    change (patch f (block_offset size b) freed_header)
      with (release size f [b]).
    rewrite header_at_release_other; try done; try lia.
    + by apply IH.
    + by constructor.
    + intros [->|Hin]%elem_of_cons; [done|]. by apply elem_of_nil in Hin.
Qed.

Lemma storage_initialized_open s :
  storage_file_ s ≠ -1 → storage_initialized s = Done true s.
Proof.
  intros Hfd. unfold storage_initialized, gets.
  by apply Z.eqb_neq in Hfd as ->.
Qed.

(** The header [storage_free_region] writes over the one of the block
    the engine has just jumped to; [k] is what follows. *)
Lemma write_freed_header {A} (k : M storage A) s f block :
  geometry (active_block_size_ s) (active_block_count_ s) f →
  0 ≤ block < active_block_count_ s →
  (host_lseek_cur (- BLOCK_HEADER_SIZE);;
   host_write [BLOCK_NOT_IN_USE_INDICATOR];;
   host_write (le_encode 2 INVALID_BLOCK);;
   host_write (le_encode 2 INVALID_BLOCK);;
   k) (jumped s f block)
  = k (set_host
         (Some (patch f (block_offset (active_block_size_ s) block)
                  freed_header))
         (block_offset (active_block_size_ s) block + BLOCK_HEADER_SIZE)
         (jumped s f block)).
Proof.
  destruct s as [file off fd size count idx pos rpos cur]. fields.
  intros [Hsize Hcount Hlen Hint] Hblock.
  pose proof (block_offset_lt size block count ltac:(lia) ltac:(lia)) as Hlt.
  pose proof (block_offset_nonneg size block ltac:(lia) ltac:(lia)) as Hge.
  unfold jumped. fields.
  erewrite bind_eq; cycle 1.
  { unfold host_lseek_cur. fields. apply host_lseek_nonneg.
    unfold BLOCK_HEADER_SIZE. lia. }
  fields.
  erewrite bind_eq
    by (apply host_write_in_bounds; fields; try done;
        unfold BLOCK_HEADER_SIZE; simpl length; lia).
  fields.
  erewrite bind_eq
    by (apply host_write_in_bounds; fields; try done;
        rewrite ?length_patch; unfold BLOCK_HEADER_SIZE; simpl length; lia).
  fields.
  erewrite bind_eq
    by (apply host_write_in_bounds; fields; try done;
        rewrite ?length_patch; unfold BLOCK_HEADER_SIZE; simpl length; lia).
  fields. unfold BLOCK_HEADER_SIZE. simpl length.
  replace (block_offset size block + (1 + 2 * 2) + - (1 + 2 * 2))
    with (block_offset size block) by lia.
  change (Z.of_nat 1) with 1. change (Z.of_nat 2) with 2.
  rewrite (patch_app _ _ [BLOCK_NOT_IN_USE_INDICATOR]) by lia.
  change (Z.of_nat 1) with 1.
  replace (block_offset size block + 1 + 2)
    with (block_offset size block
          + Z.of_nat (length ([BLOCK_NOT_IN_USE_INDICATOR]
                              ++ le_encode 2 INVALID_BLOCK)))
    by (rewrite length_app, length_le_encode; simpl length; lia).
  rewrite patch_app by lia.
  rewrite length_app, length_le_encode. simpl length.
  rewrite <- app_assoc. change (Z.of_nat (1 + 2)) with 3.
  rewrite <- !Z.add_assoc. reflexivity.
Qed.

Lemma storage_free_region_step fuel s f block :
  storage_file_ s ≠ -1 → host_file s = Some f →
  geometry (active_block_size_ s) (active_block_count_ s) f →
  0 ≤ block < active_block_count_ s →
  storage_free_region (S fuel) block s
  = storage_free_region fuel
      (next_block (header_at f (active_block_size_ s) block))
      (set_host
         (Some (patch f (block_offset (active_block_size_ s) block)
                  freed_header))
         (block_offset (active_block_size_ s) block + BLOCK_HEADER_SIZE)
         (jumped s f block)).
Proof.
  intros Hfd Hf Hgeo Hblock.
  assert (block ≠ INVALID_BLOCK) as Hvalid by (destruct Hgeo; geo).
  unfold storage_free_region.
  rewrite (bind_eq _ _ s true s) by (by apply storage_initialized_open).
  erewrite (bind_eq storage_initialized _ _ true)
    by (apply storage_initialized_open; by destruct s).
  cbn [negb].
  match goal with
  | |- bind (iter _ ?b _) _ _ = _ => set (body := b)
  end.
  assert (body block s
          = Done (inl (next_block (header_at f (active_block_size_ s) block)))
              (set_host
                 (Some (patch f (block_offset (active_block_size_ s) block)
                          freed_header))
                 (block_offset (active_block_size_ s) block + BLOCK_HEADER_SIZE)
                 (jumped s f block))) as Hbody.
  { subst body. cbv beta. apply Z.eqb_neq in Hvalid as ->.
    erewrite bind_eq by (by apply jump_to_block_in_range).
    erewrite bind_eq by reflexivity.
    by rewrite write_freed_header. }
  unfold bind. by rewrite iter_succ, Hbody.
Qed.

Lemma storage_free_region_end fuel s :
  storage_file_ s ≠ -1 →
  storage_free_region (S fuel) INVALID_BLOCK s = Done 0 s.
Proof.
  intros Hfd. unfold storage_free_region.
  by erewrite bind_eq by (by apply storage_initialized_open).
Qed.

Lemma storage_free_region_chain blocks size count : ∀ fuel s f region,
  storage_file_ s ≠ -1 → host_file s = Some f →
  active_block_size_ s = size → active_block_count_ s = count →
  geometry size count f →
  chain f size count region blocks →
  NoDup blocks → (length blocks < fuel)%nat →
  ∃ s',
    storage_free_region fuel region s = Done 0 s'
    ∧ host_file s' = Some (release size f blocks)
    ∧ storage_file_ s' = storage_file_ s
    ∧ active_block_size_ s' = size
    ∧ active_block_count_ s' = count.
Proof.
  induction blocks as [|b blocks IH];
    intros fuel s f region Hfd Hf Hs Hc Hgeo Hchain Hnodup Hfuel;
    (destruct fuel as [|fuel]; [cbn [length] in Hfuel; lia|]);
    inversion Hchain as [Hend|? ? Hb Hrest]; subst.
  - exists s. by rewrite storage_free_region_end.
  - rewrite (storage_free_region_step _ _ f) by done.
    apply NoDup_cons in Hnodup as [Hnotin Hnodup].
    set (size := active_block_size_ s) in *.
    set (f1 := patch f _ freed_header).
    set (s1 := set_host (Some f1) _ _).
    assert (storage_file_ s1 = storage_file_ s) as Hfd1
      by (subst s1; by destruct s).
    destruct (IH fuel s1 f1 (next_block (header_at f size b)))
      as (s' & Hfree & Hfile & Hfd' & Hs' & Hc').
    + by rewrite Hfd1.
    + subst s1. by destruct s.
    + subst s1 size. by destruct s.
    + subst s1. by destruct s.
    + destruct Hgeo. split; try done. subst f1. by rewrite length_patch.
    + subst f1. apply chain_patch_other; try done; [destruct Hgeo; lia|lia].
    + done.
    + cbn [length] in Hfuel. lia.
    + exists s'. split; [done|]. rewrite release_cons.
      split; [done|]. split; [congruence|]. split; [done|].
      rewrite Hc'. subst s1. by destruct s.
Qed.

(** X16: [storage_free_region] releases every block of the region and
    touches nothing else.  On a region whose chain of blocks ends, it
    returns 0, the header of each block of the chain ends up not in
    use with both links [INVALID_BLOCK], the header of every other
    block is as before, and so are the payload bytes of all blocks (the
    data are not erased). *)
Theorem storage_free_region_releases fuel s f region blocks :
  storage_file_ s ≠ -1 → host_file s = Some f →
  geometry (active_block_size_ s) (active_block_count_ s) f →
  chain f (active_block_size_ s) (active_block_count_ s) region blocks →
  (length blocks < fuel)%nat →
  ∃ s' f',
    storage_free_region fuel region s = Done 0 s'
    ∧ host_file s' = Some f'
    ∧ length f' = length f
    ∧ (∀ b, b ∈ blocks →
         header_at f' (active_block_size_ s) b
         = {| in_use := 0; previous_block := INVALID_BLOCK;
              next_block := INVALID_BLOCK |})
    ∧ (∀ j, 0 ≤ j → j ∉ blocks →
         header_at f' (active_block_size_ s) j
         = header_at f (active_block_size_ s) j)
    ∧ (∀ j, 0 ≤ j →
         bytes_at f'
           (block_offset (active_block_size_ s) j + BLOCK_HEADER_SIZE)
           (active_block_size_ s)
         = bytes_at f
             (block_offset (active_block_size_ s) j + BLOCK_HEADER_SIZE)
             (active_block_size_ s)).
Proof.
  intros Hfd Hf Hgeo Hchain Hfuel.
  pose proof (chain_range _ _ _ _ _ Hchain) as Hrange.
  assert (NoDup blocks) as Hnodup
    by (eapply chain_NoDup; [exact Hchain|destruct Hgeo; geo]).
  destruct (storage_free_region_chain blocks (active_block_size_ s)
              (active_block_count_ s) fuel s f region)
    as (s' & Hfree & Hfile & _); try done.
  pose proof Hgeo as [Hsize Hcount Hlen Hint].
  exists s', (release (active_block_size_ s) f blocks).
  split; [done|]. split; [done|]. split; [apply length_release|].
  split; [|split].
  - intros b Hb. by eapply header_at_release_freed; [lia| | |].
  - intros j Hj Hnotin. apply header_at_release_other; try done; [lia|].
    eapply Forall_impl; [exact Hrange|]. intros ? [? ?]. cbn beta. lia.
  - intros j Hj.
    pose proof (block_offset_nonneg (active_block_size_ s) j ltac:(lia) Hj).
    apply bytes_at_release; [lia|unfold BLOCK_HEADER_SIZE; lia|].
    eapply Forall_impl; [exact Hrange|]. intros b [? ?]. cbn beta.
    split; [done|]. unfold BLOCK_HEADER_SIZE.
    destruct (decide (b ≤ j)).
    + right. pose proof (block_offset_le (active_block_size_ s) b j
                           ltac:(lia) ltac:(lia)). lia.
    + left. pose proof (block_offset_lt (active_block_size_ s) j b
                          ltac:(lia) ltac:(lia)). lia.
Qed.

(** The backing file of [with_hello]: the metadata region of [f] is
    the chain of the blocks 2 and 3. *)
Lemma hello_geometry :
  geometry (active_block_size_ (engine with_hello))
    (active_block_count_ (engine with_hello)) hello_file.
Proof.
  split.
  - vm_compute. split; [discriminate|reflexivity].
  - vm_compute. split; [discriminate|reflexivity].
  - vm_compute. reflexivity.
  - vm_compute. discriminate.
Qed.

Lemma hello_metadata_chain :
  chain hello_file (active_block_size_ (engine with_hello))
    (active_block_count_ (engine with_hello)) 2 [2; 3].
Proof.
  apply chain_link; [vm_compute; split; [discriminate|reflexivity]|].
  replace (next_block _) with 3 by (vm_compute; reflexivity).
  apply chain_link; [vm_compute; split; [discriminate|reflexivity]|].
  replace (next_block _) with INVALID_BLOCK by (vm_compute; reflexivity).
  apply chain_end.
Qed.

Lemma storage_free_region_releases_witness :
  ∃ s' f',
    storage_free_region 200 2 (engine with_hello) = Done 0 s'
    ∧ host_file s' = Some f'
    ∧ length f' = length hello_file
    ∧ (∀ b, b ∈ [2; 3] →
         header_at f' (active_block_size_ (engine with_hello)) b
         = {| in_use := 0; previous_block := INVALID_BLOCK;
              next_block := INVALID_BLOCK |})
    ∧ (∀ j, 0 ≤ j → j ∉ [2; 3] →
         header_at f' (active_block_size_ (engine with_hello)) j
         = header_at hello_file (active_block_size_ (engine with_hello)) j)
    ∧ (∀ j, 0 ≤ j →
         bytes_at f'
           (block_offset (active_block_size_ (engine with_hello)) j
            + BLOCK_HEADER_SIZE)
           (active_block_size_ (engine with_hello))
         = bytes_at hello_file
             (block_offset (active_block_size_ (engine with_hello)) j
              + BLOCK_HEADER_SIZE)
             (active_block_size_ (engine with_hello))).
Proof.
  apply (storage_free_region_releases 200 (engine with_hello) hello_file 2
           [2; 3]).
  - vm_compute. discriminate.
  - vm_compute. reflexivity.
  - apply hello_geometry.
  - apply hello_metadata_chain.
  - cbn [length]. lia.
Defined.

(** X17: freed blocks are reused, the lowest first.  After
    [storage_free_region] released the chain of a region,
    [storage_allocate_region] returns the lowest block that is in the
    chain or was free before (flag byte 0), when every block below it
    that is not in the chain is in use (flag byte 1). *)
Theorem storage_allocate_after_free fuel s f region blocks b :
  storage_file_ s ≠ -1 → host_file s = Some f →
  geometry (active_block_size_ s) (active_block_count_ s) f →
  chain f (active_block_size_ s) (active_block_count_ s) region blocks →
  (length blocks < fuel)%nat →
  0 ≤ b < active_block_count_ s →
  b ∈ blocks ∨ in_use (header_at f (active_block_size_ s) b) = 0 →
  (∀ j, 0 ≤ j < b →
     (j ∉ blocks) ∧ in_use (header_at f (active_block_size_ s) j) = 1) →
  value_of ((storage_free_region fuel region;; storage_allocate_region) s)
  = Some b.
Proof.
  intros Hfd Hf Hgeo Hchain Hfuel Hb Hfree Hlow.
  pose proof (chain_range _ _ _ _ _ Hchain) as Hrange.
  assert (NoDup blocks) as Hnodup
    by (eapply chain_NoDup; [exact Hchain|destruct Hgeo; geo]).
  destruct (storage_free_region_chain blocks (active_block_size_ s)
              (active_block_count_ s) fuel s f region)
    as (s' & Hfreed & Hfile & Hfd' & Hs' & Hc'); try done.
  pose proof Hgeo as [Hsize Hcount Hlen Hint].
  assert (Forall (λ b, 0 ≤ b) blocks) as Hpos
    by (eapply Forall_impl; [exact Hrange|]; intros ? [? ?]; done).
  erewrite bind_eq by exact Hfreed.
  unfold storage_allocate_region.
  erewrite bind_eq by (apply storage_initialized_open; congruence).
  cbn [negb]. unfold allocate_block. erewrite bind_eq by reflexivity.
  erewrite (allocate_block_scan_finds _ s' _ INVALID_BLOCK 0 b);
    rewrite ?Hs', ?Hc'; try done; try lia.
  - split; try done. by rewrite length_release.
  - intros j Hj. rewrite header_at_release_other; try done; try lia;
      by apply Hlow.
  - destruct (decide (b ∈ blocks)) as [Hin|Hnotin].
    + by erewrite header_at_release_freed; [| |exact Hlen| |]; try done; lia.
    + rewrite header_at_release_other; try done; try lia.
      destruct Hfree as [?|Hzero]; [done|]. rewrite Hzero. lia.
Qed.

Lemma storage_allocate_after_free_witness :
  value_of
    ((storage_free_region 200 2;; storage_allocate_region) (engine with_hello))
  = Some 2.
Proof.
  apply (storage_allocate_after_free 200 (engine with_hello) hello_file 2
           [2; 3] 2).
  - vm_compute. discriminate.
  - vm_compute. reflexivity.
  - apply hello_geometry.
  - apply hello_metadata_chain.
  - cbn [length]. lia.
  - vm_compute. split; [discriminate|reflexivity].
  - left. by left.
  - intros j Hj. split.
    + intros [->|[->|Hin]%elem_of_cons]%elem_of_cons; try lia.
      by apply elem_of_nil in Hin.
    + assert (j = 0 ∨ j = 1) as [->| ->] by lia; vm_compute; reflexivity.
Defined.

(** ** Formatting *)

Lemma length_block_bytes indicator size :
  0 ≤ size → Z.of_nat (length (block_bytes indicator size)) = size + 5.
Proof.
  intros. unfold block_bytes.
  rewrite !length_app, !length_le_encode, length_replicate. cbn [length]. lia.
Qed.

Lemma mjoin_replicate_length {A} n (l : list A) :
  length (mjoin (replicate n l)) = (n * length l)%nat.
Proof.
  induction n as [|n IH]; [done|].
  change (mjoin (replicate (S n) l)) with (l ++ mjoin (replicate n l)).
  rewrite length_app, IH. lia.
Qed.

(** The [j]-th of [n] copies of [l] laid end to end. *)
Lemma bytes_at_mjoin_replicate n (l : list byte) j :
  (j < n)%nat →
  bytes_at (mjoin (replicate n l))
    (Z.of_nat (j * length l)) (Z.of_nat (length l)) = l.
Proof.
  revert j. induction n as [|n IH]; intros j Hj; [lia|].
  change (mjoin (replicate (S n) l)) with (l ++ mjoin (replicate n l)).
  destruct j as [|j].
  - apply bytes_at_prefix.
  - unfold bytes_at.
    replace (Z.to_nat (Z.of_nat (S j * length l)))
      with (length l + j * length l)%nat by lia.
    rewrite drop_app_add.
    specialize (IH j ltac:(lia)). unfold bytes_at in IH.
    rewrite !Nat2Z.id in IH. by rewrite Nat2Z.id.
Qed.

(** The block [block] of a freshly formatted file, header and
    payload. *)
Lemma formatted_block size count block :
  0 ≤ size → 0 ≤ block < count →
  bytes_at
    (le_encode 2 size ++ le_encode 2 count
     ++ block_bytes BLOCK_IN_USE_INDICATOR size
     ++ mjoin (replicate (Z.to_nat (count - 1))
                 (block_bytes BLOCK_NOT_IN_USE_INDICATOR size)))
    (block_offset size block) (size + BLOCK_HEADER_SIZE)
  = block_bytes
      (if block =? 0 then BLOCK_IN_USE_INDICATOR
       else BLOCK_NOT_IN_USE_INDICATOR) size.
Proof.
  intros Hsize Hblock.
  pose proof (length_block_bytes BLOCK_IN_USE_INDICATOR size Hsize) as Hl1.
  pose proof (length_block_bytes BLOCK_NOT_IN_USE_INDICATOR size Hsize) as Hl0.
  rewrite (app_assoc (le_encode 2 size)).
  set (header := le_encode 2 size ++ le_encode 2 count).
  assert (length header = 4%nat) as Hheader
    by (subst header; by rewrite length_app, !length_le_encode).
  unfold bytes_at, block_offset, FIRST_BLOCK_POSITION, BLOCK_HEADER_SIZE.
  replace (Z.to_nat (4 + (size + (1 + 2 * 2)) * block))
    with (length header + Z.to_nat ((size + 5) * block))%nat by lia.
  rewrite drop_app_add.
  destruct (block =? 0) eqn:E.
  - apply Z.eqb_eq in E as ->. rewrite Z.mul_0_r. change (Z.to_nat 0) with 0%nat.
    cbn [drop skipn].
    replace (Z.to_nat (size + (1 + 2 * 2)))
      with (length (block_bytes BLOCK_IN_USE_INDICATOR size)) by lia.
    apply take_app_length.
  - apply Z.eqb_neq in E.
    replace (Z.to_nat ((size + 5) * block))
      with (length (block_bytes BLOCK_IN_USE_INDICATOR size)
            + Z.to_nat ((size + 5) * (block - 1)))%nat by nia.
    rewrite drop_app_add.
    pose proof (bytes_at_mjoin_replicate (Z.to_nat (count - 1))
                  (block_bytes BLOCK_NOT_IN_USE_INDICATOR size)
                  (Z.to_nat (block - 1)) ltac:(lia)) as Hblockbytes.
    unfold bytes_at in Hblockbytes. rewrite !Nat2Z.id in Hblockbytes.
    replace (Z.to_nat ((size + 5) * (block - 1)))
      with (Z.to_nat (block - 1)
            * length (block_bytes BLOCK_NOT_IN_USE_INDICATOR size))%nat by nia.
    replace (Z.to_nat (size + (1 + 2 * 2)))
      with (length (block_bytes BLOCK_NOT_IN_USE_INDICATOR size)) by lia.
    exact Hblockbytes.
Qed.

(** X18: formatting.  On a host without backing file,
    [create_storage_file] with a block size and a block count of at
    least 1 (both in [unsigned short]) creates a file of exactly
    [4 + (size + 5) * count] bytes: its four header bytes hold the size
    and the count, block 0 is in use, every other block is free, all
    links are [INVALID_BLOCK], and all payload bytes are 0. *)
Theorem create_storage_file_formats size count s :
  host_file s = None → 0 ≤ size < 65536 → 1 ≤ count < 65536 →
  ∃ f,
    create_storage_file size count s
    = Done tt (set_host (Some f) (host_offset s) s)
    ∧ Z.of_nat (length f) = block_offset size count
    ∧ le_decode (bytes_at f 0 2) = size
    ∧ le_decode (bytes_at f 2 2) = count
    ∧ (∀ j, 0 ≤ j < count →
         header_at f size j
         = {| in_use := (if j =? 0 then 1 else 0);
              previous_block := INVALID_BLOCK;
              next_block := INVALID_BLOCK |}
         ∧ bytes_at f (block_offset size j + BLOCK_HEADER_SIZE) size
           = replicate (Z.to_nat size) x00).
Proof.
  intros Hnone Hsize Hcount. eexists.
  split; [unfold create_storage_file; by rewrite Hnone|].
  set (f := le_encode 2 size ++ _).
  pose proof (length_block_bytes BLOCK_IN_USE_INDICATOR size ltac:(lia)) as Hl1.
  pose proof (length_block_bytes BLOCK_NOT_IN_USE_INDICATOR size ltac:(lia))
    as Hl0.
  assert (Z.of_nat (length f) = block_offset size count) as Hlen.
  { subst f. rewrite !length_app, !length_le_encode, mjoin_replicate_length.
    unfold block_offset, FIRST_BLOCK_POSITION, BLOCK_HEADER_SIZE. nia. }
  split; [done|]. split; [|split].
  - subst f.
    change 2 with (Z.of_nat (length (le_encode 2 size))) at 1.
    rewrite bytes_at_prefix. apply le_decode_encode_2. lia.
  - subst f. unfold bytes_at.
    change (Z.to_nat 2) with (length (le_encode 2 size)) at 2.
    rewrite drop_app_length.
    change (Z.to_nat 2) with (length (le_encode 2 count)).
    rewrite take_app_length. apply le_decode_encode_2. lia.
  - intros j Hj.
    pose proof (formatted_block size count j ltac:(lia) Hj) as Hblock.
    fold f in Hblock.
    pose proof (block_offset_nonneg size j ltac:(lia) ltac:(lia)) as Hoff.
    assert (∀ k m, 0 ≤ k → 0 ≤ m → k + m ≤ size + BLOCK_HEADER_SIZE →
              bytes_at f (block_offset size j + k) m
              = bytes_at
                  (block_bytes (if j =? 0 then BLOCK_IN_USE_INDICATOR
                                else BLOCK_NOT_IN_USE_INDICATOR) size) k m)
      as Hin.
    { intros k m Hk Hm Hkm. rewrite <- Hblock.
      by rewrite bytes_at_bytes_at by lia. }
    split.
    + unfold header_at.
      rewrite <- (Z.add_0_r (block_offset size j)) at 1.
      rewrite !Hin by (unfold BLOCK_HEADER_SIZE; lia).
      unfold block_bytes, bytes_at.
      change (le_encode 2 INVALID_BLOCK) with [xff; xff].
      change (Z.to_nat 0) with 0%nat. change (Z.to_nat 1) with 1%nat.
      change (Z.to_nat 2) with 2%nat. change (Z.to_nat 3) with 3%nat.
      cbn [app firstn skipn take drop].
      by destruct (j =? 0).
    + rewrite Hin by (unfold BLOCK_HEADER_SIZE; lia).
      unfold block_bytes, bytes_at, BLOCK_HEADER_SIZE.
      change (le_encode 2 INVALID_BLOCK) with [xff; xff].
      change (Z.to_nat (1 + 2 * 2)) with 5%nat.
      cbn [app firstn skipn take drop].
      apply take_ge. by rewrite length_replicate.
Qed.

Lemma create_storage_file_formats_witness :
  ∃ f,
    create_storage_file 3 2 (Storage.initial None)
    = Done tt
        (set_host (Some f) (host_offset (Storage.initial None))
           (Storage.initial None))
    ∧ Z.of_nat (length f) = block_offset 3 2
    ∧ le_decode (bytes_at f 0 2) = 3
    ∧ le_decode (bytes_at f 2 2) = 2
    ∧ (∀ j, 0 ≤ j < 2 →
         header_at f 3 j
         = {| in_use := (if j =? 0 then 1 else 0);
              previous_block := INVALID_BLOCK;
              next_block := INVALID_BLOCK |}
         ∧ bytes_at f (block_offset 3 j + BLOCK_HEADER_SIZE) 3
           = replicate (Z.to_nat 3) x00).
Proof.
  apply (create_storage_file_formats 3 2 (Storage.initial None)).
  - reflexivity.
  - lia.
  - lia.
Defined.

(** ** Running out of blocks *)

Section OutOfSpace.
Context (fd : Z) (buffer : list byte) (n : Z).
Hypothesis Hfd : fd ≠ -1.
Hypothesis Hbuf : n ≤ Z.of_nat (length buffer).
Hypothesis Hn : n < 2 ^ 63.

(** A pass of the loop of [storage_write_in_region] that fills the last
    block of the region when no block is free: the rest of the block is
    written and the loop is left with the count so far. *)
Lemma write_in_region_pass_full f block pos rpos w :
  Z.of_nat (length f) = block_offset DEFAULT_BLOCK_SIZE DEFAULT_BLOCK_COUNT →
  0 ≤ block < DEFAULT_BLOCK_COUNT → 0 ≤ pos < DEFAULT_BLOCK_SIZE →
  0 ≤ w ≤ n → DEFAULT_BLOCK_SIZE ≤ pos + (n - w) →
  next_of f block = INVALID_BLOCK →
  frontier f DEFAULT_BLOCK_COUNT →
  ∃ s',
    write_in_region_pass buffer n w (at_cursor fd f block pos rpos)
    = Done (inr (true, w + (DEFAULT_BLOCK_SIZE - pos))) s'
    ∧ host_file s'
      = Some (patch f (payload_offset block + pos)
                (bytes_at buffer w (DEFAULT_BLOCK_SIZE - pos))).
Proof.
  intros Hlen Hblock Hpos Hw Hcross Hnext Hfront.
  set (chunk := bytes_at buffer w (DEFAULT_BLOCK_SIZE - pos)).
  assert (Z.of_nat (length chunk) = DEFAULT_BLOCK_SIZE - pos) as Hchunk
    by (subst chunk; rewrite length_bytes_at; geo).
  set (f1 := patch f (payload_offset block + pos) chunk).
  assert (length f1 = length f) as Hl1 by apply length_patch.
  assert (frontier f1 DEFAULT_BLOCK_COUNT) as Hfront1
    by (apply frontier_patch_payload; try done; geo).
  set (s1 := set_host (Some f1) (payload_offset block + pos + Z.of_nat (length chunk))
               (at_cursor fd f block pos rpos)).
  destruct (allocate_block_scan_full (Z.to_nat DEFAULT_BLOCK_COUNT) s1 f1 block 0)
    as (s' & Halloc & Hfile & _); try done.
  { subst s1. unfold at_cursor. fields. split; [geo|geo|lia|geo]. }
  { subst s1. unfold at_cursor. fields. by destruct Hfront1 as [Hused _]. }
  exists s'. split; [|done].
  unfold write_in_region_pass, at_cursor.
  erewrite bind_eq by reflexivity. erewrite bind_eq by reflexivity. fields.
  rewrite (to_size_t_small (pos + n - w)) by geo.
  destruct (_ <=? _) eqn:E; [clear E|exfalso; geo].
  rewrite (to_size_t_small (DEFAULT_BLOCK_SIZE - pos)) by geo.
  rewrite (to_int_small (DEFAULT_BLOCK_SIZE - pos)) by geo.
  erewrite bind_eq; cycle 1.
  { unfold buffer_slice. rewrite slice_in_bounds by geo. reflexivity. }
  fold chunk.
  erewrite bind_eq by (apply (host_write_in_bounds _ f); fields; try done; geo).
  fields. fold f1.
  rewrite (to_size_t_small (w + (DEFAULT_BLOCK_SIZE - pos))) by geo.
  erewrite bind_eq by reflexivity. fields.
  fold (next_of f block). rewrite Hnext.
  rewrite Z.eqb_refl. cbn [negb].
  erewrite bind_eq by reflexivity. fields.
  erewrite bind_eq; cycle 1.
  { unfold allocate_block. erewrite bind_eq by reflexivity. fields.
    exact Halloc. }
  rewrite Z.eqb_refl. reflexivity.
Qed.

(** The loop of [storage_write_in_region], and what follows it, when
    the data need more than the [m] blocks that are free. *)
Lemma write_in_region_runs_out m : ∀ fuel w f block pos a rpos,
  (m < fuel)%nat →
  Z.of_nat (length f) = block_offset DEFAULT_BLOCK_SIZE DEFAULT_BLOCK_COUNT →
  0 ≤ block < a → a + Z.of_nat m = DEFAULT_BLOCK_COUNT →
  0 ≤ pos < DEFAULT_BLOCK_SIZE → 0 ≤ w ≤ n →
  next_of f block = INVALID_BLOCK →
  frontier f a →
  DEFAULT_BLOCK_SIZE * (Z.of_nat m + 1) ≤ pos + (n - w) →
  ∃ s' f',
    (let* left := iter fuel (write_in_region_pass buffer n) w in
     write_in_region_rest buffer n left) (at_cursor fd f block pos rpos)
    = Done (w + DEFAULT_BLOCK_SIZE * (Z.of_nat m + 1) - pos) s'
    ∧ host_file s' = Some f'
    ∧ frontier f' DEFAULT_BLOCK_COUNT.
Proof.
  induction m as [|m IH];
    intros fuel w f block pos a rpos Hfuel Hlen Hblock Ha Hpos Hw Hnext
      Hfront Hneed;
    (destruct fuel as [|fuel]; [lia|]).
  - assert (a = DEFAULT_BLOCK_COUNT) as -> by lia.
    destruct (write_in_region_pass_full f block pos rpos w)
      as (s' & Hpass & Hfile); try done; try geo.
    exists s'. eexists. split; [|split; [exact Hfile|]].
    + unfold bind. rewrite iter_succ, Hpass. cbn [write_in_region_rest].
      unfold ret. f_equal. geo.
    + apply frontier_patch_payload; try done; try geo.
      rewrite length_bytes_at; geo.
  - set (chunk := bytes_at buffer w (DEFAULT_BLOCK_SIZE - pos)).
    assert (Z.of_nat (length chunk) = DEFAULT_BLOCK_SIZE - pos) as Hchunk
      by (subst chunk; rewrite length_bytes_at; geo).
    set (f3 := patch (patch (patch f (payload_offset block + pos) chunk)
                        (block_offset DEFAULT_BLOCK_SIZE a)
                        (allocated_header block))
                 (block_offset DEFAULT_BLOCK_SIZE block + 3) (le_encode 2 a)).
    assert (length f3 = length f) as Hl3
      by (subst f3; by rewrite !length_patch).
    destruct (IH fuel (w + (DEFAULT_BLOCK_SIZE - pos)) f3 a 0 (a + 1) rpos)
      as (s' & f' & Heq & Hfile & Hfull); try lia; try geo.
    + subst f3. apply next_of_appended; geo.
    + subst f3. apply frontier_appended; try done; geo.
    + exists s', f'. split; [|done].
      replace (w + DEFAULT_BLOCK_SIZE * (Z.of_nat (S m) + 1) - pos)
        with (w + (DEFAULT_BLOCK_SIZE - pos)
              + DEFAULT_BLOCK_SIZE * (Z.of_nat m + 1) - 0) by geo.
      rewrite <- Heq.
      unfold bind. rewrite iter_succ.
      rewrite (write_in_region_pass_appends fd f block pos rpos buffer n w a)
        by (try done; geo).
      reflexivity.
Qed.

End OutOfSpace.

(** X19: running out of blocks.  When the data need more blocks than
    are free, [storage_write_in_region] stops: from the start of a
    region that ends in its first block, with the blocks below [a] in
    use (flag byte 1) and the blocks from [a] on free (flag byte 0), it
    returns the bytes that fit, one block's size for the block of the
    region and for each free block, and leaves every block in use
    (flag byte 1). *)
Theorem storage_write_out_of_space fuel s f a region buffer n_bytes :
  mounted s f → one_block_region f a region →
  a ≤ DEFAULT_BLOCK_COUNT →
  DEFAULT_BLOCK_SIZE * (DEFAULT_BLOCK_COUNT - a + 1) ≤ n_bytes →
  n_bytes ≤ Z.of_nat (length buffer) → n_bytes < 2 ^ 63 →
  (Z.to_nat (DEFAULT_BLOCK_COUNT - a) < fuel)%nat →
  ∃ s' f',
    (storage_jump_to_region region;;
     storage_write_in_region fuel buffer n_bytes) s
    = Done (DEFAULT_BLOCK_SIZE * (DEFAULT_BLOCK_COUNT - a + 1)) s'
    ∧ host_file s' = Some f'
    ∧ frontier f' DEFAULT_BLOCK_COUNT.
Proof.
  intros Hm [Hlen Hfront Hregion Hlast] Ha Hneed Hbuf Hn Hfuel.
  pose proof (mounted_open _ _ Hm) as Hfd.
  destruct (write_in_region_runs_out (storage_file_ s) buffer n_bytes Hfd Hbuf Hn
              (Z.to_nat (DEFAULT_BLOCK_COUNT - a)) fuel 0 f region 0 a 0)
    as (s' & f' & Heq & Hfile & Hfull); try done;
    try (rewrite ?Z2Nat.id by lia; geo).
  exists s', f'. split; [|done].
  erewrite bind_eq by (apply (storage_jump_to_region_mounted _ f); [done|geo]).
  unfold storage_write_in_region.
  erewrite bind_eq
    by (eapply storage_initialized_mounted, mounted_at_cursor; done).
  cbn [negb]. rewrite Heq. f_equal. rewrite Z2Nat.id by lia. lia.
Qed.

Lemma storage_write_out_of_space_witness :
  ∃ s' f',
    (storage_jump_to_region 1;;
     storage_write_in_region 200 (replicate 1300 "a"%byte) 1300)
      (engine with_empty_file)
    = Done (DEFAULT_BLOCK_SIZE * (DEFAULT_BLOCK_COUNT - 4 + 1)) s'
    ∧ host_file s' = Some f'
    ∧ frontier f' DEFAULT_BLOCK_COUNT.
Proof.
  apply (storage_write_out_of_space 200 (engine with_empty_file)
           empty_file_bytes 4 1 (replicate 1300 "a"%byte) 1300).
  - split; vm_compute; try reflexivity. discriminate.
  - split.
    + vm_compute. reflexivity.
    + apply frontierb_frontier; [geo|vm_compute; reflexivity].
    + lia.
    + vm_compute. reflexivity.
  - vm_compute. discriminate.
  - vm_compute. discriminate.
  - rewrite length_replicate. lia.
  - lia.
  - vm_compute. lia.
Defined.

(** ** Files that outlive their descriptors *)

Lemma spans_holds f lo hi block pos data :
  spans f lo hi block pos data → hi ≤ DEFAULT_BLOCK_COUNT →
  holds f lo block pos data.
Proof.
  induction 1 as [block pos data Hfit Hb|block pos data Hc Hb Hn H IH];
    intros Hhi.
  - by apply holds_here.
  - apply holds_next; try done; [lia|by apply IH].
Qed.

Lemma spans_weaken f lo lo' hi hi' block pos data :
  lo' ≤ lo → hi ≤ hi' →
  spans f lo hi block pos data → spans f lo' hi' block pos data.
Proof.
  intros Hlo Hhi H.
  induction H as [block pos data Hfit Hb|block pos data Hc Hb Hn H IH].
  - by apply spans_here.
  - apply spans_next; try done. lia.
Qed.

(** What a region holds depends on the [next] field of its first
    block, on the payload of that block from [pos] on, and on the blocks
    from [lo] to [hi]. *)
Lemma spans_frame f f' lo hi block pos data :
  spans f lo hi block pos data →
  0 ≤ block → 0 ≤ lo → 0 ≤ pos < DEFAULT_BLOCK_SIZE →
  (∀ off m, 0 ≤ off → 0 ≤ m →
     (block_offset DEFAULT_BLOCK_SIZE block + 3 ≤ off ∧
      off + m ≤ block_offset DEFAULT_BLOCK_SIZE block + 5)
     ∨ (payload_offset block + pos ≤ off ∧
        off + m ≤ block_offset DEFAULT_BLOCK_SIZE (block + 1))
     ∨ (block_offset DEFAULT_BLOCK_SIZE lo ≤ off ∧
        off + m ≤ block_offset DEFAULT_BLOCK_SIZE hi) →
     bytes_at f' off m = bytes_at f off m) →
  spans f' lo hi block pos data.
Proof.
  intros H.
  induction H as [block pos data Hfit Hb|block pos data Hc Hb Hn H IH];
    intros Hblock Hlo Hpos Hsame.
  - apply spans_here; [done|]. rewrite Hsame; [done|geo|lia|].
    right. left. geo.
  - assert (next_of f' block = next_of f block) as Hnext.
    { unfold next_of, header_at. cbn [next_block].
      rewrite Hsame; [done|geo|lia|]. left. geo. }
    apply spans_next; try done.
    + rewrite Hsame; [done|geo|geo|]. right. left. geo.
    + by rewrite Hnext.
    + rewrite Hnext. apply IH; try lia; try geo.
      intros off m Hoff Hm Hin. apply Hsame; try done.
      right. right. destruct Hin as [?|[?|?]]; geo.
Qed.

(** What a write leaves is held by the block it started in and by the
    blocks it appended. *)
Lemma written_spans k : ∀ f block pos a data,
  writable k f block pos a data →
  spans (written k f block pos a data) a
    (a + (pos + Z.of_nat (length data)) / DEFAULT_BLOCK_SIZE) block pos data.
Proof.
  induction k as [|k IH]; intros f block pos a data Hw;
    cbn [written]; destruct (_ <? _) eqn:E.
  - destruct Hw as (? & ? & ? & ? & ? & ?).
    apply spans_here; [geo|]. apply bytes_at_patch_eq; geo.
  - destruct Hw as (? & ? & ? & ? & ? & ?). exfalso. geo.
  - destruct Hw as (? & ? & ? & ? & ? & ?).
    apply spans_here; [geo|]. apply bytes_at_patch_eq; geo.
  - destruct (writable_next _ _ _ _ _ _ Hw ltac:(geo)) as (Ha' & Hrest & Hnext).
    pose proof Hw as (Hlen & Hblock & _ & Hpos & _ & _).
    set (chunk := bytes_at data 0 (DEFAULT_BLOCK_SIZE - pos)).
    assert (Z.of_nat (length chunk) = DEFAULT_BLOCK_SIZE - pos) as Hchunk
      by (subst chunk; rewrite length_bytes_at; geo).
    set (f1 := patch f (payload_offset block + pos) chunk).
    set (f2 := patch f1 _ (allocated_header block)).
    set (f3 := patch f2 _ (le_encode 2 a)).
    set (rest := bytes_at data (DEFAULT_BLOCK_SIZE - pos) _) in *.
    assert (length f3 = length f) as Hl3
      by (subst f3 f2 f1; by rewrite !length_patch).
    specialize (Hnext f3 Hl3).
    assert (∀ off m, 0 ≤ off → 0 ≤ m →
              block_offset DEFAULT_BLOCK_SIZE block + 3 ≤ off →
              off + m ≤ block_offset DEFAULT_BLOCK_SIZE (block + 1) →
              bytes_at (written k f3 a 0 (a + 1) rest) off m
              = bytes_at f3 off m) as Hframe.
    { intros off m Hoff Hm H1 H2. apply written_frame; try done; geo. }
    assert (next_of (written k f3 a 0 (a + 1) rest) block = a) as Hlink.
    { unfold next_of, header_at. cbn [next_block].
      rewrite Hframe by geo. subst f3.
      replace 2 with (Z.of_nat (length (le_encode 2 a))) at 2
        by (by rewrite length_le_encode).
      rewrite bytes_at_patch_eq
        by (subst f2 f1; rewrite ?length_patch, ?length_le_encode; geo).
      apply le_decode_encode_2. geo. }
    assert ((pos + Z.of_nat (length data)) / DEFAULT_BLOCK_SIZE
            = 1 + (0 + Z.of_nat (length rest)) / DEFAULT_BLOCK_SIZE) as Hdiv.
    { rewrite Hrest, Z.add_0_l.
      replace (pos + Z.of_nat (length data))
        with ((Z.of_nat (length data) - (DEFAULT_BLOCK_SIZE - pos))
              + 1 * DEFAULT_BLOCK_SIZE) by lia.
      rewrite Z.div_add by geo. lia. }
    assert (0 ≤ (0 + Z.of_nat (length rest)) / DEFAULT_BLOCK_SIZE)
      by (apply Z.div_pos; geo).
    apply spans_next.
    + geo.
    + rewrite Hframe by geo. subst f3 f2.
      rewrite !bytes_at_patch_ne
        by (rewrite ?length_le_encode, ?length_allocated_header; geo).
      subst f1. fold chunk. rewrite <- Hchunk. apply bytes_at_patch_eq; geo.
    + rewrite Hlink. lia.
    + rewrite Hlink, Hdiv.
      pose proof (IH _ _ _ _ _ Hnext) as Hs.
      eapply spans_weaken; [| |exact Hs]; lia.
Qed.

(** *** Finding the first entry of the root directory *)

Lemma list_byte_eqb_refl l : list_byte_eqb l l = true.
Proof.
  induction l as [|c l IH]; [done|]. cbn [list_byte_eqb].
  rewrite IH. by destruct c.
Qed.

Lemma cstr_app_nul path :
  Forall (λ c, c ≠ x00) path → cstr (path ++ [x00]) = path.
Proof.
  induction 1 as [|c path Hc _ IH]; [done|].
  cbn [cstr app]. destruct (Byte.eqb c x00) eqn:E.
  - by apply Byte.byte_dec_bl in E.
  - by rewrite IH.
Qed.

Lemma storage_read_from fuel fd f lo block pos data rpos :
  fd ≠ -1 →
  Z.of_nat (length f) = block_offset DEFAULT_BLOCK_SIZE DEFAULT_BLOCK_COUNT →
  0 ≤ lo → holds f lo block pos data →
  0 ≤ block < DEFAULT_BLOCK_COUNT → 0 ≤ pos < DEFAULT_BLOCK_SIZE →
  Z.of_nat (length data) < 2 ^ 63 → 0 ≤ rpos < 2 ^ 63 →
  (length data < fuel)%nat →
  ∃ block' pos',
    storage_read_in_region fuel (Z.of_nat (length data))
      (at_cursor fd f block pos rpos)
    = Done (Z.of_nat (length data), data)
        (at_cursor fd f block' pos' (rpos + Z.of_nat (length data))).
Proof.
  intros Hfd Hlen Hlo Hholds Hblock Hpos Hn Hrpos Hfuel.
  destruct (read_in_region_from fd f lo Hfd Hlen Hlo block pos data Hholds
              fuel 0 [] rpos (Z.of_nat (length data)))
    as (block' & pos' & Heq); try lia; try geo.
  exists block', pos'. unfold storage_read_in_region.
  erewrite bind_eq
    by (eapply storage_initialized_mounted, mounted_at_cursor; done).
  cbn [negb]. exact Heq.
Qed.

Lemma byte_eqb_refl (b : byte) : Byte.eqb b b = true.
Proof. by destruct b. Qed.

Lemma strcmp_unset_refl name :
  Forall (λ c, c ≠ x00) name → strcmp_unset name 0 name = Some true.
Proof.
  induction 1 as [|c name Hc _ IH]; [done|].
  cbn [strcmp_unset]. destruct (Byte.eqb c x00) eqn:E.
  - by apply Byte.byte_dec_bl in E.
  - by rewrite byte_eqb_refl.
Qed.

Lemma same_name_refl {S} name (s : S) :
  Forall (λ c, c ≠ x00) name → same_name (name, 0%nat) name s = Done true s.
Proof.
  intros Hname. unfold same_name. cbn [fst snd].
  by rewrite strcmp_unset_refl.
Qed.

(** Reading a name that the region holds behind its length byte. *)
Lemma read_name_holds fuel fd f lo block pos rpos name :
  fd ≠ -1 →
  Z.of_nat (length f) = block_offset DEFAULT_BLOCK_SIZE DEFAULT_BLOCK_COUNT →
  0 ≤ lo → 0 ≤ block < DEFAULT_BLOCK_COUNT →
  0 ≤ pos → pos + 1 < DEFAULT_BLOCK_SIZE → 0 ≤ rpos < 2 ^ 62 →
  (length name < 128)%nat → (length name < fuel)%nat →
  bytes_at f (payload_offset block + pos) 1
  = le_encode 1 (Z.of_nat (length name)) →
  holds f lo block (pos + 1) name →
  ∃ block' pos',
    read_name fuel (at_cursor fd f block pos rpos)
    = Done (name, 0%nat)
        (at_cursor fd f block' pos' (rpos + 1 + Z.of_nat (length name))).
Proof.
  intros Hfd Hlen Hlo Hblock Hpos Hfit Hrpos HL Hfuel Hnamelen Hname.
  destruct (storage_read_from fuel fd f lo block (pos + 1) name (rpos + 1))
    as (block' & pos' & Hread); try done; try geo.
  exists block', pos'. unfold read_name.
  erewrite bind_eq by (apply read_scalar_in_block; try done; geo).
  erewrite bind_eq by reflexivity.
  change (Z.of_nat 1) with 1.
  rewrite Hnamelen, le_decode_encode.
  change (256 ^ Z.of_nat 1) with 256. rewrite Z.mod_small by lia.
  destruct (128 <=? Z.of_nat (length name)) eqn:E; [lia|clear E].
  erewrite bind_eq by exact Hread.
  cbn [snd]. rewrite Nat2Z.id, Nat.ltb_irrefl, Nat.sub_diag. reflexivity.
Qed.

(** The lookup of a name that the first entry of the root directory
    lists returns the regions and the length stored there. *)
Lemma find_virtual_file_listed fuel path s f lo hi file :
  (length path < fuel)%nat →
  mounted s f → single_component path → (length path < 128)%nat →
  listed f lo hi file path →
  0 ≤ lo → hi ≤ DEFAULT_BLOCK_COUNT →
  0 ≤ metadata_region file < DEFAULT_BLOCK_COUNT →
  0 ≤ content_region file < 65536 →
  0 ≤ file_length file < 2 ^ 64 →
  reader_position file = 0 →
  ∃ e, find_virtual_file fuel path s = Done file e ∧ mounted e f.
Proof.
  intros Hfuel Hm Hpath HL [Htype Hmeta Hcontent Hlength Hnamelen Hname]
    Hlo Hhi Hmr Hcr Hfl Hrp.
  pose proof (mounted_length _ _ Hm) as Hlen.
  pose proof (mounted_open _ _ Hm) as Hfd.
  destruct file as [content metadata len rp]. cbn in Hrp. subst rp.
  cbn [content_region metadata_region file_length] in *.
  unfold find_virtual_file.
  erewrite bind_eq by (by apply navigate_to_root).
  cbn [directory_region remainder_of remainder_path].
  change (root_directory_region_ =? INVALID_REGION) with false. cbn iota.
  set (fd := storage_file_ s) in *.
  change root_directory_region_ with 0 in *.
  apply spans_holds in Hname; [|done].
  destruct (read_name_holds fuel fd f lo metadata 8 8 path)
    as (block' & pos' & Hread); try done; try geo.
  exists (at_cursor fd f block' pos' (8 + 1 + Z.of_nat (length path))).
  split; [|by apply mounted_at_cursor].
  apply iter_break; [lia|].
  erewrite bind_eq by (apply read_scalar_in_block; try done; geo).
  erewrite bind_eq by reflexivity.
  change (Z.of_nat 1) with 1. rewrite Z.add_0_r, Htype.
  change (le_decode (bytes_at (le_encode 4 FILE_ENTRY) 0 1)) with FILE_ENTRY.
  change (FILE_ENTRY =? NULL_ENTRY) with false.
  change (FILE_ENTRY =? FILE_ENTRY) with true. cbn [negb]. cbn iota.
  erewrite bind_eq by (apply read_scalar_in_block; try done; geo).
  change (Z.of_nat 2) with 2. change (0 + 1) with 1.
  rewrite Hmeta, le_decode_encode_2 by geo.
  erewrite bind_eq by (apply read_scalar_in_block; try done; geo).
  change (Z.of_nat 2) with 2. change (1 + 2) with 3.
  rewrite Hcontent, le_decode_encode_2 by geo.
  erewrite bind_eq by (apply storage_seek_zero; try done; lia).
  erewrite bind_eq by reflexivity.
  erewrite bind_eq; cycle 1.
  { apply (storage_jump_to_region_mounted _ f);
      [apply mounted_at_cursor; [done|lia]|geo]. }
  change (storage_file_ _) with fd.
  erewrite bind_eq by (apply read_scalar_in_block; try done; geo).
  change (Z.of_nat 8) with 8. rewrite Z.add_0_r, Hlength, le_decode_encode.
  change (256 ^ Z.of_nat 8) with (2 ^ 64). rewrite Z.mod_small by lia.
  change (0 + 8) with 8.
  erewrite bind_eq by exact Hread.
  erewrite bind_eq
    by (apply same_name_refl; eapply Forall_impl; [exact Hpath|];
        by intros ? [_ ?]).
  reflexivity.
Qed.

(** *** The entry that [create_virtual_file] leaves *)

Lemma create_virtual_file_listed fuel path s f :
  (11 < fuel)%nat → mounted s f → single_component path →
  (length path ≤ 100)%nat →
  frontier f 1 →
  bytes_at f (payload_offset root_directory_region_) 1 = [x00] →
  let file := {| content_region := 1; metadata_region := 2;
                 file_length := 0; reader_position := 0 |} in
  let a := 3 + (9 + Z.of_nat (length path)) / DEFAULT_BLOCK_SIZE in
  ∃ f' e,
    create_virtual_file fuel path s = Done file e
    ∧ mounted e f'
    ∧ one_block_region f' a 1
    ∧ listed f' 3 a file path.
Proof.
  intros Hfuel Hm Hpath HL Hfront Hempty file a. subst file a.
  pose proof (mounted_length _ _ Hm) as Hlen.
  pose proof (mounted_open _ _ Hm) as Hfd.
  unfold create_virtual_file.
  erewrite bind_eq by (by apply navigate_to_root).
  cbn [directory_region remainder_of remainder_path].
  change (root_directory_region_ =? INVALID_REGION) with false. cbn iota.
  set (fd := storage_file_ s) in *.
  set (s0 := at_cursor fd f root_directory_region_ 0 0).
  assert (mounted s0 f) as Hm0 by (by apply mounted_at_cursor).
  (* the two regions *)
  erewrite bind_eq
    by (apply (storage_allocate_region_frontier s0 f 1); [done|done|geo]).
  change (1 =? INVALID_REGION) with false. cbn iota.
  set (f1 := patch f (block_offset DEFAULT_BLOCK_SIZE 1)
               (allocated_header INVALID_BLOCK)).
  assert (frontier f1 2) as Hfront1
    by (apply (frontier_allocated f 1); try done; geo).
  assert (Z.of_nat (length f1) = Z.of_nat (length f)) as Hl1
    by (subst f1; by rewrite length_patch).
  erewrite bind_eq; cycle 1.
  { apply (storage_allocate_region_frontier _ f1 2);
      [by apply allocated_mounted|done|geo]. }
  change (2 =? INVALID_REGION) with false. cbn iota.
  set (f2 := patch f1 (block_offset DEFAULT_BLOCK_SIZE 2)
               (allocated_header INVALID_BLOCK)).
  assert (frontier f2 3) as Hfront2
    by (apply (frontier_allocated f1 2); try done; geo).
  assert (Z.of_nat (length f2) = Z.of_nat (length f)) as Hl2
    by (subst f2; by rewrite length_patch).
  (* the entry in the root directory *)
  erewrite bind_eq; cycle 1.
  { apply (storage_jump_to_region_mounted _ f2);
      [by do 2 apply allocated_mounted|unfold root_directory_region_; geo]. }
  change (storage_file_ _) with fd. change root_directory_region_ with 0 in *.
  assert (bytes_at f2 (payload_offset 0 + 0) 1 = [x00]) as Hempty2.
  { subst f2 f1. rewrite !bytes_at_patch_ne by geo.
    by rewrite Z.add_0_r. }
  erewrite bind_eq by (apply find_available_entry_here; try done; geo).
  erewrite bind_eq by (apply storage_seek_back_one; geo).
  change (0 + 1 - 1) with 0.
  erewrite bind_eq by (apply storage_write_in_block; try done; geo).
  set (f3 := patch f2 _ _).
  assert (Z.of_nat (length f3) = Z.of_nat (length f)) as Hl3
    by (subst f3; by rewrite length_patch).
  erewrite bind_eq by (apply storage_write_in_block; try done; geo).
  set (f4 := patch f3 _ _).
  assert (Z.of_nat (length f4) = Z.of_nat (length f)) as Hl4
    by (subst f4; by rewrite length_patch).
  erewrite bind_eq by (apply storage_write_in_block; try done; geo).
  set (f5 := patch f4 _ _).
  assert (Z.of_nat (length f5) = Z.of_nat (length f)) as Hl5
    by (subst f5; by rewrite length_patch).
  (* the metadata region: length, length of the name, name *)
  erewrite bind_eq; cycle 1.
  { apply (storage_jump_to_region_mounted _ f5);
      [apply mounted_at_cursor; [done|lia]|geo]. }
  change (storage_file_ _) with fd.
  erewrite bind_eq by (apply storage_write_in_block; try done; geo).
  set (f6 := patch f5 _ _).
  assert (Z.of_nat (length f6) = Z.of_nat (length f)) as Hl6
    by (subst f6; by rewrite length_patch).
  assert (Z.of_nat (length path) ≤ 100) as HL' by lia.
  unfold remainder_path_length.
  rewrite (to_char_small (Z.of_nat (length path))) by lia.
  rewrite (to_size_t_small (Z.of_nat (length path))) by lia.
  erewrite bind_eq by (apply storage_write_in_block; try done; geo).
  set (f7 := patch f6 _ _).
  assert (Z.of_nat (length f7) = Z.of_nat (length f)) as Hl7
    by (subst f7; by rewrite length_patch).
  change (0 + 8 + 1) with 9.
  assert (frontier f7 3) as Hfront7.
  { subst f7 f6 f5 f4 f3.
    repeat (apply frontier_patch_payload;
            [lia|lia|rewrite length_bytes_at by (cbn [length le_encode]; lia); geo
            | |lia]).
    done. }
  assert (∀ j, 0 ≤ j → header_at f7 DEFAULT_BLOCK_SIZE j
                       = header_at f2 DEFAULT_BLOCK_SIZE j) as Hheaders.
  { intros j Hj. subst f7 f6 f5 f4 f3.
    rewrite !header_at_patch_payload
      by (rewrite ?length_bytes_at by (cbn [length le_encode]; lia); geo).
    done. }
  assert (next_of f7 2 = INVALID_BLOCK) as Hnext2.
  { unfold next_of. rewrite Hheaders by lia. subst f2.
    rewrite next_of_allocated; [done|geo|lia|geo]. }
  assert (next_of f7 1 = INVALID_BLOCK) as Hnext1.
  { unfold next_of. rewrite Hheaders by lia. subst f2.
    rewrite header_at_patch_outside
      by (rewrite ?length_allocated_header; geo).
    subst f1. rewrite next_of_allocated; [done|geo|lia|geo]. }
  pose proof (bytes_at_prefix path [x00]) as Hdata.
  assert (writable 10 f7 2 9 3
            (bytes_at (path ++ [x00]) 0 (Z.of_nat (length path)))) as Hw.
  { rewrite Hdata. unfold writable.
    assert ((9 + Z.of_nat (length path)) / DEFAULT_BLOCK_SIZE < 11)
      by (apply Z.div_lt_upper_bound; geo).
    repeat split; try lia; geo. }
  destruct (storage_write_appends 10 fuel fd (path ++ [x00])
              (Z.of_nat (length path)) f7 2 9 3 9)
    as (block' & pos' & Heq); try done; try lia.
  { rewrite length_app. cbn [length]. lia. }
  rewrite Hdata in Heq, Hw.
  eexists _, _. split; [|split; [|split]].
  - erewrite bind_eq by exact Heq. reflexivity.
  - apply mounted_at_cursor; [done|]. rewrite length_written. lia.
  - split.
    + rewrite length_written. lia.
    + by apply written_frontier.
    + assert (0 ≤ (9 + Z.of_nat (length path)) / DEFAULT_BLOCK_SIZE)
        by (apply Z.div_pos; geo).
      lia.
    + unfold next_of, header_at. cbn [next_block].
      rewrite written_frame; [exact Hnext1|done|geo|lia|geo|left; geo].
  - split; cbn [content_region metadata_region file_length];
      change root_directory_region_ with 0;
      try (rewrite written_frame;
           [|exact Hw|geo|lia|geo|first [left; geo|right; right; geo]]).
    + subst f7 f6 f5 f4.
      do 4 rewrite bytes_at_patch_ne
        by (rewrite ?length_bytes_at by (cbn [length le_encode]; lia); geo).
      subst f3. rewrite bytes_at_patch_in
        by (rewrite ?length_bytes_at by (cbn [length le_encode]; lia); geo).
      reflexivity.
    + subst f7 f6 f5.
      do 3 rewrite bytes_at_patch_ne
        by (rewrite ?length_bytes_at by (cbn [length le_encode]; lia); geo).
      subst f4. rewrite bytes_at_patch_in
        by (rewrite ?length_bytes_at by (cbn [length le_encode]; lia); geo).
      reflexivity.
    + subst f7 f6.
      do 2 rewrite bytes_at_patch_ne
        by (rewrite ?length_bytes_at by (cbn [length le_encode]; lia); geo).
      subst f5. rewrite bytes_at_patch_in
        by (rewrite ?length_bytes_at by (cbn [length le_encode]; lia); geo).
      reflexivity.
    + subst f7.
      rewrite bytes_at_patch_ne
        by (rewrite ?length_bytes_at by (cbn [length le_encode]; lia); geo).
      subst f6. rewrite bytes_at_patch_in
        by (rewrite ?length_bytes_at by (cbn [length le_encode]; lia); geo).
      reflexivity.
    + subst f7. rewrite bytes_at_patch_in
        by (rewrite ?length_bytes_at by (cbn [length le_encode]; lia); geo).
      replace (payload_offset 2 + 8 - (payload_offset 2 + (0 + 8))) with 0
        by lia.
      reflexivity.
    + by apply written_spans.
Qed.

(** *** The entry after a write *)

Lemma write_virtual_listed fuel fd data path s f a lo hi content metadata :
  mounted (engine s) f →
  one_block_region f a content →
  listed f lo hi {| content_region := content; metadata_region := metadata;
                    file_length := 0; reader_position := 0 |} path →
  descriptor fd (descriptors_ s)
  = Some {| content_region := content; metadata_region := metadata;
            file_length := 0; reader_position := 0 |} →
  last_used_descriptor_ s ≠ fd →
  0 < content < lo → 0 < metadata < lo → metadata ≠ content →
  lo ≤ hi ≤ a →
  a + Z.of_nat (length data) / DEFAULT_BLOCK_SIZE ≤ DEFAULT_BLOCK_COUNT →
  (Z.to_nat (Z.of_nat (length data) / DEFAULT_BLOCK_SIZE) < fuel)%nat →
  ∃ f' s',
    write_virtual fuel fd data (Z.of_nat (length data)) s
    = Done (Z.of_nat (length data)) s'
    ∧ mounted (engine s') f'
    ∧ holds f' a content 0 data
    ∧ listed f' lo hi
        {| content_region := content; metadata_region := metadata;
           file_length := Z.of_nat (length data) + 1; reader_position := 0 |}
        path
    ∧ descriptor fd (descriptors_ s')
      = Some {| content_region := content; metadata_region := metadata;
                file_length := Z.of_nat (length data) + 1;
                reader_position := Z.of_nat (length data) |}
    ∧ last_used_descriptor_ s' = -1.
Proof.
  intros Hm [Hlen Hfront Hcontent Hlast]
    [Htype Hmeta' Hcontent' Hlength Hnamelen Hname]
    Hdesc Hused Hc Hmeta Hne Hhi Hfree Hfuel.
  cbn [content_region metadata_region file_length] in *.
  destruct s as [e ds last]. fsfields in *.
  pose proof (mounted_open _ _ Hm) as Hfd.
  set (n := Z.of_nat (length data)) in *.
  assert (0 ≤ n / DEFAULT_BLOCK_SIZE) as Hq by (apply Z.div_pos; geo).
  assert (n < DEFAULT_BLOCK_SIZE * DEFAULT_BLOCK_COUNT) as Hn.
  { assert (n / DEFAULT_BLOCK_SIZE < DEFAULT_BLOCK_COUNT) as Hlt by lia.
    unfold DEFAULT_BLOCK_SIZE, DEFAULT_BLOCK_COUNT in *.
    pose proof (Z.mul_succ_div_gt n 10 ltac:(lia)). lia. }
  unfold write_virtual.
  erewrite bind_eq by reflexivity. fsfields. rewrite Hdesc.
  (* the engine moves to the start of the content region *)
  erewrite bind_eq; cycle 1.
  { unfold jump_to_file_if_needed.
    erewrite bind_eq by reflexivity. fsfields.
    destruct (last =? fd) eqn:E; [lia|clear E].
    erewrite bind_eq by (by apply deref_eq). fsfields.
    erewrite bind_eq
      by (apply lift_eq, (storage_jump_to_region_mounted _ f); [done|geo]).
    fsfields. change (to_off_t 0) with 0.
    erewrite bind_eq
      by (apply lift_eq, storage_seek_zero; try done; lia).
    reflexivity. }
  fsfields.
  (* the data go to the content region *)
  set (k := Z.to_nat (n / DEFAULT_BLOCK_SIZE)) in *.
  assert (bytes_at data 0 n = data) as Hdata by apply bytes_at_all.
  assert (writable k f content 0 a data) as Hw.
  { pose proof (Z.mul_succ_div_gt n DEFAULT_BLOCK_SIZE ltac:(geo)).
    unfold writable. fold n. subst k. rewrite Z2Nat.id, !Z.add_0_l by done.
    repeat split; try lia; geo. }
  destruct (storage_write_appends k fuel (storage_file_ e) data n f content 0 a 0)
    as (block' & pos' & Hwrite); rewrite ?Hdata; try done; try geo.
  rewrite Hdata in Hwrite.
  set (f1 := written k f content 0 a data) in *.
  assert (Z.of_nat (length f1) = Z.of_nat (length f)) as Hl1
    by (subst f1; by rewrite length_written).
  erewrite bind_eq by (apply lift_eq; exact Hwrite). fsfields.
  erewrite bind_eq by (by apply deref_eq). fsfields.
  rewrite (to_size_t_small (0 + n)) by geo.
  erewrite bind_eq by reflexivity. fsfields.
  destruct (0 <=? 0 + n) eqn:E; [clear E|lia].
  rewrite (to_size_t_small (0 + n + 1)) by geo.
  (* the new length goes to the metadata region *)
  erewrite bind_eq; cycle 1.
  { erewrite bind_eq by reflexivity. fsfields.
    unfold update_virtual_file_metadata.
    erewrite bind_eq; cycle 1.
    { apply lift_eq. fsfields.
      apply (storage_jump_to_region_mounted _ f1);
        [apply mounted_at_cursor; [done|lia]|geo]. }
    fsfields. change (storage_file_ _) with (storage_file_ e).
    erewrite bind_eq
      by (apply lift_eq, storage_write_in_block; try done; try geo;
          rewrite length_le_encode; lia).
    reflexivity. }
  fsfields.
  rewrite to_off_t_small by geo.
  eexists _, _. split; [reflexivity|]. fsfields.
  rewrite !Z.add_0_l.
  assert (Z.of_nat (length (bytes_at (le_encode 8 (n + 1)) 0 8)) = 8) as Hl8
    by (rewrite length_bytes_at; rewrite ?length_le_encode; lia).
  assert (∀ off m, 0 ≤ off → 0 ≤ m →
            off + m ≤ block_offset DEFAULT_BLOCK_SIZE a →
            off + m ≤ block_offset DEFAULT_BLOCK_SIZE content + 3
            ∨ block_offset DEFAULT_BLOCK_SIZE (content + 1) ≤ off →
            off + m ≤ payload_offset metadata
            ∨ payload_offset metadata + 8 ≤ off →
            bytes_at (patch f1 (payload_offset metadata + 0)
                        (bytes_at (le_encode 8 (n + 1)) 0 8)) off m
            = bytes_at f off m) as Hsame.
  { intros off m Hoff Hm' Ha Hc' Hm''.
    rewrite bytes_at_patch_ne by (rewrite ?Hl8; geo).
    subst f1. apply written_frame; try done. destruct Hc'; [by left|].
    right. by left. }
  change root_directory_region_ with 0 in *.
  split; [|split; [|split; [|split]]].
  - apply mounted_at_cursor; [done|]. rewrite length_patch. lia.
  - eapply holds_frame; [by apply written_holds|lia|lia|geo|].
    intros off m Hoff Hm' Hin. apply bytes_at_patch_ne; [geo|done|].
    rewrite Hl8. destruct (decide (metadata < content)); destruct Hin; geo.
  - split; cbn [content_region metadata_region file_length];
      change root_directory_region_ with 0.
    + rewrite Hsame; [done|geo..].
    + rewrite Hsame; [done|geo..].
    + rewrite Hsame; [done|geo..].
    + rewrite bytes_at_patch_in by (rewrite ?Hl8; geo).
      replace (payload_offset metadata - (payload_offset metadata + 0))
        with 0 by lia.
      replace 8 with (Z.of_nat (length (le_encode 8 (n + 1))))
        by (by rewrite length_le_encode).
      by rewrite !bytes_at_all.
    + rewrite Hsame; [done|geo..].
    + eapply spans_frame; [exact Hname|lia|lia|geo|].
      intros off m Hoff Hm' Hin.
      assert (block_offset DEFAULT_BLOCK_SIZE hi
              ≤ block_offset DEFAULT_BLOCK_SIZE a) by geo.
      apply Hsame; try done; destruct Hin as [?|[?|?]]; geo.
  - erewrite descriptor_insert_eq; [done|].
    by erewrite descriptor_insert_eq.
  - done.
Qed.

(** *** Opening a file that exists *)

Lemma first_available_free ds fd :
  first_available (Z.to_nat MAX_DESCRIPTORS) 0 ds = fd → fd ≠ -1 →
  0 ≤ fd < MAX_DESCRIPTORS ∧ ds !! Z.to_nat fd = Some None.
Proof.
  intros Hscan Hfd.
  destruct (first_available_spec (Z.to_nat MAX_DESCRIPTORS) 0 ds ltac:(lia))
    as [[Hnone _]|(Hr & Hnull & _)]; [congruence|].
  rewrite Hscan in Hr, Hnull. split; [unfold MAX_DESCRIPTORS in *; lia|].
  by destruct (ds !! Z.to_nat fd) as [[?|]|].
Qed.

(** [open_virtual] of a name that the first entry of the root
    directory lists, without [O_EXCL] and [O_TRUNC]: the handle read
    from the storage goes to the first free slot. *)
Lemma open_virtual_listed fuel path flags s f lo hi file fd :
  (length path < fuel)%nat →
  mounted (engine s) f → single_component path → (length path < 128)%nat →
  listed f lo hi file path →
  0 ≤ lo → hi ≤ DEFAULT_BLOCK_COUNT →
  0 ≤ metadata_region file < DEFAULT_BLOCK_COUNT →
  0 ≤ content_region file < DEFAULT_BLOCK_COUNT →
  0 ≤ file_length file < 2 ^ 64 →
  reader_position file = 0 →
  first_available (Z.to_nat MAX_DESCRIPTORS) 0 (descriptors_ s) = fd →
  fd ≠ -1 →
  Z.land flags O_EXCL = 0 → Z.land flags O_TRUNC = 0 →
  ∃ s',
    open_virtual fuel path flags s = Done fd s'
    ∧ mounted (engine s') f
    ∧ descriptor fd (descriptors_ s') = Some file
    ∧ last_used_descriptor_ s' = -1.
Proof.
  intros Hfuel Hm Hpath HL Hlisted Hlo Hhi Hmr Hcr Hfl Hrp Hscan Hfd
    Hexcl Htrunc.
  destruct s as [e ds last]. fsfields in *.
  destruct (first_available_free ds fd Hscan Hfd) as [Hrange Hslot].
  destruct (find_virtual_file_listed fuel path e f lo hi file)
    as (e' & Hfind & Hm'); try done; try geo.
  unfold open_virtual.
  erewrite bind_eq by (apply lift_eq; by eapply ensure_initialized_mounted).
  fsfields.
  erewrite bind_eq by reflexivity. fsfields. rewrite Hscan.
  destruct (fd =? -1) eqn:E; [lia|clear E].
  erewrite bind_eq by reflexivity. fsfields.
  erewrite bind_eq by (apply lift_eq; exact Hfind). fsfields.
  destruct (content_region file =? INVALID_REGION) eqn:E; [geo|clear E].
  rewrite Hexcl, Htrunc. change (0 =? 0) with true. cbn [negb].
  erewrite bind_eq by reflexivity. cbn iota beta.
  erewrite bind_eq by reflexivity. fsfields.
  erewrite bind_eq by reflexivity.
  eexists. split; [reflexivity|]. fsfields.
  split; [done|]. split; [|done].
  unfold descriptor.
  destruct (fd <? 0) eqn:E1; [lia|].
  destruct (MAX_DESCRIPTORS <=? fd) eqn:E2; [lia|]. cbn [orb].
  rewrite list_lookup_insert_eq; [done|].
  by eapply lookup_lt_Some.
Qed.

(** The first [open_virtual] of a process, with [O_CREAT], on a host
    without backing file, and the entry it leaves in the root
    directory. *)
Lemma open_virtual_first_listed fuel path :
  (11 < fuel)%nat → single_component path → (length path ≤ 100)%nat →
  let file := {| content_region := 1; metadata_region := 2;
                 file_length := 0; reader_position := 0 |} in
  let a := 3 + (9 + Z.of_nat (length path)) / DEFAULT_BLOCK_SIZE in
  ∃ f s,
    open_virtual fuel path O_CREAT fresh = Done 0 s
    ∧ mounted (engine s) f
    ∧ one_block_region f a 1
    ∧ listed f 3 a file path
    ∧ descriptor 0 (descriptors_ s) = Some file
    ∧ last_used_descriptor_ s = -1.
Proof.
  intros Hfuel Hpath HL file a.
  destruct (create_virtual_file_listed fuel path
              (at_cursor (storage_file_ formatted_engine) formatted_file
                 root_directory_region_ 1 1) formatted_file Hfuel
              (mounted_at_cursor _ _ _ _ _
                 (mounted_open _ _ formatted_mounted)
                 (mounted_length _ _ formatted_mounted))
              Hpath HL formatted_frontier formatted_root_empty)
    as (f & e & Hcreate & Hm & Hregion & Hlisted).
  exists f. unfold open_virtual, fresh, FileSystem.initial.
  erewrite bind_eq by (apply lift_eq, ensure_initialized_fresh). fsfields.
  erewrite bind_eq by reflexivity. fsfields.
  change (Z.to_nat MAX_DESCRIPTORS) with (S 255).
  rewrite first_available_here by reflexivity.
  change (0 =? -1) with false. cbn iota.
  erewrite bind_eq by reflexivity. fsfields.
  erewrite bind_eq; cycle 1.
  { apply lift_eq, (find_virtual_file_empty_root _ _ _ formatted_file);
      [lia|apply formatted_mounted|done|apply formatted_root_empty]. }
  fsfields.
  erewrite bind_eq; cycle 1.
  { cbn [content_region invalid_file].
    change (INVALID_REGION =? INVALID_REGION) with true.
    change (Z.land O_CREAT O_CREAT =? 0) with false. cbn iota.
    erewrite bind_eq by (apply lift_eq; exact Hcreate).
    reflexivity. }
  cbn iota beta.
  erewrite bind_eq by reflexivity. fsfields.
  change (Z.land O_CREAT O_TRUNC =? 0) with true.
  change (Z.land O_CREAT O_APPEND =? 0) with true. cbn [negb].
  erewrite bind_eq by reflexivity.
  eexists. split; [reflexivity|]. fsfields.
  split; [exact Hm|]. split; [exact Hregion|]. split; [exact Hlisted|].
  split; reflexivity.
Qed.

(** Closing an open descriptor makes its slot the first free one when
    no slot below it is free. *)
Lemma close_virtual_first_available fd s file :
  descriptor fd (descriptors_ s) = Some file →
  (∀ j, 0 ≤ j < fd → is_null (descriptors_ s !! Z.to_nat j) = false) →
  ∃ s',
    close_virtual fd s = Done tt s'
    ∧ engine s' = engine s
    ∧ first_available (Z.to_nat MAX_DESCRIPTORS) 0 (descriptors_ s') = fd.
Proof.
  intros Hdesc Hlow. destruct s as [e ds last]. fsfields in *.
  unfold close_virtual.
  erewrite bind_eq by reflexivity. fsfields. rewrite Hdesc.
  eexists. split; [reflexivity|]. fsfields. split; [done|].
  unfold descriptor in Hdesc.
  destruct (fd <? 0) eqn:E1; [done|].
  destruct (MAX_DESCRIPTORS <=? fd) eqn:E2; [done|]. cbn [orb] in Hdesc.
  destruct (ds !! Z.to_nat fd) as [slot|] eqn:E; [|done].
  apply lookup_lt_Some in E.
  set (ds' := <[Z.to_nat fd:=None]> ds).
  destruct (first_available_spec (Z.to_nat MAX_DESCRIPTORS) 0 ds' ltac:(lia))
    as [[_ Hfull]|(Hr & Hnull & Hbelow)].
  - specialize (Hfull fd ltac:(unfold MAX_DESCRIPTORS in *; lia)).
    subst ds'. by rewrite list_lookup_insert_eq in Hfull.
  - set (r := first_available _ 0 ds') in *.
    destruct (decide (r < fd)).
    + specialize (Hlow r ltac:(lia)). subst ds'.
      rewrite list_lookup_insert_ne in Hnull by lia. congruence.
    + destruct (decide (fd < r)); [|lia].
      specialize (Hbelow fd ltac:(lia)). subst ds'.
      by rewrite list_lookup_insert_eq in Hbelow.
Qed.

Lemma value_of_Done {S A} (o : outcome S A) a :
  value_of o = Some a → ∃ s, o = Done a s.
Proof. destruct o as [a' s| |]; [|done..]. intros [= ->]. by exists s. Qed.

(** X20: opening a stored file and reading it.  When the first entry of
    the root directory lists the file [path] and its content region
    holds [data], no more bytes than the stored length, then
    [open_virtual] without [O_EXCL] and [O_TRUNC], with a free slot in
    the table, followed by [read_virtual] on the descriptor it returns,
    delivers [data]: the regions and the length come from the storage,
    the cursor starts at 0, whatever the other flags are. *)
Theorem open_virtual_reads_stored fuel path flags s f lo hi lo' file data :
  mounted (engine s) f →
  single_component path → (length path < 128)%nat →
  listed f lo hi file path → 0 ≤ lo → hi ≤ DEFAULT_BLOCK_COUNT →
  0 ≤ metadata_region file < DEFAULT_BLOCK_COUNT →
  0 ≤ content_region file < DEFAULT_BLOCK_COUNT →
  reader_position file = 0 →
  holds f lo' (content_region file) 0 data → 0 ≤ lo' →
  Z.of_nat (length data) ≤ file_length file → file_length file < 2 ^ 63 →
  first_available (Z.to_nat MAX_DESCRIPTORS) 0 (descriptors_ s) ≠ -1 →
  Z.land flags O_EXCL = 0 → Z.land flags O_TRUNC = 0 →
  (length path < fuel)%nat → (length data < fuel)%nat →
  value_of
    ((let* fd := open_virtual fuel path flags in
      read_virtual fuel fd (Z.of_nat (length data))) s)
  = Some (Z.of_nat (length data), data).
Proof.
  intros Hm Hpath HL Hlisted Hlo Hhi Hmr Hcr Hrp Hholds Hlo' Hn Hfl Hfree
    Hexcl Htrunc Hfuel Hfuel'.
  destruct (first_available_free (descriptors_ s) _ eq_refl Hfree)
    as [Hrange _].
  destruct (open_virtual_listed fuel path flags s f lo hi file _
              Hfuel Hm Hpath HL Hlisted Hlo Hhi Hmr Hcr ltac:(lia) Hrp
              eq_refl Hfree Hexcl Htrunc)
    as (s' & Hopen & Hm' & Hdesc & Hlast).
  erewrite bind_eq by exact Hopen.
  apply (read_virtual_holds fuel _ data s' f lo' file); try done; lia.
Qed.

Lemma open_virtual_reads_stored_witness :
  value_of
    ((let* fd := open_virtual 200 (path_of "f") 0 in
      read_virtual 200 fd (Z.of_nat (length (path_of "hello")))) with_hello)
  = Some (Z.of_nat (length (path_of "hello")), path_of "hello").
Proof.
  apply (open_virtual_reads_stored 200 (path_of "f") 0 with_hello hello_file
           3 4 3 {| content_region := 1; metadata_region := 2;
                    file_length := 6; reader_position := 0 |}
           (path_of "hello")).
  - split; vm_compute; (reflexivity || discriminate).
  - repeat constructor; discriminate.
  - vm_compute. lia.
  - split; try (vm_compute; reflexivity).
    apply spans_next.
    + vm_compute. discriminate.
    + vm_compute. reflexivity.
    + vm_compute. split; [discriminate|reflexivity].
    + apply spans_here; vm_compute; reflexivity.
  - lia.
  - vm_compute. discriminate.
  - vm_compute. split; [discriminate|reflexivity].
  - vm_compute. split; [discriminate|reflexivity].
  - reflexivity.
  - apply holds_here; vm_compute; reflexivity.
  - lia.
  - vm_compute. discriminate.
  - vm_compute. reflexivity.
  - vm_compute. discriminate.
  - reflexivity.
  - reflexivity.
  - vm_compute. lia.
  - vm_compute. lia.
Defined.

(** X21: a file outlives its descriptor.  On a fresh storage, for a
    file created under a name of at most 100 bytes (one path
    component) and data of at most 1152 bytes: after the data were
    written and the descriptor was closed, opening the file again
    returns descriptor 0 again, and reading as many bytes as were
    written delivers exactly the data. *)
Theorem reopened_file_keeps_data fuel path data :
  (1152 < fuel)%nat →
  single_component path → (length path ≤ 100)%nat →
  10 * Z.of_nat (length data) ≤ 9 * (DEFAULT_BLOCK_SIZE * DEFAULT_BLOCK_COUNT) →
  value_of (reopened fuel path data fresh)
  = Some (0, (Z.of_nat (length data), data)).
Proof.
  intros Hfuel Hpath HL Hdata.
  assert (Z.of_nat (length data) ≤ 1152) as Hn by geo.
  assert (0 ≤ Z.of_nat (length data) / DEFAULT_BLOCK_SIZE < 116) as Hblocks
    by (split; [apply Z.div_pos|apply Z.div_lt_upper_bound]; geo).
  assert (0 ≤ (9 + Z.of_nat (length path)) / DEFAULT_BLOCK_SIZE < 11) as Hname
    by (split; [apply Z.div_pos|apply Z.div_lt_upper_bound]; geo).
  destruct (open_virtual_first_listed fuel path)
    as (f & s & Hopen & Hm & Hregion & Hlisted & Hdesc & Hlast);
    [lia|done|done|].
  destruct (write_virtual_listed fuel 0 data path s f _ 3 _ 1 2
              Hm Hregion Hlisted Hdesc)
    as (f' & s' & Hwrite & Hm' & Hholds & Hlisted' & Hdesc' & Hlast');
    try geo.
  destruct (close_virtual_first_available 0 s' _ Hdesc')
    as (s'' & Hclose & Hengine & Hscan); [intros j Hj; lia|].
  destruct (open_virtual_listed fuel path 0 s'' f' _ _ _ 0
              ltac:(lia) ltac:(by rewrite Hengine) Hpath ltac:(lia) Hlisted')
    as (s3 & Hreopen & Hm3 & Hdesc3 & Hlast3);
    cbn [content_region metadata_region file_length reader_position];
    try done; try geo.
  destruct (value_of_Done
              (read_virtual fuel 0 (Z.of_nat (length data)) s3)
              (Z.of_nat (length data), data)) as (s4 & Hread).
  { eapply (read_virtual_holds fuel 0 data s3 f'
              (3 + (9 + Z.of_nat (length path)) / DEFAULT_BLOCK_SIZE));
      try done;
      cbn [content_region metadata_region file_length reader_position];
      try geo. exact Hholds. }
  unfold reopened.
  erewrite bind_eq by exact Hopen.
  erewrite bind_eq by exact Hwrite.
  erewrite bind_eq by exact Hclose.
  erewrite bind_eq by exact Hreopen.
  erewrite bind_eq by exact Hread.
  reflexivity.
Qed.

Lemma reopened_file_keeps_data_witness :
  value_of (reopened 1153 (path_of "f") (path_of "hello") fresh)
  = Some (0, (5, path_of "hello")).
Proof.
  apply (reopened_file_keeps_data 1153 (path_of "f") (path_of "hello")).
  - lia.
  - repeat constructor; discriminate.
  - vm_compute. lia.
  - vm_compute. discriminate.
Defined.

(** ** Removing a file *)

(** Seeking forward inside the current block. *)
Lemma storage_seek_forward_in_block fuel fd f block pos rpos offset :
  (0 < fuel)%nat → fd ≠ -1 →
  Z.of_nat (length f) = block_offset DEFAULT_BLOCK_SIZE DEFAULT_BLOCK_COUNT →
  0 ≤ block → 0 ≤ pos → 0 < offset → pos + offset < DEFAULT_BLOCK_SIZE →
  0 ≤ rpos → rpos + offset < 2 ^ 64 →
  storage_seek_in_region fuel offset (at_cursor fd f block pos rpos)
  = Done (rpos + offset)
      (at_cursor fd f block (pos + offset) (rpos + offset)).
Proof.
  intros Hfuel Hfd Hlen Hblock Hpos Hoff Hfit Hrpos Hrn.
  destruct fuel as [|fuel]; [lia|].
  unfold storage_seek_in_region.
  erewrite bind_eq
    by (eapply storage_initialized_mounted, mounted_at_cursor; done).
  cbn [negb]. destruct (0 <? offset) eqn:E; [clear E|lia].
  erewrite bind_eq; cycle 1.
  { erewrite bind_eq; cycle 1.
    { rewrite iter_succ.
      erewrite bind_eq by reflexivity. erewrite bind_eq by reflexivity.
      unfold at_cursor at 1 2. fields.
      rewrite to_size_t_small by geo.
      destruct (DEFAULT_BLOCK_SIZE <=? pos + offset - 0) eqn:E; [geo|].
      reflexivity. }
    rewrite Z.sub_0_r, to_off_t_small by geo.
    erewrite bind_eq; cycle 1.
    { unfold host_lseek_cur. apply host_lseek_nonneg.
      unfold at_cursor. fields. geo. }
    erewrite bind_eq by reflexivity. reflexivity. }
  erewrite bind_eq by reflexivity. erewrite bind_eq by reflexivity.
  unfold gets, modify, at_cursor. fields.
  rewrite !to_size_t_small by geo.
  replace (payload_offset block + pos + offset)
    with (payload_offset block + (pos + offset)) by lia.
  reflexivity.
Qed.

(** A chain depends on the headers of its blocks only. *)
Lemma chain_ext f f' size count block blocks :
  chain f size count block blocks →
  (∀ j, j ∈ blocks → header_at f' size j = header_at f size j) →
  chain f' size count block blocks.
Proof.
  induction 1 as [|block blocks Hb H IH]; intros Hsame; constructor.
  - done.
  - rewrite Hsame by (apply elem_of_cons; by left). apply IH.
    intros j Hj. apply Hsame. apply elem_of_cons. by right.
Qed.

Lemma chain_release_other f size count block blocks freed :
  chain f size count block blocks →
  0 ≤ size → Forall (λ b, 0 ≤ b) freed →
  (∀ b, b ∈ blocks → b ∉ freed) →
  chain (release size f freed) size count block blocks.
Proof.
  intros Hchain Hsize Hfreed Hdisj.
  pose proof (chain_range _ _ _ _ _ Hchain) as Hrange.
  rewrite Forall_forall in Hrange.
  eapply chain_ext; [exact Hchain|]. intros j Hj.
  apply header_at_release_other; try done; [|by apply Hdisj].
  by apply Hrange.
Qed.

(** Looking a name up in a root directory whose only entry was
    removed. *)
Lemma find_virtual_file_after_unused fuel path s f :
  (1 < fuel)%nat → mounted s f → single_component path →
  bytes_at f (payload_offset root_directory_region_) 1
  = bytes_at (le_encode 4 UNUSED_ENTRY) 0 1 →
  bytes_at f (payload_offset root_directory_region_ + 5) 1 = [x00] →
  ∃ e, find_virtual_file fuel path s = Done invalid_file e ∧ mounted e f.
Proof.
  intros Hfuel Hm Hpath Hfirst Hsecond.
  pose proof (mounted_length _ _ Hm) as Hlen.
  pose proof (mounted_open _ _ Hm) as Hfd.
  unfold find_virtual_file.
  erewrite bind_eq by (by apply navigate_to_root).
  cbn [directory_region]. change (_ =? INVALID_REGION) with false. cbn iota.
  change root_directory_region_ with 0 in *.
  destruct fuel as [|fuel]; [lia|]. rewrite iter_succ.
  erewrite bind_eq by (apply read_scalar_in_block; try done; geo).
  erewrite bind_eq by reflexivity.
  change (Z.of_nat 1) with 1. rewrite Z.add_0_r, Hfirst.
  change (le_decode (bytes_at (le_encode 4 UNUSED_ENTRY) 0 1))
    with UNUSED_ENTRY.
  change (UNUSED_ENTRY =? NULL_ENTRY) with false.
  change (UNUSED_ENTRY =? FILE_ENTRY) with false. cbn [negb]. cbn iota.
  erewrite bind_eq
    by (apply storage_seek_forward_in_block; try done; geo).
  unfold continue, ret. cbn iota beta.
  eexists. split.
  - apply iter_break; [lia|].
    erewrite bind_eq by (apply read_scalar_in_block; try done; geo).
    change (0 + 1 + 2 * 2) with 5. change (Z.of_nat 1) with 1.
    rewrite Hsecond. reflexivity.
  - by apply mounted_at_cursor.
Qed.

(** The file that [unlink_virtual] leaves: the type of the first entry
    of the root directory is [UNUSED_ENTRY], and the blocks of the two
    regions are released. *)
Lemma unlink_storage_listed fuel path s f lo hi file cblocks mblocks :
  mounted s f → single_component path → (length path < 128)%nat →
  listed f lo hi file path → 0 ≤ lo → hi ≤ DEFAULT_BLOCK_COUNT →
  0 ≤ metadata_region file < DEFAULT_BLOCK_COUNT →
  0 ≤ content_region file < DEFAULT_BLOCK_COUNT →
  chain f DEFAULT_BLOCK_SIZE DEFAULT_BLOCK_COUNT (content_region file) cblocks →
  chain f DEFAULT_BLOCK_SIZE DEFAULT_BLOCK_COUNT (metadata_region file) mblocks →
  (∀ b, b ∈ mblocks → b ∉ cblocks) →
  (length path < fuel)%nat → (length cblocks < fuel)%nat →
  (length mblocks < fuel)%nat →
  ∃ e,
    unlink_storage fuel path s = Done 0 e
    ∧ mounted e
        (release DEFAULT_BLOCK_SIZE
           (release DEFAULT_BLOCK_SIZE
              (patch f (payload_offset root_directory_region_)
                 (bytes_at (le_encode 4 UNUSED_ENTRY) 0 1)) cblocks) mblocks).
Proof.
  intros Hm Hpath HL [Htype Hmeta Hcontent Hlength Hnamelen Hname]
    Hlo Hhi Hmr Hcr Hcc Hmc Hdisj Hfuel Hfuelc Hfuelm.
  pose proof (mounted_length _ _ Hm) as Hlen.
  pose proof (mounted_open _ _ Hm) as Hfd.
  destruct file as [content metadata len rp].
  cbn [content_region metadata_region file_length] in *.
  unfold unlink_storage.
  erewrite bind_eq by (by apply navigate_to_root).
  cbn [directory_region remainder_of remainder_path].
  change (root_directory_region_ =? INVALID_REGION) with false. cbn iota.
  set (fd := storage_file_ s) in *.
  change root_directory_region_ with 0 in *.
  apply spans_holds in Hname; [|done].
  destruct (read_name_holds fuel fd f lo metadata 8 8 path)
    as (block' & pos' & Hread); try done; try geo.
  set (f1 := patch f (payload_offset 0)
               (bytes_at (le_encode 4 UNUSED_ENTRY) 0 1)).
  assert (Z.of_nat (length f1) = Z.of_nat (length f)) as Hl1
    by (subst f1; by rewrite length_patch).
  assert (∀ j, 0 ≤ j → header_at f1 DEFAULT_BLOCK_SIZE j
                       = header_at f DEFAULT_BLOCK_SIZE j) as Hheaders.
  { intros j Hj. subst f1.
    replace (payload_offset 0) with (payload_offset 0 + 0) by lia.
    by apply header_at_patch_payload. }
  assert (geometry DEFAULT_BLOCK_SIZE DEFAULT_BLOCK_COUNT f1) as Hgeo
    by (split; geo).
  pose proof (chain_range _ _ _ _ _ Hcc) as Hcrange.
  pose proof (chain_range _ _ _ _ _ Hmc) as Hmrange.
  destruct (storage_free_region_chain cblocks DEFAULT_BLOCK_SIZE
              DEFAULT_BLOCK_COUNT fuel (at_cursor fd f1 0 (0 + 1) (0 + 1))
              f1 content)
    as (s2 & Hfree2 & Hfile2 & Hfd2 & Hs2 & Hc2); try done.
  { eapply chain_ext; [exact Hcc|]. intros j Hj. apply Hheaders.
    rewrite Forall_forall in Hcrange. by apply Hcrange. }
  { eapply chain_NoDup; [exact Hcc|geo]. }
  destruct (storage_free_region_chain mblocks DEFAULT_BLOCK_SIZE
              DEFAULT_BLOCK_COUNT fuel s2
              (release DEFAULT_BLOCK_SIZE f1 cblocks) metadata)
    as (s3 & Hfree3 & Hfile3 & Hfd3 & Hs3 & Hc3); try done.
  { by rewrite Hfd2. }
  { destruct Hgeo. split; try done. by rewrite length_release. }
  { apply chain_release_other; [|geo| |done].
    - eapply chain_ext; [exact Hmc|]. intros j Hj. apply Hheaders.
      rewrite Forall_forall in Hmrange. by apply Hmrange.
    - eapply Forall_impl; [exact Hcrange|]. intros ? [? ?]. cbn beta. lia. }
  { eapply chain_NoDup; [exact Hmc|geo]. }
  exists s3. split.
  - apply iter_break; [lia|].
    erewrite bind_eq by (apply storage_seek_zero; try done; lia).
    erewrite bind_eq by (apply read_scalar_in_block; try done; geo).
    erewrite bind_eq by reflexivity.
    change (Z.of_nat 1) with 1. rewrite Z.add_0_r, Htype.
    change (le_decode (bytes_at (le_encode 4 FILE_ENTRY) 0 1)) with FILE_ENTRY.
    change (FILE_ENTRY =? NULL_ENTRY) with false.
    change (FILE_ENTRY =? FILE_ENTRY) with true. cbn [negb]. cbn iota.
    erewrite bind_eq by (apply read_scalar_in_block; try done; geo).
    change (Z.of_nat 2) with 2. change (0 + 1) with 1.
    rewrite Hmeta, le_decode_encode_2 by geo.
    erewrite bind_eq by (apply read_scalar_in_block; try done; geo).
    change (Z.of_nat 2) with 2. change (1 + 2) with 3.
    rewrite Hcontent, le_decode_encode_2 by geo.
    erewrite bind_eq by (apply storage_seek_zero; try done; lia).
    erewrite bind_eq by reflexivity.
    erewrite bind_eq; cycle 1.
    { apply (storage_jump_to_region_mounted _ f);
        [apply mounted_at_cursor; [done|lia]|geo]. }
    change (storage_file_ _) with fd.
    erewrite bind_eq by (apply read_scalar_in_block; try done; geo).
    change (Z.of_nat 8) with 8. change (0 + 8) with 8.
    erewrite bind_eq by exact Hread.
    erewrite bind_eq
      by (apply same_name_refl; eapply Forall_impl; [exact Hpath|];
          by intros ? [_ ?]).
    cbn iota.
    erewrite bind_eq; cycle 1.
    { apply (storage_jump_to_region_mounted _ f);
        [apply mounted_at_cursor; [done|lia]|geo]. }
    change (storage_file_ _) with fd. change (to_off_t 0) with 0.
    erewrite bind_eq by (apply storage_seek_zero; try done; lia).
    erewrite bind_eq
      by (apply storage_write_in_block; try done; try geo;
          cbn [length le_encode]; lia).
    rewrite Z.add_0_r. fold f1.
    erewrite bind_eq by reflexivity.
    erewrite bind_eq by exact Hfree2.
    erewrite bind_eq by exact Hfree3.
    reflexivity.
  - split; [done|rewrite Hfd3, Hfd2; exact Hfd|done|done|].
    rewrite !length_release. lia.
Qed.

Lemma hello_mounted : mounted (engine with_hello) hello_file.
Proof. split; vm_compute; (reflexivity || discriminate). Qed.

Lemma hello_listed :
  listed hello_file 3 4
    {| content_region := 1; metadata_region := 2;
       file_length := 6; reader_position := 0 |} (path_of "f").
Proof.
  split; try (vm_compute; reflexivity).
  apply spans_next.
  - vm_compute. discriminate.
  - vm_compute. reflexivity.
  - vm_compute. split; [discriminate|reflexivity].
  - apply spans_here; vm_compute; reflexivity.
Qed.

(** X22: [unlink_virtual] removes a file and frees its blocks, and
    leaves the descriptor table alone.  When the first entry of the
    root directory lists the file [path] and is the only entry, and the
    two regions of the file are chains of blocks that end, then
    [unlink_virtual] returns 0, every block of the two regions ends up
    not in use, the table of descriptors is as before (a descriptor
    that was open on the file stays open), and [open_virtual] without
    [O_CREAT] does not find the name any more. *)
Theorem unlink_virtual_removes_file fuel path s f lo hi file cblocks mblocks :
  mounted (engine s) f →
  single_component path → (length path < 128)%nat →
  listed f lo hi file path → 0 ≤ lo → hi ≤ DEFAULT_BLOCK_COUNT →
  0 ≤ metadata_region file < DEFAULT_BLOCK_COUNT →
  0 ≤ content_region file < DEFAULT_BLOCK_COUNT →
  bytes_at f (payload_offset root_directory_region_ + 5) 1 = [x00] →
  chain f DEFAULT_BLOCK_SIZE DEFAULT_BLOCK_COUNT (content_region file) cblocks →
  chain f DEFAULT_BLOCK_SIZE DEFAULT_BLOCK_COUNT (metadata_region file) mblocks →
  (∀ b, b ∈ mblocks → b ∉ cblocks) →
  (1 < fuel)%nat → (length path < fuel)%nat →
  (length cblocks < fuel)%nat → (length mblocks < fuel)%nat →
  ∃ s' f',
    unlink_virtual fuel path s = Done 0 s'
    ∧ mounted (engine s') f'
    ∧ descriptors_ s' = descriptors_ s
    ∧ (∀ b, b ∈ cblocks ++ mblocks →
         in_use (header_at f' DEFAULT_BLOCK_SIZE b) = 0)
    ∧ (∀ flags, Z.land flags O_CREAT = 0 →
         value_of (open_virtual fuel path flags s') = Some (-1)).
Proof.
  intros Hm Hpath HL Hlisted Hlo Hhi Hmr Hcr Hsecond Hcc Hmc Hdisj
    Hfuel1 Hfuel Hfuelc Hfuelm.
  destruct (unlink_storage_listed fuel path (engine s) f lo hi file
              cblocks mblocks) as (e & Hunlink & Hm'); try done.
  pose proof (mounted_length _ _ Hm) as Hlen.
  pose proof (chain_range _ _ _ _ _ Hcc) as Hcrange.
  pose proof (chain_range _ _ _ _ _ Hmc) as Hmrange.
  set (f1 := patch f _ _) in *.
  set (f' := release _ (release _ f1 cblocks) mblocks) in *.
  assert (Z.of_nat (length f1) = Z.of_nat (length f)) as Hl1
    by (subst f1; by rewrite length_patch).
  assert (∀ blocks, Forall (λ b, 0 ≤ b < DEFAULT_BLOCK_COUNT) blocks →
            ∀ off n, payload_offset 0 ≤ off → off + n ≤ payload_offset 0 + 10 →
            Forall (λ b, 0 ≤ b ∧ (off + n ≤ block_offset DEFAULT_BLOCK_SIZE b
                          ∨ block_offset DEFAULT_BLOCK_SIZE b + 5 ≤ off))
              blocks) as Hout.
  { intros blocks Hrange off n Hoff Hn.
    eapply Forall_impl; [exact Hrange|]. intros b [? ?]. cbn beta.
    split; [lia|]. destruct (decide (b = 0)); [right|left]; geo. }
  assert (∀ off n, payload_offset 0 ≤ off → off + n ≤ payload_offset 0 + 10 →
            bytes_at f' off n = bytes_at f1 off n) as Hpayload.
  { intros off n Hoff Hn. subst f'.
    rewrite !bytes_at_release; try done; try geo; by apply Hout. }
  destruct s as [e0 ds last]. fsfields in *.
  exists (set_engine e (set_last_used_descriptor_ (-1)
                          {| engine := e0; descriptors_ := ds;
                             last_used_descriptor_ := last |})), f'.
  fsfields. split; [|split; [done|split; [done|split]]].
  - unfold unlink_virtual.
    erewrite bind_eq by reflexivity. fsfields.
    by erewrite lift_eq by exact Hunlink.
  - intros b Hb.
    assert (Z.of_nat (length (release DEFAULT_BLOCK_SIZE f1 cblocks))
            = block_offset DEFAULT_BLOCK_SIZE DEFAULT_BLOCK_COUNT) as Hl2
      by (rewrite length_release; lia).
    destruct (decide (b ∈ mblocks)) as [Hin|Hnotin].
    + subst f'.
      by rewrite (header_at_release_freed _ DEFAULT_BLOCK_COUNT);
        try done; try geo.
    + apply elem_of_app in Hb as [Hb|Hb]; [|done].
      subst f'. rewrite header_at_release_other; try done; try geo.
      * by rewrite (header_at_release_freed _ DEFAULT_BLOCK_COUNT);
          try done; try geo.
      * rewrite Forall_forall in Hcrange. specialize (Hcrange _ Hb). lia.
      * eapply Forall_impl; [exact Hmrange|]. intros ? [? ?]. cbn beta. lia.
  - intros flags Hflags.
    destruct (find_virtual_file_after_unused fuel path e f')
      as (e' & Hfind & _); try done.
    { change root_directory_region_ with 0.
      rewrite Hpayload by geo. subst f1.
      change root_directory_region_ with 0.
      rewrite bytes_at_patch_in
        by (rewrite ?length_bytes_at by (cbn [length le_encode]; lia); geo).
      by rewrite Z.sub_diag. }
    { change root_directory_region_ with 0 in *.
      rewrite Hpayload by geo. subst f1.
      rewrite bytes_at_patch_ne; [done|geo|geo|].
      right. rewrite length_bytes_at by (cbn [length le_encode]; lia). geo. }
    unfold open_virtual.
    erewrite bind_eq by (apply lift_eq; by eapply ensure_initialized_mounted).
    fsfields.
    erewrite bind_eq by reflexivity. fsfields.
    destruct (_ =? -1); [done|].
    erewrite bind_eq by reflexivity. fsfields.
    erewrite bind_eq by (apply lift_eq; exact Hfind). fsfields.
    cbn [content_region invalid_file].
    change (INVALID_REGION =? INVALID_REGION) with true. cbn iota.
    rewrite Hflags. change (0 =? 0) with true. cbn iota.
    by erewrite bind_eq by reflexivity.
Qed.

Lemma unlink_virtual_removes_file_witness :
  ∃ s' f',
    unlink_virtual 200 (path_of "f") with_hello = Done 0 s'
    ∧ mounted (engine s') f'
    ∧ descriptors_ s' = descriptors_ with_hello
    ∧ (∀ b, b ∈ [1] ++ [2; 3] →
         in_use (header_at f' DEFAULT_BLOCK_SIZE b) = 0)
    ∧ (∀ flags, Z.land flags O_CREAT = 0 →
         value_of (open_virtual 200 (path_of "f") flags s') = Some (-1)).
Proof.
  apply (unlink_virtual_removes_file 200 (path_of "f") with_hello hello_file
           3 4 {| content_region := 1; metadata_region := 2;
                  file_length := 6; reader_position := 0 |} [1] [2; 3]).
  - apply hello_mounted.
  - repeat constructor; discriminate.
  - vm_compute. lia.
  - apply hello_listed.
  - lia.
  - vm_compute. discriminate.
  - vm_compute. split; [discriminate|reflexivity].
  - vm_compute. split; [discriminate|reflexivity].
  - vm_compute. reflexivity.
  - apply chain_link; [vm_compute; split; [discriminate|reflexivity]|].
    replace (next_block _) with INVALID_BLOCK by (vm_compute; reflexivity).
    apply chain_end.
  - exact hello_metadata_chain.
  - intros b Hb [->|Hc]%elem_of_cons; [|by apply elem_of_nil in Hc].
    repeat (apply elem_of_cons in Hb as [Hb|Hb]; [discriminate Hb|]).
    by apply elem_of_nil in Hb.
  - lia.
  - vm_compute. lia.
  - cbn [length]. lia.
  - cbn [length]. lia.
Defined.

(** ** Directories *)

Lemma mkdir_storage_first fuel path s f :
  (11 < fuel)%nat → mounted s f → single_component path →
  (length path ≤ 100)%nat →
  frontier f 1 →
  bytes_at f (payload_offset root_directory_region_) 1 = [x00] →
  let a := 3 + (1 + Z.of_nat (length path)) / DEFAULT_BLOCK_SIZE in
  ∃ f' e,
    mkdir_storage fuel path s = Done 0 e
    ∧ mounted e f'
    ∧ one_block_region f' a 1
    ∧ listed_directory f' 3 a 2 1 path
    ∧ bytes_at f' (payload_offset 1) DEFAULT_BLOCK_SIZE
      = bytes_at f (payload_offset 1) DEFAULT_BLOCK_SIZE.
Proof.
  intros Hfuel Hm Hpath HL Hfront Hempty a. subst a.
  pose proof (mounted_length _ _ Hm) as Hlen.
  pose proof (mounted_open _ _ Hm) as Hfd.
  unfold mkdir_storage.
  erewrite bind_eq by (by apply navigate_to_root).
  cbn [directory_region remainder_of remainder_path].
  change (root_directory_region_ =? INVALID_REGION) with false. cbn iota.
  set (fd := storage_file_ s) in *.
  set (s0 := at_cursor fd f root_directory_region_ 0 0).
  assert (mounted s0 f) as Hm0 by (by apply mounted_at_cursor).
  (* the two regions *)
  erewrite bind_eq
    by (apply (storage_allocate_region_frontier s0 f 1); [done|done|geo]).
  change (1 =? INVALID_REGION) with false. cbn iota.
  set (f1 := patch f (block_offset DEFAULT_BLOCK_SIZE 1)
               (allocated_header INVALID_BLOCK)).
  assert (frontier f1 2) as Hfront1
    by (apply (frontier_allocated f 1); try done; geo).
  assert (Z.of_nat (length f1) = Z.of_nat (length f)) as Hl1
    by (subst f1; by rewrite length_patch).
  erewrite bind_eq; cycle 1.
  { apply (storage_allocate_region_frontier _ f1 2);
      [by apply allocated_mounted|done|geo]. }
  change (2 =? INVALID_REGION) with false. cbn iota.
  set (f2 := patch f1 (block_offset DEFAULT_BLOCK_SIZE 2)
               (allocated_header INVALID_BLOCK)).
  assert (frontier f2 3) as Hfront2
    by (apply (frontier_allocated f1 2); try done; geo).
  assert (Z.of_nat (length f2) = Z.of_nat (length f)) as Hl2
    by (subst f2; by rewrite length_patch).
  (* the entry in the root directory *)
  erewrite bind_eq; cycle 1.
  { apply (storage_jump_to_region_mounted _ f2);
      [by do 2 apply allocated_mounted|unfold root_directory_region_; geo]. }
  change (storage_file_ _) with fd. change root_directory_region_ with 0 in *.
  assert (bytes_at f2 (payload_offset 0 + 0) 1 = [x00]) as Hempty2.
  { subst f2 f1. rewrite !bytes_at_patch_ne by geo.
    by rewrite Z.add_0_r. }
  erewrite bind_eq by (apply find_available_entry_here; try done; geo).
  erewrite bind_eq by (apply storage_seek_back_one; geo).
  change (0 + 1 - 1) with 0.
  erewrite bind_eq by (apply storage_write_in_block; try done; geo).
  set (f3 := patch f2 _ _).
  assert (Z.of_nat (length f3) = Z.of_nat (length f)) as Hl3
    by (subst f3; by rewrite length_patch).
  erewrite bind_eq by (apply storage_write_in_block; try done; geo).
  set (f4 := patch f3 _ _).
  assert (Z.of_nat (length f4) = Z.of_nat (length f)) as Hl4
    by (subst f4; by rewrite length_patch).
  erewrite bind_eq by (apply storage_write_in_block; try done; geo).
  set (f5 := patch f4 _ _).
  assert (Z.of_nat (length f5) = Z.of_nat (length f)) as Hl5
    by (subst f5; by rewrite length_patch).
  (* the metadata region: length of the name, name *)
  erewrite bind_eq; cycle 1.
  { apply (storage_jump_to_region_mounted _ f5);
      [apply mounted_at_cursor; [done|lia]|geo]. }
  change (storage_file_ _) with fd.
  assert (Z.of_nat (length path) ≤ 100) as HL' by lia.
  unfold remainder_path_length.
  rewrite (to_char_small (Z.of_nat (length path))) by lia.
  rewrite (to_size_t_small (Z.of_nat (length path))) by lia.
  erewrite bind_eq by (apply storage_write_in_block; try done; geo).
  set (f6 := patch f5 _ _).
  assert (Z.of_nat (length f6) = Z.of_nat (length f)) as Hl6
    by (subst f6; by rewrite length_patch).
  change (0 + 1) with 1.
  assert (frontier f6 3) as Hfront6.
  { subst f6 f5 f4 f3.
    repeat (apply frontier_patch_payload;
            [lia|lia|rewrite length_bytes_at by (cbn [length le_encode]; lia); geo
            | |lia]).
    done. }
  assert (∀ j, 0 ≤ j → header_at f6 DEFAULT_BLOCK_SIZE j
                       = header_at f2 DEFAULT_BLOCK_SIZE j) as Hheaders.
  { intros j Hj. subst f6 f5 f4 f3.
    rewrite !header_at_patch_payload
      by (rewrite ?length_bytes_at by (cbn [length le_encode]; lia); geo).
    done. }
  assert (next_of f6 2 = INVALID_BLOCK) as Hnext2.
  { unfold next_of. rewrite Hheaders by lia. subst f2.
    rewrite next_of_allocated; [done|geo|lia|geo]. }
  assert (next_of f6 1 = INVALID_BLOCK) as Hnext1.
  { unfold next_of. rewrite Hheaders by lia. subst f2.
    rewrite header_at_patch_outside
      by (rewrite ?length_allocated_header; geo).
    subst f1. rewrite next_of_allocated; [done|geo|lia|geo]. }
  pose proof (bytes_at_prefix path [x00]) as Hdata.
  assert (writable 10 f6 2 1 3
            (bytes_at (path ++ [x00]) 0 (Z.of_nat (length path)))) as Hw.
  { rewrite Hdata. unfold writable.
    assert ((1 + Z.of_nat (length path)) / DEFAULT_BLOCK_SIZE < 11)
      by (apply Z.div_lt_upper_bound; geo).
    repeat split; try lia; geo. }
  destruct (storage_write_appends 10 fuel fd (path ++ [x00])
              (Z.of_nat (length path)) f6 2 1 3 1)
    as (block' & pos' & Heq); try done; try lia.
  { rewrite length_app. cbn [length]. lia. }
  rewrite Hdata in Heq, Hw.
  eexists _, _. split; [|split; [|split; [|split]]].
  - erewrite bind_eq by exact Heq. reflexivity.
  - apply mounted_at_cursor; [done|]. rewrite length_written. lia.
  - split.
    + rewrite length_written. lia.
    + by apply written_frontier.
    + assert (0 ≤ (1 + Z.of_nat (length path)) / DEFAULT_BLOCK_SIZE)
        by (apply Z.div_pos; geo).
      lia.
    + unfold next_of, header_at. cbn [next_block].
      rewrite written_frame; [exact Hnext1|done|geo|lia|geo|left; geo].
  - split; change root_directory_region_ with 0;
      try (rewrite written_frame;
           [|exact Hw|geo|lia|geo|first [left; geo|right; right; geo]]).
    + subst f6 f5 f4.
      do 3 rewrite bytes_at_patch_ne
        by (rewrite ?length_bytes_at by (cbn [length le_encode]; lia); geo).
      subst f3. rewrite bytes_at_patch_in
        by (rewrite ?length_bytes_at by (cbn [length le_encode]; lia); geo).
      reflexivity.
    + subst f6 f5.
      do 2 rewrite bytes_at_patch_ne
        by (rewrite ?length_bytes_at by (cbn [length le_encode]; lia); geo).
      subst f4. rewrite bytes_at_patch_in
        by (rewrite ?length_bytes_at by (cbn [length le_encode]; lia); geo).
      reflexivity.
    + subst f6.
      rewrite bytes_at_patch_ne
        by (rewrite ?length_bytes_at by (cbn [length le_encode]; lia); geo).
      subst f5. rewrite bytes_at_patch_in
        by (rewrite ?length_bytes_at by (cbn [length le_encode]; lia); geo).
      reflexivity.
    + subst f6. rewrite bytes_at_patch_in
        by (rewrite ?length_bytes_at by (cbn [length le_encode]; lia); geo).
      replace (payload_offset 2 - (payload_offset 2 + 0)) with 0 by lia.
      reflexivity.
    + by apply written_spans.
  - rewrite written_frame; [|exact Hw|geo|geo|geo|left; geo].
    subst f6 f5 f4 f3 f2 f1.
    by rewrite !bytes_at_patch_ne
      by (rewrite ?length_bytes_at by (cbn [length le_encode]; lia);
          rewrite ?length_allocated_header; geo).
Qed.

Lemma navigate_from_app fuel dir rest : ∀ name region s,
  Forall (λ c, c ≠ "/"%byte) dir →
  navigate_from fuel (dir ++ rest) name region s
  = navigate_from fuel rest (name ++ dir) region s.
Proof.
  induction dir as [|c dir IH]; intros name region s Hdir.
  - by rewrite app_nil_r.
  - apply Forall_cons in Hdir as [Hc Hdir]. cbn [navigate_from app].
    destruct (Byte.eqb c "/") eqn:E.
    + by apply Byte.byte_dec_bl in E.
    + rewrite IH by done. by rewrite <- app_assoc.
Qed.

(** The scan of the root directory for the directory that its first
    entry lists. *)
Lemma enter_directory_listed fuel fd f lo hi metadata content name :
  fd ≠ -1 →
  Z.of_nat (length f) = block_offset DEFAULT_BLOCK_SIZE DEFAULT_BLOCK_COUNT →
  listed_directory f lo hi metadata content name →
  Forall (λ c, c ≠ x00) name → (length name < 128)%nat →
  0 ≤ lo → hi ≤ DEFAULT_BLOCK_COUNT →
  0 ≤ metadata < DEFAULT_BLOCK_COUNT → 0 ≤ content < DEFAULT_BLOCK_COUNT →
  (length name < fuel)%nat →
  enter_directory fuel root_directory_region_ name
    (at_cursor fd f root_directory_region_ 0 0)
  = Done (Some content) (at_cursor fd f content 0 0).
Proof.
  intros Hfd Hlen [Htype Hmeta Hcontent Hnamelen Hname] Hnul HL Hlo Hhi
    Hmr Hcr Hfuel.
  change root_directory_region_ with 0 in *.
  apply spans_holds in Hname; [|done].
  destruct (read_name_holds fuel fd f lo metadata 0 0 name)
    as (block' & pos' & Hread); try done; try geo.
  { by rewrite Z.add_0_r. }
  unfold enter_directory. apply iter_break; [lia|].
  erewrite bind_eq by (apply read_scalar_in_block; try done; geo).
  erewrite bind_eq by reflexivity.
  change (Z.of_nat 1) with 1. rewrite Z.add_0_r, Htype.
  change (le_decode (bytes_at (le_encode 4 DIRECTORY_ENTRY) 0 1))
    with DIRECTORY_ENTRY.
  change (DIRECTORY_ENTRY =? NULL_ENTRY) with false.
  change (DIRECTORY_ENTRY =? DIRECTORY_ENTRY) with true. cbn [negb]. cbn iota.
  erewrite bind_eq by (apply read_scalar_in_block; try done; geo).
  change (Z.of_nat 2) with 2. change (0 + 1) with 1.
  rewrite Hmeta, le_decode_encode_2 by geo.
  erewrite bind_eq by (apply read_scalar_in_block; try done; geo).
  change (Z.of_nat 2) with 2. change (1 + 2) with 3.
  rewrite Hcontent, le_decode_encode_2 by geo.
  erewrite bind_eq by (apply storage_seek_zero; try done; lia).
  erewrite bind_eq by reflexivity.
  erewrite bind_eq; cycle 1.
  { apply (storage_jump_to_region_mounted _ f);
      [apply mounted_at_cursor; [done|lia]|geo]. }
  change (storage_file_ _) with fd.
  erewrite bind_eq by exact Hread.
  erewrite bind_eq by (by apply same_name_refl).
  cbn iota.
  erewrite bind_eq by reflexivity.
  erewrite bind_eq; cycle 1.
  { apply (storage_jump_to_region_mounted _ f);
      [apply mounted_at_cursor; [done|lia]|geo]. }
  reflexivity.
Qed.

(** A path through the directory that the first entry of the root
    directory lists resolves to the content region of that directory. *)
Lemma navigate_into_directory fuel dir name s f lo hi metadata content :
  mounted s f →
  listed_directory f lo hi metadata content dir →
  single_component dir → (length dir < 128)%nat → single_component name →
  0 ≤ lo → hi ≤ DEFAULT_BLOCK_COUNT →
  0 ≤ metadata < DEFAULT_BLOCK_COUNT → 0 ≤ content < DEFAULT_BLOCK_COUNT →
  (length dir < fuel)%nat →
  navigate_to_virtual_directory fuel (dir ++ "/"%byte :: name) s
  = Done {| remainder_path := Some name; directory_region := content |}
      (at_cursor (storage_file_ s) f content 0 0).
Proof.
  intros Hm Hlisted Hdir HL Hname Hlo Hhi Hmr Hcr Hfuel.
  assert (Forall (λ c, c ≠ "/"%byte) dir) as Hdir1
    by (eapply Forall_impl; [exact Hdir|]; by intros ? [? _]).
  assert (Forall (λ c, c ≠ x00) dir) as Hdir2
    by (eapply Forall_impl; [exact Hdir|]; by intros ? [_ ?]).
  unfold navigate_to_virtual_directory.
  erewrite bind_eq by (by eapply ensure_initialized_mounted).
  erewrite bind_eq
    by (apply storage_jump_to_region_mounted;
        [done | unfold root_directory_region_; geo]).
  rewrite cstr_no_nul; cycle 1.
  { apply Forall_app. split; [done|]. apply Forall_cons. split; [done|].
    eapply Forall_impl; [exact Hname|]. by intros ? [_ ?]. }
  rewrite navigate_from_app by done. cbn [navigate_from app].
  change (Byte.eqb "/" "/") with true. cbn iota.
  erewrite bind_eq; cycle 1.
  { eapply enter_directory_listed; try done; apply Hm. }
  cbn iota. rewrite navigate_from_no_slash; [done|].
  eapply Forall_impl; [exact Hname|]. by intros ? [? _].
Qed.

(** [create_virtual_file] in a directory without entries, with [a] the
    first free block: the content region is [a], the metadata region
    [a + 1]. *)
Lemma create_virtual_file_in fuel path name s s0 f d a :
  (11 < fuel)%nat →
  navigate_to_virtual_directory fuel path s
  = Done {| remainder_path := Some name; directory_region := d |} s0 →
  mounted s0 f → 0 ≤ d < a → frontier f a →
  a + 2 + (9 + Z.of_nat (length name)) / DEFAULT_BLOCK_SIZE
  ≤ DEFAULT_BLOCK_COUNT →
  (length name ≤ 100)%nat →
  bytes_at f (payload_offset d) 1 = [x00] →
  ∃ f' e,
    create_virtual_file fuel path s
    = Done {| content_region := a; metadata_region := a + 1;
              file_length := 0; reader_position := 0 |} e
    ∧ mounted e f'
    ∧ one_block_region f'
        (a + 2 + (9 + Z.of_nat (length name)) / DEFAULT_BLOCK_SIZE) a.
Proof.
  intros Hfuel Hnav Hm0 Hd Hfront Hroom HL Hempty.
  pose proof (mounted_length _ _ Hm0) as Hlen.
  pose proof (mounted_open _ _ Hm0) as Hfd.
  assert (0 ≤ (9 + Z.of_nat (length name)) / DEFAULT_BLOCK_SIZE) as Hq
    by (apply Z.div_pos; geo).
  unfold create_virtual_file.
  erewrite bind_eq by exact Hnav.
  cbn [directory_region remainder_of remainder_path].
  destruct (d =? INVALID_REGION) eqn:E; [geo|clear E].
  set (fd := storage_file_ s0) in *.
  (* the two regions *)
  erewrite bind_eq
    by (apply (storage_allocate_region_frontier s0 f a); [done|done|geo]).
  destruct (a =? INVALID_REGION) eqn:E; [geo|clear E].
  set (f1 := patch f (block_offset DEFAULT_BLOCK_SIZE a)
               (allocated_header INVALID_BLOCK)).
  assert (frontier f1 (a + 1)) as Hfront1
    by (apply (frontier_allocated f a); try done; geo).
  assert (Z.of_nat (length f1) = Z.of_nat (length f)) as Hl1
    by (subst f1; by rewrite length_patch).
  erewrite bind_eq; cycle 1.
  { apply (storage_allocate_region_frontier _ f1 (a + 1));
      [by apply allocated_mounted|done|geo]. }
  destruct (a + 1 =? INVALID_REGION) eqn:E; [geo|clear E].
  set (f2 := patch f1 (block_offset DEFAULT_BLOCK_SIZE (a + 1))
               (allocated_header INVALID_BLOCK)).
  assert (frontier f2 (a + 2)) as Hfront2.
  { replace (a + 2) with (a + 1 + 1) by lia.
    apply (frontier_allocated f1 (a + 1)); try done; geo. }
  assert (Z.of_nat (length f2) = Z.of_nat (length f)) as Hl2
    by (subst f2; by rewrite length_patch).
  (* the entry in the directory *)
  erewrite bind_eq; cycle 1.
  { apply (storage_jump_to_region_mounted _ f2);
      [by do 2 apply allocated_mounted|geo]. }
  change (storage_file_ _) with fd.
  assert (bytes_at f2 (payload_offset d + 0) 1 = [x00]) as Hempty2.
  { subst f2 f1.
    rewrite !bytes_at_patch_ne by (rewrite ?length_allocated_header; geo).
    by rewrite Z.add_0_r. }
  erewrite bind_eq by (apply find_available_entry_here; try done; geo).
  erewrite bind_eq by (apply storage_seek_back_one; geo).
  change (0 + 1 - 1) with 0.
  erewrite bind_eq by (apply storage_write_in_block; try done; geo).
  set (f3 := patch f2 _ _).
  assert (Z.of_nat (length f3) = Z.of_nat (length f)) as Hl3
    by (subst f3; by rewrite length_patch).
  erewrite bind_eq by (apply storage_write_in_block; try done; geo).
  set (f4 := patch f3 _ _).
  assert (Z.of_nat (length f4) = Z.of_nat (length f)) as Hl4
    by (subst f4; by rewrite length_patch).
  erewrite bind_eq by (apply storage_write_in_block; try done; geo).
  set (f5 := patch f4 _ _).
  assert (Z.of_nat (length f5) = Z.of_nat (length f)) as Hl5
    by (subst f5; by rewrite length_patch).
  (* the metadata region: length, length of the name, name *)
  erewrite bind_eq; cycle 1.
  { apply (storage_jump_to_region_mounted _ f5);
      [apply mounted_at_cursor; [done|lia]|geo]. }
  change (storage_file_ _) with fd.
  erewrite bind_eq by (apply storage_write_in_block; try done; geo).
  set (f6 := patch f5 _ _).
  assert (Z.of_nat (length f6) = Z.of_nat (length f)) as Hl6
    by (subst f6; by rewrite length_patch).
  assert (Z.of_nat (length name) ≤ 100) as HL' by lia.
  unfold remainder_path_length.
  rewrite (to_char_small (Z.of_nat (length name))) by lia.
  rewrite (to_size_t_small (Z.of_nat (length name))) by lia.
  erewrite bind_eq by (apply storage_write_in_block; try done; geo).
  set (f7 := patch f6 _ _).
  assert (Z.of_nat (length f7) = Z.of_nat (length f)) as Hl7
    by (subst f7; by rewrite length_patch).
  change (0 + 8 + 1) with 9.
  assert (frontier f7 (a + 2)) as Hfront7.
  { subst f7 f6 f5 f4 f3.
    repeat (apply frontier_patch_payload;
            [lia|lia|rewrite length_bytes_at by (cbn [length le_encode]; lia); geo
            | |lia]).
    done. }
  assert (∀ j, 0 ≤ j → header_at f7 DEFAULT_BLOCK_SIZE j
                       = header_at f2 DEFAULT_BLOCK_SIZE j) as Hheaders.
  { intros j Hj. subst f7 f6 f5 f4 f3.
    rewrite !header_at_patch_payload
      by (rewrite ?length_bytes_at by (cbn [length le_encode]; lia); geo).
    done. }
  assert (next_of f7 (a + 1) = INVALID_BLOCK) as Hnext2.
  { unfold next_of. rewrite Hheaders by lia. subst f2.
    rewrite next_of_allocated; [done|geo|lia|geo]. }
  assert (next_of f7 a = INVALID_BLOCK) as Hnext1.
  { unfold next_of. rewrite Hheaders by lia. subst f2.
    rewrite header_at_patch_outside
      by (rewrite ?length_allocated_header; geo).
    subst f1. rewrite next_of_allocated; [done|geo|lia|geo]. }
  pose proof (bytes_at_prefix name [x00]) as Hdata.
  assert (writable 10 f7 (a + 1) 9 (a + 2)
            (bytes_at (name ++ [x00]) 0 (Z.of_nat (length name)))) as Hw.
  { rewrite Hdata. unfold writable.
    assert ((9 + Z.of_nat (length name)) / DEFAULT_BLOCK_SIZE < 11)
      by (apply Z.div_lt_upper_bound; geo).
    repeat split; try lia; geo. }
  destruct (storage_write_appends 10 fuel fd (name ++ [x00])
              (Z.of_nat (length name)) f7 (a + 1) 9 (a + 2) 9)
    as (block' & pos' & Heq); try done; try lia.
  { rewrite length_app. cbn [length]. lia. }
  rewrite Hdata in Heq, Hw.
  eexists _, _. split; [|split].
  - erewrite bind_eq by exact Heq. reflexivity.
  - apply mounted_at_cursor; [done|]. rewrite length_written. lia.
  - split.
    + rewrite length_written. lia.
    + by apply written_frontier.
    + lia.
    + unfold next_of, header_at. cbn [next_block].
      rewrite written_frame; [exact Hnext1|done|geo|lia|geo|left; geo].
Qed.

(** Looking a name up in a directory without entries. *)
Lemma find_virtual_file_empty_in fuel path name s fd f d :
  (0 < fuel)%nat →
  navigate_to_virtual_directory fuel path s
  = Done {| remainder_path := Some name; directory_region := d |}
      (at_cursor fd f d 0 0) →
  fd ≠ -1 →
  Z.of_nat (length f) = block_offset DEFAULT_BLOCK_SIZE DEFAULT_BLOCK_COUNT →
  0 ≤ d < DEFAULT_BLOCK_COUNT →
  bytes_at f (payload_offset d) 1 = [x00] →
  find_virtual_file fuel path s = Done invalid_file (at_cursor fd f d 1 1).
Proof.
  intros Hfuel Hnav Hfd Hlen Hd Hempty. unfold find_virtual_file.
  erewrite bind_eq by exact Hnav.
  cbn [directory_region].
  destruct (d =? INVALID_REGION) eqn:E; [geo|clear E].
  apply iter_break; [done|].
  erewrite bind_eq by (apply read_scalar_in_block; try done; geo).
  change (Z.of_nat 1) with 1. rewrite Z.add_0_r, Hempty. reflexivity.
Qed.

(** X23: [mkdir_virtual] in a root directory without entries, with
    every block but the root's free.  For a name of at most 100 bytes
    (one path component) it returns 0 and leaves the descriptor table
    alone; the content region of the directory is block 1, and every
    path that continues the name with a slash and one more component
    resolves to that region, with the component as remainder. *)
Theorem mkdir_virtual_creates_directory fuel dir s f :
  mounted (engine s) f → frontier f 1 →
  bytes_at f (payload_offset root_directory_region_) 1 = [x00] →
  single_component dir → (length dir ≤ 100)%nat →
  (11 < fuel)%nat → (length dir < fuel)%nat →
  ∃ s' f',
    mkdir_virtual fuel dir s = Done 0 s'
    ∧ mounted (engine s') f'
    ∧ descriptors_ s' = descriptors_ s
    ∧ (∀ name, single_component name →
         value_of (navigate_to_virtual_directory fuel
                     (dir ++ "/"%byte :: name) (engine s'))
         = Some {| remainder_path := Some name; directory_region := 1 |}).
Proof.
  intros Hm Hfront Hempty Hdir HL Hfuel Hfuel'.
  destruct (mkdir_storage_first fuel dir (engine s) f)
    as (f' & e & Hmkdir & Hm' & Hregion & Hlisted & _); try done.
  assert (0 ≤ (1 + Z.of_nat (length dir)) / DEFAULT_BLOCK_SIZE < 11) as Hq
    by (split; [apply Z.div_pos|apply Z.div_lt_upper_bound]; geo).
  destruct s as [e0 ds last]. fsfields in *.
  eexists _, f'. split; [|split; [|split]].
  - unfold mkdir_virtual.
    erewrite bind_eq by reflexivity. fsfields.
    by erewrite lift_eq by exact Hmkdir.
  - done.
  - done.
  - intros name Hname. fsfields.
    erewrite (navigate_into_directory fuel dir name e f'); try done; geo.
Qed.

Lemma mkdir_virtual_creates_directory_witness :
  ∃ s' f',
    mkdir_virtual 200 (path_of "A") (set_engine formatted_engine fresh)
    = Done 0 s'
    ∧ mounted (engine s') f'
    ∧ descriptors_ s' = descriptors_ (set_engine formatted_engine fresh)
    ∧ (∀ name, single_component name →
         value_of (navigate_to_virtual_directory 200
                     (path_of "A" ++ "/"%byte :: name) (engine s'))
         = Some {| remainder_path := Some name; directory_region := 1 |}).
Proof.
  apply (mkdir_virtual_creates_directory 200 (path_of "A")
           (set_engine formatted_engine fresh) formatted_file).
  - apply formatted_mounted.
  - apply formatted_frontier.
  - apply formatted_root_empty.
  - repeat constructor; discriminate.
  - vm_compute. lia.
  - lia.
  - vm_compute. lia.
Defined.

(** X24: a file in a new directory.  In a root directory without
    entries, with every block but the root's free and a zero at the
    start of the payload of block 1 (which [mkdir_virtual] does not
    clear), [mkdir_virtual] of a name followed by [open_virtual] with
    [O_CREAT] of a path in that directory returns the first free
    descriptor: the file is created behind the blocks of the directory,
    with its content region in the first free block and its metadata
    region in the next one. *)
Theorem file_in_new_directory fuel dir name s f fd :
  mounted (engine s) f → frontier f 1 →
  bytes_at f (payload_offset root_directory_region_) 1 = [x00] →
  bytes_at f (payload_offset 1) 1 = [x00] →
  single_component dir → (length dir ≤ 100)%nat →
  single_component name → (length name ≤ 100)%nat →
  first_available (Z.to_nat MAX_DESCRIPTORS) 0 (descriptors_ s) = fd →
  fd ≠ -1 →
  (11 < fuel)%nat → (length dir < fuel)%nat →
  let a := 3 + (1 + Z.of_nat (length dir)) / DEFAULT_BLOCK_SIZE in
  ∃ s',
    (mkdir_virtual fuel dir;;
     open_virtual fuel (dir ++ "/"%byte :: name) O_CREAT) s = Done fd s'
    ∧ descriptor fd (descriptors_ s')
      = Some {| content_region := a; metadata_region := a + 1;
                file_length := 0; reader_position := 0 |}.
Proof.
  intros Hm Hfront Hempty Hblock Hdir HL Hname HLn Hscan Hfd Hfuel Hfuel' a.
  destruct (mkdir_storage_first fuel dir (engine s) f)
    as (f' & e & Hmkdir & Hm' & Hregion & Hlisted & Hpayload); try done.
  assert (0 ≤ (1 + Z.of_nat (length dir)) / DEFAULT_BLOCK_SIZE < 11) as Hq
    by (split; [apply Z.div_pos|apply Z.div_lt_upper_bound]; geo).
  assert (0 ≤ (9 + Z.of_nat (length name)) / DEFAULT_BLOCK_SIZE < 11) as Hqn
    by (split; [apply Z.div_pos|apply Z.div_lt_upper_bound]; geo).
  fold a in Hregion, Hlisted, Hq.
  pose proof (mounted_length _ _ Hm') as Hlen'.
  pose proof (mounted_open _ _ Hm') as Hfd'.
  assert (bytes_at f' (payload_offset 1) 1 = [x00]) as Hblock'.
  { apply (f_equal (λ l, bytes_at l 0 1)) in Hpayload.
    rewrite !bytes_at_bytes_at in Hpayload by geo.
    rewrite !Z.add_0_r in Hpayload. by rewrite Hpayload. }
  assert (∀ e1, mounted e1 f' →
            navigate_to_virtual_directory fuel (dir ++ "/"%byte :: name) e1
            = Done {| remainder_path := Some name; directory_region := 1 |}
                (at_cursor (storage_file_ e1) f' 1 0 0)) as Hnav.
  { intros e1 Hm1.
    apply (navigate_into_directory fuel dir name e1 f' 3 a 2 1);
      try done; geo. }
  destruct (create_virtual_file_in fuel (dir ++ "/"%byte :: name) name
              (at_cursor (storage_file_ e) f' 1 1 1)
              (at_cursor (storage_file_ e) f' 1 0 0) f' 1 a)
    as (f'' & e'' & Hcreate & Hm'' & _); try done; try geo.
  { apply (Hnav (at_cursor (storage_file_ e) f' 1 1 1)).
    by apply mounted_at_cursor. }
  { apply Hregion. }
  destruct (first_available_free _ _ Hscan Hfd) as [Hrange Hslot].
  destruct s as [e0 ds last]. fsfields in *.
  eexists. split.
  - unfold mkdir_virtual.
    erewrite bind_eq; cycle 1.
    { erewrite bind_eq by reflexivity. fsfields.
      by erewrite lift_eq by exact Hmkdir. }
    unfold open_virtual.
    erewrite bind_eq
      by (apply lift_eq; by eapply ensure_initialized_mounted).
    fsfields.
    erewrite bind_eq by reflexivity. fsfields. rewrite Hscan.
    destruct (fd =? -1) eqn:E; [lia|clear E].
    erewrite bind_eq by reflexivity. fsfields.
    erewrite bind_eq; cycle 1.
    { apply lift_eq. fsfields.
      by apply (find_virtual_file_empty_in fuel _ name e (storage_file_ e) f' 1);
        try done; try geo; try lia; apply Hnav. }
    fsfields.
    erewrite bind_eq; cycle 1.
    { cbn [content_region invalid_file].
      change (INVALID_REGION =? INVALID_REGION) with true.
      change (Z.land O_CREAT O_CREAT =? 0) with false. cbn iota.
      erewrite bind_eq by (apply lift_eq; exact Hcreate).
      cbn [content_region].
      destruct (a =? INVALID_REGION) eqn:E; [geo|clear E].
      reflexivity. }
    cbn iota beta.
    erewrite bind_eq by reflexivity. fsfields.
    change (Z.land O_CREAT O_TRUNC =? 0) with true.
    change (Z.land O_CREAT O_APPEND =? 0) with true. cbn [negb].
    erewrite bind_eq by reflexivity.
    reflexivity.
  - fsfields. unfold descriptor.
    destruct (fd <? 0) eqn:E1; [lia|].
    destruct (MAX_DESCRIPTORS <=? fd) eqn:E2; [lia|]. cbn [orb].
    rewrite list_lookup_insert_eq; [done|].
    by eapply lookup_lt_Some.
Qed.

Lemma file_in_new_directory_witness :
  ∃ s',
    (mkdir_virtual 200 (path_of "A");;
     open_virtual 200 (path_of "A" ++ "/"%byte :: path_of "f") O_CREAT)
      (set_engine formatted_engine fresh) = Done 0 s'
    ∧ descriptor 0 (descriptors_ s')
      = Some {| content_region :=
                  3 + (1 + Z.of_nat (length (path_of "A")))
                      / DEFAULT_BLOCK_SIZE;
                metadata_region :=
                  3 + (1 + Z.of_nat (length (path_of "A")))
                      / DEFAULT_BLOCK_SIZE + 1;
                file_length := 0; reader_position := 0 |}.
Proof.
  apply (file_in_new_directory 200 (path_of "A") (path_of "f")
           (set_engine formatted_engine fresh) formatted_file 0).
  - apply formatted_mounted.
  - apply formatted_frontier.
  - apply formatted_root_empty.
  - vm_compute. reflexivity.
  - repeat constructor; discriminate.
  - vm_compute. lia.
  - repeat constructor; discriminate.
  - vm_compute. lia.
  - vm_compute. reflexivity.
  - discriminate.
  - lia.
  - vm_compute. lia.
Defined.
